(** * Vocalite: the voice-assistant orchestration core

    A shallow embedding of the client-side orchestration code of the
    repository:

    - [src/workers/tts.worker.ts]  (the synthesis worker),
    - [hooks/useTTS.ts]            (the synthesis hook, with its main-thread
                                    fallback),
    - [src/components/WebSpeechRecognition.tsx] (the conversation component:
      recognition handlers, debounce, auto-speak and its circuit breaker).

    JavaScript strings are sequences of UTF-16 code units; React state,
    refs, timers and the two message queues between the UI thread and the
    worker are explicit fields of a system state, and every handler of the
    source is a function on that state.  Diagnostic output ([console.log],
    the on-screen debug list) is not part of the model. *)

From Stdlib Require Import NArith Ascii String List Bool Lia.
From stdpp Require Import base decidable option numbers list.

Set Default Proof Using "Type".
Open Scope nat_scope.

(* ===================================================================== *)
(** ** JavaScript strings *)
(* ===================================================================== *)

(** A string is the list of its UTF-16 code units. *)
Definition jsstring : Type := list N.

(** Literals of the source, written as ASCII text. *)
Definition js (s : string) : jsstring :=
  map N_of_ascii (list_ascii_of_string s).

(** ECMAScript [WhiteSpace] and [LineTerminator] code points: what
    [String.prototype.trim] strips.  All of them lie in the basic plane. *)
Definition isWhiteSpace (c : N) : bool :=
  ((9 <=? c) && (c <=? 13) || (c =? 32) || (c =? 160) || (c =? 5760)
   || (8192 <=? c) && (c <=? 8202)
   || (c =? 8232) || (c =? 8233) || (c =? 8239) || (c =? 8287)
   || (c =? 12288) || (c =? 65279))%N.

Fixpoint trimStart (s : jsstring) : jsstring :=
  match s with
  | c :: s' => if isWhiteSpace c then trimStart s' else s
  | [] => []
  end.

Definition trimEnd (s : jsstring) : jsstring := rev (trimStart (rev s)).

Definition trim (s : jsstring) : jsstring := trimEnd (trimStart s).

(** Truthiness of a string value: the empty string is falsy. *)
Definition truthy (s : jsstring) : bool :=
  match s with [] => false | _ :: _ => true end.

Fixpoint startsWith (p s : jsstring) : bool :=
  match p, s with
  | [], _ => true
  | _ :: _, [] => false
  | a :: p', b :: s' => (a =? b)%N && startsWith p' s'
  end.

(** [hay.includes(needle)]. *)
Fixpoint includes (needle hay : jsstring) : bool :=
  startsWith needle hay ||
  match hay with
  | [] => false
  | _ :: hay' => includes needle hay'
  end.

(* ===================================================================== *)
(** ** Messages of the worker protocol *)
(* ===================================================================== *)

Record ProgressInfo := { loaded : option nat; total : option nat }.

(** [TTSMessage] of [hooks/useTTS.ts]: what the worker sends to the hook.
    An optional [fallbackToMainThread] that is absent is falsy, hence
    [false] here. *)
Inductive TTSMessage :=
| READY (voiceId : option jsstring) (fallbackToMainThread : bool)
| DOWNLOAD_PROGRESS (progress : ProgressInfo)
| AUDIO (buffer : list N)
| ERROR (message : jsstring)
| VOICES (voices : list jsstring) (fallbackToMainThread : bool)
| VOICE_CHANGED (voiceId : jsstring)
| REMOVED
| STOPPED
| SPEAK_REQUEST (text : jsstring) (voiceId : jsstring)
                (fallbackToMainThread : bool)
| VOICES_REQUEST (fallbackToMainThread : bool)
| STOP_REQUEST (fallbackToMainThread : bool).

Definition isREADY (m : TTSMessage) : bool :=
  match m with READY _ _ => true | _ => false end.
Definition isAUDIO (m : TTSMessage) : bool :=
  match m with AUDIO _ => true | _ => false end.
Definition isSPEAK_REQUEST (m : TTSMessage) : bool :=
  match m with SPEAK_REQUEST _ _ _ => true | _ => false end.
Definition isERROR (m : TTSMessage) : bool :=
  match m with ERROR _ => true | _ => false end.

(** The [type] field of a message posted to the worker.  The hook also
    posts ['CHANGE_VOICE'], which the worker has no branch for. *)
Inductive RequestType := INIT | SPEAK | GET_VOICES | STOP | CHANGE_VOICE.

(** [event.data] as the worker destructures it: [{ type, text, voiceId }].
    A field that is absent is [undefined], here [None]. *)
Record Request := {
  type : RequestType;
  text : option jsstring;
  voiceId : option jsstring
}.

Definition isSPEAK (r : Request) : bool :=
  match type r with SPEAK => true | _ => false end.

(* ===================================================================== *)
(** ** The synthesis worker, [src/workers/tts.worker.ts] *)
(* ===================================================================== *)

Module Worker.

(** The three module-level variables of the worker. *)
Record State := {
  isReady : bool;
  availableVoices : list jsstring;
  useFallback : bool
}.

Definition initial : State :=
  {| isReady := false; availableVoices := []; useFallback := false |}.

(** Outcome of the [HEAD] request for the model file in the [INIT]
    branch: found, not found, or the request itself is rejected. *)
Inductive ModelCheck :=
| ModelFound
| ModelMissing
| FetchRejected (err : jsstring).

Definition browserVoice : jsstring := js "browser-speech-synthesis".

(** The inner [try] block of the [INIT] branch.  Whatever the model check
    says, the block ends in [throw]: its result is the error caught. *)
Definition init_try (probe : ModelCheck) : unit + jsstring :=
  match probe with
  | ModelFound | ModelMissing =>
      inr (js "Piper TTS WASM files not available - using browser fallback")
  | FetchRejected err => inr err
  end.

(** The [catch] block of the [INIT] branch. *)
Definition init_catch (w : State) : State * list TTSMessage :=
  let voices := [browserVoice] in
  ({| isReady := true; availableVoices := voices; useFallback := true |},
   [READY (Some browserVoice) true; VOICES voices true]).

(** [!text || !text.trim()] *)
Definition noText (t : option jsstring) : bool :=
  match t with
  | None => true
  | Some s => negb (truthy s) || negb (truthy (trim s))
  end.

(** [voiceId || 'browser-speech-synthesis'] *)
Definition voiceOrDefault (v : option jsstring) : jsstring :=
  match v with
  | Some s => if truthy s then s else browserVoice
  | None => browserVoice
  end.

(** [self.onmessage].  The source tests [type] against four distinct
    constants in sequence; one branch at most applies. *)
Definition onmessage (probe : ModelCheck) (ev : Request) (w : State)
  : State * list TTSMessage :=
  match type ev with
  | INIT =>
      match init_try probe with
      | inr _ => init_catch w
      | inl _ => (w, [])
      end
  | SPEAK =>
      if negb (isReady w) then
        (w, [ERROR (js "Worker not ready for SPEAK")])
      else
        match text ev with
        | Some t =>
            if noText (Some t) then (w, [ERROR (js "No text provided")])
            else (w, [SPEAK_REQUEST (trim t)
                        (voiceOrDefault (voiceId ev)) true])
        | None => (w, [ERROR (js "No text provided")])
        end
  | GET_VOICES => (w, [VOICES (availableVoices w) (useFallback w)])
  | STOP => (w, [STOP_REQUEST true])
  | CHANGE_VOICE => (w, [])
  end.

End Worker.

(* ===================================================================== *)
(** ** Browser objects the main thread uses *)
(* ===================================================================== *)

(** [window.speechSynthesis]: its three status flags and the names of the
    voices [getVoices()] returns. *)
Record SpeechSynthesis := {
  speaking : bool;
  pending : bool;
  paused : bool;
  voices : list jsstring
}.

(** [speechSynthesis.cancel()] empties the utterance queue. *)
Definition cancel (y : SpeechSynthesis) : SpeechSynthesis :=
  {| speaking := false; pending := false; paused := paused y;
     voices := voices y |}.

(** [speechSynthesis.resume()] *)
Definition resume (y : SpeechSynthesis) : SpeechSynthesis :=
  {| speaking := speaking y; pending := pending y; paused := false;
     voices := voices y |}.

(** [speechSynthesis.speak(u)]: [u] joins the queue. *)
Definition enqueue (y : SpeechSynthesis) : SpeechSynthesis :=
  {| speaking := speaking y; pending := true; paused := paused y;
     voices := voices y |}.

(** What a property [isTTSLocked] of [window] could refer to: the ref
    object of the component, or some other object with a [current]. *)
Inductive LockObject :=
| ComponentRef
| OtherObject (current : bool).

(** The properties of [window] the code reads.  [speechSynthesis] is
    absent in a browser without speech synthesis; [window_isTTSLocked] is
    the property [(window as any).isTTSLocked] that [useTTS] looks up. *)
Record Window := {
  speechSynthesis : option SpeechSynthesis;
  window_isTTSLocked : option LockObject
}.

(* ===================================================================== *)
(** ** State of the hook [useTTS] *)
(* ===================================================================== *)

Module TTS.

(** The [useState] cells of the hook. *)
Record State := {
  isInitialized : bool;
  isLoading : bool;
  isSpeaking : bool;
  error : option jsstring;
  progress : option ProgressInfo;
  availableVoices : list jsstring;
  currentVoiceId : option jsstring;
  useFallback : bool
}.

(** The [useRef] cells of the hook.  [speechSynthRef] holds an utterance
    or [null]; only whether it is set is observable.  The hook has refs
    [ttsActuallyStarted] and [hasSpokenResponse] of its own: they are not
    the component's refs of the same names. *)
Record Refs := {
  speechSynthRef : bool;
  ttsActuallyStarted : bool;
  hasSpokenResponse : bool
}.

Definition initial : State :=
  {| isInitialized := false; isLoading := false; isSpeaking := false;
     error := None; progress := None; availableVoices := [];
     currentVoiceId := None; useFallback := false |}.

Definition initialRefs : Refs :=
  {| speechSynthRef := false; ttsActuallyStarted := false;
     hasSpokenResponse := false |}.

Definition setIsInitialized (v : bool) (s : State) : State :=
  {| isInitialized := v; isLoading := isLoading s;
     isSpeaking := isSpeaking s; error := error s; progress := progress s;
     availableVoices := availableVoices s;
     currentVoiceId := currentVoiceId s; useFallback := useFallback s |}.
Definition setIsLoading (v : bool) (s : State) : State :=
  {| isInitialized := isInitialized s; isLoading := v;
     isSpeaking := isSpeaking s; error := error s; progress := progress s;
     availableVoices := availableVoices s;
     currentVoiceId := currentVoiceId s; useFallback := useFallback s |}.
Definition setIsSpeaking (v : bool) (s : State) : State :=
  {| isInitialized := isInitialized s; isLoading := isLoading s;
     isSpeaking := v; error := error s; progress := progress s;
     availableVoices := availableVoices s;
     currentVoiceId := currentVoiceId s; useFallback := useFallback s |}.
Definition setError (v : option jsstring) (s : State) : State :=
  {| isInitialized := isInitialized s; isLoading := isLoading s;
     isSpeaking := isSpeaking s; error := v; progress := progress s;
     availableVoices := availableVoices s;
     currentVoiceId := currentVoiceId s; useFallback := useFallback s |}.
Definition setProgress (v : option ProgressInfo) (s : State) : State :=
  {| isInitialized := isInitialized s; isLoading := isLoading s;
     isSpeaking := isSpeaking s; error := error s; progress := v;
     availableVoices := availableVoices s;
     currentVoiceId := currentVoiceId s; useFallback := useFallback s |}.
Definition setAvailableVoices (v : list jsstring) (s : State) : State :=
  {| isInitialized := isInitialized s; isLoading := isLoading s;
     isSpeaking := isSpeaking s; error := error s; progress := progress s;
     availableVoices := v;
     currentVoiceId := currentVoiceId s; useFallback := useFallback s |}.
Definition setCurrentVoiceId (v : option jsstring) (s : State) : State :=
  {| isInitialized := isInitialized s; isLoading := isLoading s;
     isSpeaking := isSpeaking s; error := error s; progress := progress s;
     availableVoices := availableVoices s;
     currentVoiceId := v; useFallback := useFallback s |}.
Definition setUseFallback (v : bool) (s : State) : State :=
  {| isInitialized := isInitialized s; isLoading := isLoading s;
     isSpeaking := isSpeaking s; error := error s; progress := progress s;
     availableVoices := availableVoices s;
     currentVoiceId := currentVoiceId s; useFallback := v |}.

Definition setSpeechSynthRef (v : bool) (r : Refs) : Refs :=
  {| speechSynthRef := v; ttsActuallyStarted := ttsActuallyStarted r;
     hasSpokenResponse := hasSpokenResponse r |}.
(** The two assignments of [utterance.onstart]. *)
Definition markStarted (r : Refs) : Refs :=
  {| speechSynthRef := speechSynthRef r; ttsActuallyStarted := true;
     hasSpokenResponse := true |}.

(** The values a [speak] callback closes over: its [useCallback]
    dependencies. *)
Record SpeakClosure := {
  c_isInitialized : bool;
  c_useFallback : bool;
  c_isSpeaking : bool
}.

Definition closure (s : State) : SpeakClosure :=
  {| c_isInitialized := isInitialized s; c_useFallback := useFallback s;
     c_isSpeaking := isSpeaking s |}.

End TTS.

(* ===================================================================== *)
(** ** State of the component [WebSpeechRecognition] *)
(* ===================================================================== *)

Module Comp.

(** The [useState] cells of the component. *)
Record State := {
  isRecording : bool;
  isSupported : bool;
  transcription : jsstring;
  interimTranscript : jsstring;
  error : jsstring;
  generatedResponse : jsstring;
  isGenerating : bool
}.

(** The [useRef] cells of the component; [recognitionRef] holds the
    recognition object or [null]. *)
Record Refs := {
  recognitionRef : bool;
  hasSpokenResponse : bool;
  ttsActuallyStarted : bool;
  isTTSLocked : bool;
  autoSpeakAttempts : nat
}.

Definition initial : State :=
  {| isRecording := false; isSupported := false; transcription := [];
     interimTranscript := []; error := []; generatedResponse := [];
     isGenerating := false |}.

Definition initialRefs : Refs :=
  {| recognitionRef := false; hasSpokenResponse := false;
     ttsActuallyStarted := false; isTTSLocked := false;
     autoSpeakAttempts := 0 |}.

Definition setIsRecording (v : bool) (s : State) : State :=
  {| isRecording := v; isSupported := isSupported s;
     transcription := transcription s;
     interimTranscript := interimTranscript s; error := error s;
     generatedResponse := generatedResponse s;
     isGenerating := isGenerating s |}.
Definition setIsSupported (v : bool) (s : State) : State :=
  {| isRecording := isRecording s; isSupported := v;
     transcription := transcription s;
     interimTranscript := interimTranscript s; error := error s;
     generatedResponse := generatedResponse s;
     isGenerating := isGenerating s |}.
Definition setTranscription (v : jsstring) (s : State) : State :=
  {| isRecording := isRecording s; isSupported := isSupported s;
     transcription := v;
     interimTranscript := interimTranscript s; error := error s;
     generatedResponse := generatedResponse s;
     isGenerating := isGenerating s |}.
Definition setInterimTranscript (v : jsstring) (s : State) : State :=
  {| isRecording := isRecording s; isSupported := isSupported s;
     transcription := transcription s;
     interimTranscript := v; error := error s;
     generatedResponse := generatedResponse s;
     isGenerating := isGenerating s |}.
Definition setError (v : jsstring) (s : State) : State :=
  {| isRecording := isRecording s; isSupported := isSupported s;
     transcription := transcription s;
     interimTranscript := interimTranscript s; error := v;
     generatedResponse := generatedResponse s;
     isGenerating := isGenerating s |}.
Definition setGeneratedResponse (v : jsstring) (s : State) : State :=
  {| isRecording := isRecording s; isSupported := isSupported s;
     transcription := transcription s;
     interimTranscript := interimTranscript s; error := error s;
     generatedResponse := v;
     isGenerating := isGenerating s |}.
Definition setIsGenerating (v : bool) (s : State) : State :=
  {| isRecording := isRecording s; isSupported := isSupported s;
     transcription := transcription s;
     interimTranscript := interimTranscript s; error := error s;
     generatedResponse := generatedResponse s;
     isGenerating := v |}.

Definition setRecognitionRef (v : bool) (r : Refs) : Refs :=
  {| recognitionRef := v; hasSpokenResponse := hasSpokenResponse r;
     ttsActuallyStarted := ttsActuallyStarted r;
     isTTSLocked := isTTSLocked r;
     autoSpeakAttempts := autoSpeakAttempts r |}.
Definition setHasSpokenResponse (v : bool) (r : Refs) : Refs :=
  {| recognitionRef := recognitionRef r; hasSpokenResponse := v;
     ttsActuallyStarted := ttsActuallyStarted r;
     isTTSLocked := isTTSLocked r;
     autoSpeakAttempts := autoSpeakAttempts r |}.
Definition setTtsActuallyStarted (v : bool) (r : Refs) : Refs :=
  {| recognitionRef := recognitionRef r;
     hasSpokenResponse := hasSpokenResponse r;
     ttsActuallyStarted := v;
     isTTSLocked := isTTSLocked r;
     autoSpeakAttempts := autoSpeakAttempts r |}.
Definition setIsTTSLocked (v : bool) (r : Refs) : Refs :=
  {| recognitionRef := recognitionRef r;
     hasSpokenResponse := hasSpokenResponse r;
     ttsActuallyStarted := ttsActuallyStarted r;
     isTTSLocked := v;
     autoSpeakAttempts := autoSpeakAttempts r |}.
Definition setAutoSpeakAttempts (v : nat) (r : Refs) : Refs :=
  {| recognitionRef := recognitionRef r;
     hasSpokenResponse := hasSpokenResponse r;
     ttsActuallyStarted := ttsActuallyStarted r;
     isTTSLocked := isTTSLocked r;
     autoSpeakAttempts := v |}.

(** The values a [sendToGemini] callback closes over: its [useCallback]
    dependencies ([ttsInitialized] is the hook's [isInitialized]). *)
Record GeminiClosure := {
  g_transcription : jsstring;
  g_isRecording : bool;
  g_ttsInitialized : bool
}.

End Comp.

(* ===================================================================== *)
(** ** Calls of [speakWithBrowser] in flight *)
(* ===================================================================== *)

(** Who called [speakWithBrowser]: [speak] (which chains [.catch] and
    [.finally]) or the [SPEAK_REQUEST] branch of the message handler (which
    chains [.catch] only). *)
Inductive Origin := FromSpeak | FromSpeakRequest.

(** Where a call stands.  [Preparing]: before [speechSynthesis.speak];
    [Queued]: the utterance is queued and [startTimeout] is armed;
    [Retrying]: [startTimeout] has fired, the primer and the final timeout
    are armed; [Finished]: no timer of the call is left. *)
Inductive Phase := Preparing | Queued | Retrying | Finished.

Inductive PrimerState := NoPrimer | PrimerScheduled | PrimerSpeaking | PrimerDone.

(** One call: the locals [hasStarted] and [hasEnded] of the source, the
    phase, the primer of the retry, whether the utterance is in the queue
    of the engine, and whether the promise is settled. *)
Record SpeakOp := {
  origin : Origin;
  utterance : jsstring;
  hasStarted : bool;
  hasEnded : bool;
  phase : Phase;
  primer : PrimerState;
  inQueue : bool;
  settled : bool
}.

Definition newSpeakOp (o : Origin) (t : jsstring) : SpeakOp :=
  {| origin := o; utterance := t; hasStarted := false; hasEnded := false;
     phase := Preparing; primer := NoPrimer; inQueue := false;
     settled := false |}.

Definition setOp (started ended : bool) (ph : Phase) (pr : PrimerState)
    (q st : bool) (op : SpeakOp) : SpeakOp :=
  {| origin := origin op; utterance := utterance op; hasStarted := started;
     hasEnded := ended; phase := ph; primer := pr; inQueue := q;
     settled := st |}.

(** [cancel()] removes the utterance of a call from the queue. *)
Definition dequeued (op : SpeakOp) : SpeakOp :=
  setOp (hasStarted op) (hasEnded op) (phase op) (primer op) false
        (settled op) op.

(* ===================================================================== *)
(** ** The system state *)
(* ===================================================================== *)

(** Everything the handlers read and write. *)
Record Core := {
  comp : Comp.State;
  refs : Comp.Refs;
  tts : TTS.State;
  ttsRefs : TTS.Refs;
  window : Window;
  worker : Worker.State;
  toWorker : list Request;
  fromWorker : list TTSMessage;
  speakOps : list SpeakOp;
  initTimeouts : list nat;
  voicesListeners : nat;
  audios : nat;
  now : nat;
  apiKey : bool;
  geminiRequests : list jsstring;
  pendingFetches : nat
}.

Definition upd_comp (f : Comp.State -> Comp.State) (c : Core) : Core :=
  {| comp := f (comp c); refs := refs c; tts := tts c;
     ttsRefs := ttsRefs c; window := window c; worker := worker c;
     toWorker := toWorker c; fromWorker := fromWorker c;
     speakOps := speakOps c; initTimeouts := initTimeouts c;
     voicesListeners := voicesListeners c; audios := audios c;
     now := now c; apiKey := apiKey c; geminiRequests := geminiRequests c;
     pendingFetches := pendingFetches c |}.
Definition upd_refs (f : Comp.Refs -> Comp.Refs) (c : Core) : Core :=
  {| comp := comp c; refs := f (refs c); tts := tts c;
     ttsRefs := ttsRefs c; window := window c; worker := worker c;
     toWorker := toWorker c; fromWorker := fromWorker c;
     speakOps := speakOps c; initTimeouts := initTimeouts c;
     voicesListeners := voicesListeners c; audios := audios c;
     now := now c; apiKey := apiKey c; geminiRequests := geminiRequests c;
     pendingFetches := pendingFetches c |}.
Definition upd_tts (f : TTS.State -> TTS.State) (c : Core) : Core :=
  {| comp := comp c; refs := refs c; tts := f (tts c);
     ttsRefs := ttsRefs c; window := window c; worker := worker c;
     toWorker := toWorker c; fromWorker := fromWorker c;
     speakOps := speakOps c; initTimeouts := initTimeouts c;
     voicesListeners := voicesListeners c; audios := audios c;
     now := now c; apiKey := apiKey c; geminiRequests := geminiRequests c;
     pendingFetches := pendingFetches c |}.
Definition upd_ttsRefs (f : TTS.Refs -> TTS.Refs) (c : Core) : Core :=
  {| comp := comp c; refs := refs c; tts := tts c;
     ttsRefs := f (ttsRefs c); window := window c; worker := worker c;
     toWorker := toWorker c; fromWorker := fromWorker c;
     speakOps := speakOps c; initTimeouts := initTimeouts c;
     voicesListeners := voicesListeners c; audios := audios c;
     now := now c; apiKey := apiKey c; geminiRequests := geminiRequests c;
     pendingFetches := pendingFetches c |}.
Definition upd_window (f : Window -> Window) (c : Core) : Core :=
  {| comp := comp c; refs := refs c; tts := tts c; ttsRefs := ttsRefs c;
     window := f (window c); worker := worker c; toWorker := toWorker c;
     fromWorker := fromWorker c; speakOps := speakOps c;
     initTimeouts := initTimeouts c; voicesListeners := voicesListeners c;
     audios := audios c; now := now c; apiKey := apiKey c;
     geminiRequests := geminiRequests c;
     pendingFetches := pendingFetches c |}.
Definition upd_worker (f : Worker.State -> Worker.State) (c : Core) : Core :=
  {| comp := comp c; refs := refs c; tts := tts c; ttsRefs := ttsRefs c;
     window := window c; worker := f (worker c); toWorker := toWorker c;
     fromWorker := fromWorker c; speakOps := speakOps c;
     initTimeouts := initTimeouts c; voicesListeners := voicesListeners c;
     audios := audios c; now := now c; apiKey := apiKey c;
     geminiRequests := geminiRequests c;
     pendingFetches := pendingFetches c |}.
Definition upd_toWorker (f : list Request -> list Request) (c : Core) : Core :=
  {| comp := comp c; refs := refs c; tts := tts c; ttsRefs := ttsRefs c;
     window := window c; worker := worker c; toWorker := f (toWorker c);
     fromWorker := fromWorker c; speakOps := speakOps c;
     initTimeouts := initTimeouts c; voicesListeners := voicesListeners c;
     audios := audios c; now := now c; apiKey := apiKey c;
     geminiRequests := geminiRequests c;
     pendingFetches := pendingFetches c |}.
Definition upd_fromWorker (f : list TTSMessage -> list TTSMessage) (c : Core) : Core :=
  {| comp := comp c; refs := refs c; tts := tts c; ttsRefs := ttsRefs c;
     window := window c; worker := worker c; toWorker := toWorker c;
     fromWorker := f (fromWorker c); speakOps := speakOps c;
     initTimeouts := initTimeouts c; voicesListeners := voicesListeners c;
     audios := audios c; now := now c; apiKey := apiKey c;
     geminiRequests := geminiRequests c;
     pendingFetches := pendingFetches c |}.
Definition upd_speakOps (f : list SpeakOp -> list SpeakOp) (c : Core) : Core :=
  {| comp := comp c; refs := refs c; tts := tts c; ttsRefs := ttsRefs c;
     window := window c; worker := worker c; toWorker := toWorker c;
     fromWorker := fromWorker c; speakOps := f (speakOps c);
     initTimeouts := initTimeouts c; voicesListeners := voicesListeners c;
     audios := audios c; now := now c; apiKey := apiKey c;
     geminiRequests := geminiRequests c;
     pendingFetches := pendingFetches c |}.
Definition upd_initTimeouts (f : list nat -> list nat) (c : Core) : Core :=
  {| comp := comp c; refs := refs c; tts := tts c; ttsRefs := ttsRefs c;
     window := window c; worker := worker c; toWorker := toWorker c;
     fromWorker := fromWorker c; speakOps := speakOps c;
     initTimeouts := f (initTimeouts c);
     voicesListeners := voicesListeners c; audios := audios c;
     now := now c; apiKey := apiKey c; geminiRequests := geminiRequests c;
     pendingFetches := pendingFetches c |}.
Definition upd_voicesListeners (f : nat -> nat) (c : Core) : Core :=
  {| comp := comp c; refs := refs c; tts := tts c; ttsRefs := ttsRefs c;
     window := window c; worker := worker c; toWorker := toWorker c;
     fromWorker := fromWorker c; speakOps := speakOps c;
     initTimeouts := initTimeouts c;
     voicesListeners := f (voicesListeners c); audios := audios c;
     now := now c; apiKey := apiKey c; geminiRequests := geminiRequests c;
     pendingFetches := pendingFetches c |}.
Definition upd_audios (f : nat -> nat) (c : Core) : Core :=
  {| comp := comp c; refs := refs c; tts := tts c; ttsRefs := ttsRefs c;
     window := window c; worker := worker c; toWorker := toWorker c;
     fromWorker := fromWorker c; speakOps := speakOps c;
     initTimeouts := initTimeouts c; voicesListeners := voicesListeners c;
     audios := f (audios c); now := now c; apiKey := apiKey c;
     geminiRequests := geminiRequests c;
     pendingFetches := pendingFetches c |}.
Definition upd_now (f : nat -> nat) (c : Core) : Core :=
  {| comp := comp c; refs := refs c; tts := tts c; ttsRefs := ttsRefs c;
     window := window c; worker := worker c; toWorker := toWorker c;
     fromWorker := fromWorker c; speakOps := speakOps c;
     initTimeouts := initTimeouts c; voicesListeners := voicesListeners c;
     audios := audios c; now := f (now c); apiKey := apiKey c;
     geminiRequests := geminiRequests c;
     pendingFetches := pendingFetches c |}.
Definition upd_apiKey (f : bool -> bool) (c : Core) : Core :=
  {| comp := comp c; refs := refs c; tts := tts c; ttsRefs := ttsRefs c;
     window := window c; worker := worker c; toWorker := toWorker c;
     fromWorker := fromWorker c; speakOps := speakOps c;
     initTimeouts := initTimeouts c; voicesListeners := voicesListeners c;
     audios := audios c; now := now c; apiKey := f (apiKey c);
     geminiRequests := geminiRequests c;
     pendingFetches := pendingFetches c |}.
Definition upd_geminiRequests (f : list jsstring -> list jsstring) (c : Core) : Core :=
  {| comp := comp c; refs := refs c; tts := tts c; ttsRefs := ttsRefs c;
     window := window c; worker := worker c; toWorker := toWorker c;
     fromWorker := fromWorker c; speakOps := speakOps c;
     initTimeouts := initTimeouts c; voicesListeners := voicesListeners c;
     audios := audios c; now := now c; apiKey := apiKey c;
     geminiRequests := f (geminiRequests c);
     pendingFetches := pendingFetches c |}.
Definition upd_pendingFetches (f : nat -> nat) (c : Core) : Core :=
  {| comp := comp c; refs := refs c; tts := tts c; ttsRefs := ttsRefs c;
     window := window c; worker := worker c; toWorker := toWorker c;
     fromWorker := fromWorker c; speakOps := speakOps c;
     initTimeouts := initTimeouts c; voicesListeners := voicesListeners c;
     audios := audios c; now := now c; apiKey := apiKey c;
     geminiRequests := geminiRequests c;
     pendingFetches := f (pendingFetches c) |}.

(** Field by field: [comp], [refs]: state and refs of the component;
    [tts], [ttsRefs]: state and refs of the hook; [window]: the properties
    of [window]; [worker]: the variables of the worker thread; [toWorker],
    [fromWorker]: the messages posted in each direction, oldest first;
    [speakOps]: the calls of [speakWithBrowser], in call order;
    [initTimeouts]: deadlines of the timeouts set by [initialize];
    [voicesListeners]: listeners added for [voiceschanged]; [audios]:
    [Audio] elements created for [AUDIO] messages; [now]: the clock, in
    milliseconds; [apiKey]: whether [NEXT_PUBLIC_GEMINI_API_KEY] is set;
    [geminiRequests]: the texts sent to the reasoning client, newest last;
    [pendingFetches]: requests to the reasoning client not yet settled. *)

Definition set_speechSynthesis (y : option SpeechSynthesis) (w : Window)
  : Window :=
  {| speechSynthesis := y; window_isTTSLocked := window_isTTSLocked w |}.

Definition set_window_isTTSLocked (o : option LockObject) (w : Window)
  : Window :=
  {| speechSynthesis := speechSynthesis w; window_isTTSLocked := o |}.

(** Apply [f] to the speech engine, when the browser has one. *)
Definition upd_synth (f : SpeechSynthesis -> SpeechSynthesis) (c : Core)
  : Core :=
  upd_window (fun w => set_speechSynthesis (f <$> speechSynthesis w) w) c.

(** [window.speechSynthesis.cancel()]: the queue is emptied, so no call
    has its utterance queued any more. *)
Definition cancelSpeech (c : Core) : Core :=
  upd_speakOps (map dequeued) (upd_synth cancel c).

(** [speechSynthesis.speaking || speechSynthesis.pending] *)
Definition speakingOrPending (y : SpeechSynthesis) : bool :=
  speaking y || pending y.

(** [getBrowserVoices().map(v => v.name)] *)
Definition getBrowserVoices (c : Core) : list jsstring :=
  match speechSynthesis (window c) with
  | Some y => voices y
  | None => []
  end.

(* ===================================================================== *)
(** ** The hook [useTTS], [hooks/useTTS.ts] *)
(* ===================================================================== *)

(** The release of the lock as [useTTS] writes it, in [speak]'s [finally]
    and in the final timeout of [speakWithBrowser]:
    [if (typeof window !== 'undefined' && (window as any).isTTSLocked)
       (window as any).isTTSLocked.current = false].
    It goes through the property [isTTSLocked] of [window]; when the
    property is undefined the guard fails and nothing is written. *)
Definition releaseLockViaWindow (c : Core) : Core :=
  match window_isTTSLocked (window c) with
  | None => c
  | Some ComponentRef => upd_refs (Comp.setIsTTSLocked false) c
  | Some (OtherObject _) =>
      upd_window (set_window_isTTSLocked (Some (OtherObject false))) c
  end.

(** [!err.message.includes('interrupted') &&
     !err.message.includes('canceled')] *)
Definition notInterruption (msg : jsstring) : bool :=
  negb (includes (js "interrupted") msg)
  && negb (includes (js "canceled") msg).

(** The handlers chained on the promise of [speakWithBrowser], run when it
    is rejected with an error of message [msg]. *)
Definition onRejected (o : Origin) (msg : jsstring) (c : Core) : Core :=
  match o with
  | FromSpeak =>
      let c := upd_tts (TTS.setIsSpeaking false) c in
      let c := if notInterruption msg
               then upd_tts (TTS.setError (Some (js "TTS error: " ++ msg))) c
               else c in
      releaseLockViaWindow c
  | FromSpeakRequest =>
      if notInterruption msg
      then upd_tts (TTS.setError (Some (js "Browser TTS error: " ++ msg))) c
      else c
  end.

(** The handlers run when the promise is resolved: [speak]'s [finally]. *)
Definition onResolved (o : Origin) (c : Core) : Core :=
  match o with
  | FromSpeak => releaseLockViaWindow c
  | FromSpeakRequest => c
  end.

(** [speakWithBrowser(text)] up to its first [await]: without speech
    synthesis the promise is rejected at once; otherwise whatever is
    speaking or pending is cancelled and the call is in flight. *)
Definition speakWithBrowser (o : Origin) (t : jsstring) (c : Core) : Core :=
  match speechSynthesis (window c) with
  | None => onRejected o (js "Speech synthesis not supported") c
  | Some y =>
      let c := if speakingOrPending y then cancelSpeech c else c in
      upd_speakOps (fun ops => ops ++ [newSpeakOp o t]) c
  end.

Definition postMessage (r : Request) (c : Core) : Core :=
  upd_toWorker (fun q => q ++ [r]) c.

(** [speak(text)], with the values [k] the callback closed over. *)
Definition speak (k : TTS.SpeakClosure) (t : jsstring) (c : Core) : Core :=
  if TTS.c_isSpeaking k then c
  else if negb (TTS.c_isInitialized k) then
    upd_tts (TTS.setError (Some (js "TTS not initialized"))) c
  else
    let c := upd_tts (TTS.setError None) c in
    if TTS.c_useFallback k then
      speakWithBrowser FromSpeak t (upd_tts (TTS.setIsSpeaking true) c)
    else
      postMessage {| type := SPEAK; text := Some t; voiceId := None |}
                  (upd_tts (TTS.setIsSpeaking true) c).

(** [stop()] *)
Definition stop (c : Core) : Core :=
  let c := match speechSynthesis (window c) with
           | Some y => if speakingOrPending y then cancelSpeech c else c
           | None => c
           end in
  let c := if TTS.speechSynthRef (ttsRefs c)
           then upd_ttsRefs (TTS.setSpeechSynthRef false) c else c in
  upd_tts (TTS.setError None) (upd_tts (TTS.setIsSpeaking false) c).

(** [initialize(voiceId)], with the [isInitialized] the function closed
    over.  The timeout it sets is never cleared; its body tests the same
    closed-over [isInitialized], which is [false] whenever the timeout was
    set, so the body always runs ([initTimeoutBody]). *)
Definition initialize (k_isInitialized : bool) (v : option jsstring)
    (c : Core) : Core :=
  if k_isInitialized then c
  else
    let c := upd_tts (TTS.setError None) (upd_tts (TTS.setIsLoading true) c) in
    let c := postMessage {| type := INIT; text := None; voiceId := v |} c in
    upd_initTimeouts (fun l => l ++ [now c + 2000]) c.

Definition initTimeoutBody (c : Core) : Core :=
  upd_tts (TTS.setIsLoading false)
    (upd_tts (TTS.setIsInitialized true)
       (upd_tts (TTS.setUseFallback true) c)).

(** [voices[0] || 'default'] *)
Definition firstVoiceOrDefault (vs : list jsstring) : jsstring :=
  match vs with
  | v :: _ => if truthy v then v else js "default"
  | [] => js "default"
  end.

(** [workerRef.current.onmessage]: the hook receives a message.  The
    function gives the state the handler leaves, whether it returns or ends
    by an exception; [readyThrows] below tells when the [READY] branch
    does. *)
Definition hook_onmessage (msg : TTSMessage) (c : Core) : Core :=
  match msg with
  | READY _ fb =>
      let c := upd_tts (TTS.setIsLoading false)
                 (upd_tts (TTS.setIsInitialized true) c) in
      if fb then
        let c := upd_tts (TTS.setUseFallback true) c in
        match getBrowserVoices c with
        | [] =>
            match speechSynthesis (window c) with
            | Some _ => upd_voicesListeners S c
            | None => c
            end
        | vs =>
            upd_tts (TTS.setCurrentVoiceId (Some (firstVoiceOrDefault vs)))
              (upd_tts (TTS.setAvailableVoices vs) c)
        end
      else c
  | SPEAK_REQUEST t _ fb =>
      if fb then speakWithBrowser FromSpeakRequest t c else c
  | VOICES_REQUEST fb =>
      if fb then upd_tts (TTS.setAvailableVoices (getBrowserVoices c)) c
      else c
  | STOP_REQUEST fb =>
      match speechSynthesis (window c) with
      | Some _ =>
          if fb then
            upd_tts (TTS.setIsSpeaking false)
              (cancelSpeech (upd_tts (TTS.setError None) c))
          else c
      | None => c
      end
  | STOPPED =>
      upd_tts (TTS.setError None) (upd_tts (TTS.setIsSpeaking false) c)
  | DOWNLOAD_PROGRESS p => upd_tts (TTS.setProgress (Some p)) c
  | AUDIO _ => upd_audios S (upd_tts (TTS.setIsSpeaking true) c)
  | ERROR m =>
      upd_tts (TTS.setIsSpeaking false) (upd_tts (TTS.setError (Some m)) c)
  | VOICES vs fb =>
      if fb then c else upd_tts (TTS.setAvailableVoices vs) c
  | VOICE_CHANGED v => upd_tts (TTS.setCurrentVoiceId (Some v)) c
  | REMOVED =>
      upd_tts (TTS.setIsInitialized false)
        (upd_tts (TTS.setCurrentVoiceId None) c)
  end.

(** The [READY] branch ends by an exception in one case: with the fallback
    flag set and no [speechSynthesis], [getBrowserVoices()] is empty and
    [window.speechSynthesis.addEventListener] is called on [undefined].
    The [TypeError] is thrown after the three state updates of the branch,
    which stand, and before any listener is added. *)
Definition readyThrows (msg : TTSMessage) (c : Core) : bool :=
  match msg, speechSynthesis (window c) with
  | READY _ true, None => true
  | _, _ => false
  end.

(** The listener added in the [READY] branch, run on [voiceschanged]. *)
Definition onVoicesChanged (c : Core) : Core :=
  let vs := getBrowserVoices c in
  upd_tts (TTS.setCurrentVoiceId (Some (firstVoiceOrDefault vs)))
    (upd_tts (TTS.setAvailableVoices vs) c).

(* --------------------------------------------------------------------- *)
(** *** The steps of a call of [speakWithBrowser]

    The waits of the source (voices, 50 ms, 100 ms, 200 ms) separate the
    steps below; [startTimeout] (1 s) and the final timeout (3 s) are the
    steps [opStartTimeout] and [opFinalTimeout].  A step is [None] when the
    call is not at the point where the step can happen. *)
(* --------------------------------------------------------------------- *)

Definition putOp (i : nat) (op : SpeakOp) (c : Core) : Core :=
  upd_speakOps (fun ops => <[i := op]> ops) c.

(** From the resume of a paused engine to [speechSynthesis.speak]: the
    utterance is stored in [speechSynthRef] and queued, or something in
    the [try] block throws an error of message [thrown]. *)
Definition opUtter (i : nat) (thrown : option jsstring) (c : Core)
  : option Core :=
  op ← speakOps c !! i;
  match phase op with
  | Preparing =>
      let c := upd_synth (fun y => if paused y then resume y else y) c in
      let c := upd_ttsRefs (TTS.setSpeechSynthRef true) c in
      match thrown with
      | None =>
          Some (putOp i (setOp (hasStarted op) (hasEnded op) Queued
                           (primer op) true (settled op) op)
                  (upd_synth enqueue c))
      | Some err =>
          Some (onRejected (origin op) err
                  (upd_tts (TTS.setIsSpeaking false)
                     (putOp i (setOp (hasStarted op) (hasEnded op) Finished
                                 (primer op) (inQueue op) true op) c)))
      end
  | _ => None
  end.

(** The engine begins to speak the utterance. *)
Definition beginSpeaking (y : SpeechSynthesis) : SpeechSynthesis :=
  {| speaking := true; pending := false; paused := paused y;
     voices := voices y |}.

(** [utterance.onstart] *)
Definition opOnStart (i : nat) (c : Core) : option Core :=
  op ← speakOps c !! i;
  if inQueue op && negb (hasStarted op) then
    let ph := match phase op with Queued => Finished | ph => ph end in
    Some (upd_ttsRefs TTS.markStarted
            (upd_tts (TTS.setIsSpeaking true)
               (putOp i (setOp true (hasEnded op) ph (primer op)
                           (inQueue op) (settled op) op)
                  (upd_synth beginSpeaking c))))
  else None.

(** The body of [startTimeout], one second after the utterance was
    queued. *)
Definition opStartTimeout (i : nat) (c : Core) : option Core :=
  op ← speakOps c !! i;
  match phase op with
  | Queued =>
      if negb (hasStarted op) && negb (hasEnded op) then
        Some (putOp i (setOp (hasStarted op) (hasEnded op) Retrying
                         PrimerScheduled false (settled op) op)
                (cancelSpeech c))
      else
        Some (putOp i (setOp (hasStarted op) (hasEnded op) Finished
                         (primer op) (inQueue op) (settled op) op) c)
  | _ => None
  end.

(** [forceSpeechStart()]: the primer is queued. *)
Definition opPrimerTimer (i : nat) (c : Core) : option Core :=
  op ← speakOps c !! i;
  match primer op with
  | PrimerScheduled =>
      Some (putOp i (setOp (hasStarted op) (hasEnded op) (phase op)
                       PrimerSpeaking (inQueue op) (settled op) op)
              (upd_synth enqueue c))
  | _ => None
  end.

(** [primer.onend]: the real utterance is queued again. *)
Definition opPrimerEnd (i : nat) (c : Core) : option Core :=
  op ← speakOps c !! i;
  match primer op with
  | PrimerSpeaking =>
      Some (putOp i (setOp (hasStarted op) (hasEnded op) (phase op)
                       PrimerDone true (settled op) op)
              (upd_synth enqueue
                 (upd_ttsRefs (TTS.setSpeechSynthRef true) c)))
  | _ => None
  end.

(** The body of the final timeout, three seconds after [startTimeout]
    fired: speech never started. *)
Definition opFinalTimeout (i : nat) (c : Core) : option Core :=
  op ← speakOps c !! i;
  match phase op with
  | Retrying =>
      if negb (hasStarted op) && negb (hasEnded op) then
        let c := putOp i (setOp (hasStarted op) true Finished (primer op)
                            (inQueue op) true op) c in
        let c := upd_tts (TTS.setIsSpeaking false) c in
        let c := releaseLockViaWindow c in
        Some (if settled op then c else onResolved (origin op) c)
      else
        Some (putOp i (setOp (hasStarted op) (hasEnded op) Finished
                         (primer op) (inQueue op) (settled op) op) c)
  | _ => None
  end.

(** The utterance has been spoken to its end.  [speakWithBrowser] sets no
    [onend] (and no [onerror]) on the utterance: only the engine changes. *)
Definition opUtteranceEnd (i : nat) (c : Core) : option Core :=
  op ← speakOps c !! i;
  if inQueue op && hasStarted op then
    Some (putOp i (dequeued op)
            (upd_synth (fun y => {| speaking := false; pending := pending y;
                                    paused := paused y; voices := voices y |})
               c))
  else None.

(** The three callbacks of an [Audio] element made for an [AUDIO]
    message. *)
Definition audioEnded (c : Core) : option Core :=
  match audios c with
  | S n => Some (upd_tts (TTS.setIsSpeaking false) (upd_audios pred c))
  | O => None
  end.

Definition audioError (c : Core) : option Core :=
  match audios c with
  | S n =>
      Some (upd_tts (TTS.setError (Some (js "Audio playback failed")))
              (upd_tts (TTS.setIsSpeaking false) (upd_audios pred c)))
  | O => None
  end.

Definition audioPlayRejected (msg : jsstring) (c : Core) : option Core :=
  match audios c with
  | S n =>
      Some (upd_tts (TTS.setError (Some (js "Audio play error: " ++ msg)))
              (upd_tts (TTS.setIsSpeaking false) (upd_audios pred c)))
  | O => None
  end.

(** The body of a timeout set by [initialize], once its two seconds have
    passed. *)
Definition initTimeoutFires (i : nat) (c : Core) : option Core :=
  dl ← initTimeouts c !! i;
  if dl <=? now c
  then Some (initTimeoutBody (upd_initTimeouts (delete i) c))
  else None.

(** The worker thread handles the oldest message posted to it. *)
Definition workerRuns (probe : Worker.ModelCheck) (c : Core) : option Core :=
  match toWorker c with
  | r :: q =>
      let '(w, out) := Worker.onmessage probe r (worker c) in
      Some (upd_fromWorker (fun l => l ++ out)
              (upd_worker (fun _ => w) (upd_toWorker (fun _ => q) c)))
  | [] => None
  end.

(** The hook handles the oldest message the worker posted. *)
Definition hookReceives (c : Core) : option Core :=
  match fromWorker c with
  | m :: q => Some (hook_onmessage m (upd_fromWorker (fun _ => q) c))
  | [] => None
  end.

(* ===================================================================== *)
(** ** The component, [src/components/WebSpeechRecognition.tsx] *)
(* ===================================================================== *)

(** A recognition result: [result[0].transcript] and [result.isFinal]
    ([maxAlternatives] is 1). *)
Record SpeechRecognitionResult := {
  transcript : jsstring;
  isFinal : bool
}.

Record SpeechRecognitionEvent := {
  resultIndex : nat;
  results : list SpeechRecognitionResult
}.

(** The [for] loop of [recognition.onresult] over the results left to
    visit, with the two accumulators [finalTranscript] and
    [interimTranscript]. *)
Fixpoint scanResults (rs : list SpeechRecognitionResult)
    (finalTranscript interimTranscript : jsstring) : jsstring * jsstring :=
  match rs with
  | [] => (finalTranscript, interimTranscript)
  | r :: rs' =>
      if isFinal r
      then scanResults rs' (finalTranscript ++ (transcript r ++ js " "))
                       interimTranscript
      else scanResults rs' finalTranscript
                       (interimTranscript ++ transcript r)
  end.

(** The loop runs from [event.resultIndex] to the end of
    [event.results]. *)
Definition splitResults (ev : SpeechRecognitionEvent) : jsstring * jsstring :=
  scanResults (drop (resultIndex ev) (results ev)) [] [].

(** The values [sendToGemini] closes over in a render of state [c]. *)
Definition geminiClosure (c : Core) : Comp.GeminiClosure :=
  {| Comp.g_transcription := Comp.transcription (comp c);
     Comp.g_isRecording := Comp.isRecording (comp c);
     Comp.g_ttsInitialized := TTS.isInitialized (tts c) |}.

(** The recognition handlers are installed by the mount effect (empty
    dependency list): the [sendToGemini] they call is the one of the first
    render, which closed over the initial state. *)
Definition mountClosure : Comp.GeminiClosure :=
  {| Comp.g_transcription := []; Comp.g_isRecording := false;
     Comp.g_ttsInitialized := false |}.

(** [sendToGemini()] up to its [await fetch(...)], with the values [k] the
    callback closed over.  When it reaches [fetch], the request is logged
    in [geminiRequests].  ([recognition.stop()] changes no state here: the
    engine reports the end of the stream by [onend].) *)
Definition sendToGemini (k : Comp.GeminiClosure) (c : Core) : Core :=
  if negb (apiKey c) then
    upd_comp (Comp.setError (js "Gemini API key not configured")) c
  else if negb (Comp.g_ttsInitialized k) then c
  else if negb (truthy (Comp.g_transcription k)) then
    upd_comp (Comp.setIsGenerating false)
      (upd_comp (Comp.setError (js "No transcription to send")) c)
  else
    let c := upd_comp (Comp.setGeneratedResponse [])
               (upd_comp (Comp.setIsGenerating true) c) in
    upd_pendingFetches S
      (upd_geminiRequests
         (fun l => l ++ [trim (Comp.g_transcription k)]) c).

(** The rest of [sendToGemini], once the request is settled: [inl t] when
    the reply carries the text [t] (possibly none, the empty string),
    [inr msg] when the request failed with message [msg]. *)
Definition geminiSettles (r : jsstring + jsstring) (c : Core) : option Core :=
  match pendingFetches c with
  | O => None
  | S _ =>
      let failed msg :=
        upd_comp (Comp.setError (js "Failed to generate response: " ++ msg)) in
      let c := upd_pendingFetches pred c in
      let c := match r with
               | inl t =>
                   if truthy t then upd_comp (Comp.setGeneratedResponse t) c
                   else failed (js "No generated text received from Gemini") c
               | inr msg => failed msg c
               end in
      Some (upd_comp (Comp.setIsGenerating false) c)
  end.

(** [recognition.onstart] *)
Definition onstart (c : Core) : Core :=
  upd_comp (Comp.setError []) (upd_comp (Comp.setIsRecording true) c).

(** [recognition.onresult] *)
Definition onresult (ev : SpeechRecognitionEvent) (c : Core) : Core :=
  let '(finalTranscript, interimTranscript) := splitResults ev in
  let c :=
    if truthy finalTranscript then
      let c := upd_comp (fun s => Comp.setTranscription
                           (Comp.transcription s ++ finalTranscript) s) c in
      let c := upd_refs (Comp.setIsTTSLocked false) c in
      sendToGemini mountClosure c
    else c in
  upd_comp (Comp.setInterimTranscript interimTranscript) c.

(** [recognition.onerror] *)
Definition onerror (code message : jsstring) (c : Core) : Core :=
  upd_comp (Comp.setIsRecording false)
    (upd_comp (Comp.setError
                 (js "Speech recognition error: " ++ code ++ js " - "
                  ++ message)) c).

(** [recognition.onend] *)
Definition onend (c : Core) : Core :=
  upd_comp (Comp.setInterimTranscript [])
    (upd_comp (Comp.setIsRecording false) c).

(** [startRecording()]; [thrown] is what [recognition.start()] throws, if
    it throws. *)
Definition startRecording (thrown : option jsstring) (c : Core) : Core :=
  if Comp.recognitionRef (refs c) && negb (Comp.isRecording (comp c)) then
    let c := upd_refs (Comp.setIsTTSLocked false) c in
    match thrown with
    | None => c
    | Some e =>
        upd_comp (Comp.setError (js "Failed to start recording: " ++ e)) c
    end
  else c.

(** [stopRecording()]: only [recognition.stop()] is called. *)
Definition stopRecording (c : Core) : Core := c.

(** [clearTranscription()] *)
Definition clearTranscription (c : Core) : Core :=
  stop (upd_comp (Comp.setError [])
          (upd_comp (Comp.setGeneratedResponse [])
             (upd_comp (Comp.setInterimTranscript [])
                (upd_comp (Comp.setTranscription []) c)))).

(** The body of the auto-speak timer, with the response and the [speak]
    callback the effect closed over. *)
Definition autoSpeakBody (response : jsstring) (k : TTS.SpeakClosure)
    (c : Core) : Core :=
  if 3 <=? Comp.autoSpeakAttempts (refs c) then
    upd_refs (Comp.setIsTTSLocked false)
      (upd_refs (Comp.setHasSpokenResponse true) c)
  else if Comp.isTTSLocked (refs c) then c
  else
    let c := upd_refs (fun r => Comp.setAutoSpeakAttempts
                         (S (Comp.autoSpeakAttempts r)) r) c in
    let c := upd_refs (Comp.setIsTTSLocked true) c in
    let c := upd_refs (Comp.setTtsActuallyStarted false) c in
    let c := upd_refs (Comp.setHasSpokenResponse true) c in
    speak k response c.

(** The body of the timer of the clear-response effect. *)
Definition clearBody (c : Core) : Core :=
  upd_refs (Comp.setTtsActuallyStarted false)
    (upd_refs (Comp.setHasSpokenResponse false)
       (upd_comp (Comp.setGeneratedResponse []) c)).

(** The body of the effect on [isGenerating]. *)
Definition resetSpoken (c : Core) : Core :=
  if Comp.isGenerating (comp c) then
    upd_refs (Comp.setAutoSpeakAttempts 0)
      (upd_refs (Comp.setHasSpokenResponse false) c)
  else c.

(** The copy of the component kept in [eslint.config.mjs] differs in
    [startRecording]. *)
Module Variant.

Definition startRecording (thrown : option jsstring) (c : Core) : Core :=
  if Comp.recognitionRef (refs c) && negb (Comp.isRecording (comp c)) then
    let c := upd_comp (Comp.setTranscription []) c in
    let c := upd_comp (Comp.setInterimTranscript []) c in
    let c := upd_comp (Comp.setError []) c in
    let c := upd_comp (Comp.setIsGenerating false) c in
    match thrown with
    | None => c
    | Some e =>
        upd_comp (Comp.setError (js "Failed to start recording: " ++ e)) c
    end
  else c.

End Variant.

(* --------------------------------------------------------------------- *)
(** *** The conditions and dependency lists of the effects *)
(* --------------------------------------------------------------------- *)

(** [s.trim().length > 0] *)
Definition nonBlank (s : jsstring) : bool := 0 <? length (trim s).

(** Debounce effect: [isRecording && transcription.trim().length > 0 &&
    !isGenerating && !generatedResponse]. *)
Definition debounceReady (c : Core) : bool :=
  Comp.isRecording (comp c) && nonBlank (Comp.transcription (comp c))
  && negb (Comp.isGenerating (comp c))
  && negb (truthy (Comp.generatedResponse (comp c))).

(** [[transcription, isRecording, isGenerating, generatedResponse,
    sendToGemini]]; the callback changes when what it closes over does. *)
Definition debounceDeps (c : Core) :=
  (Comp.transcription (comp c), Comp.isRecording (comp c),
   Comp.isGenerating (comp c), Comp.generatedResponse (comp c),
   geminiClosure c).

(** Auto-speak effect: [generatedResponse && ttsInitialized && !isSpeaking
    && generatedResponse.trim().length > 0 && !hasSpokenResponse.current]. *)
Definition autoSpeakReady (c : Core) : bool :=
  truthy (Comp.generatedResponse (comp c))
  && TTS.isInitialized (tts c)
  && negb (TTS.isSpeaking (tts c))
  && nonBlank (Comp.generatedResponse (comp c))
  && negb (Comp.hasSpokenResponse (refs c)).

(** [[generatedResponse, ttsInitialized, isSpeaking, speak]] *)
Definition autoSpeakDeps (c : Core) :=
  (Comp.generatedResponse (comp c), TTS.isInitialized (tts c),
   TTS.isSpeaking (tts c), TTS.closure (tts c)).

(** Clear-response effect: [!isSpeaking && generatedResponse &&
    generatedResponse.trim().length > 0 && hasSpokenResponse.current &&
    ttsActuallyStarted.current]. *)
Definition clearReady (c : Core) : bool :=
  negb (TTS.isSpeaking (tts c))
  && truthy (Comp.generatedResponse (comp c))
  && nonBlank (Comp.generatedResponse (comp c))
  && Comp.hasSpokenResponse (refs c)
  && Comp.ttsActuallyStarted (refs c).

(** [[isSpeaking, generatedResponse]] *)
Definition clearDeps (c : Core) :=
  (TTS.isSpeaking (tts c), Comp.generatedResponse (comp c)).

#[global] Instance ProgressInfo_eq_dec : EqDecision ProgressInfo.
Proof. solve_decision. Defined.
#[global] Instance TTS_State_eq_dec : EqDecision TTS.State.
Proof. solve_decision. Defined.
#[global] Instance SpeakClosure_eq_dec : EqDecision TTS.SpeakClosure.
Proof. solve_decision. Defined.
#[global] Instance Comp_State_eq_dec : EqDecision Comp.State.
Proof. solve_decision. Defined.
#[global] Instance GeminiClosure_eq_dec : EqDecision Comp.GeminiClosure.
Proof. solve_decision. Defined.

(* ===================================================================== *)
(** ** Renders, effects and timers *)
(* ===================================================================== *)

(** The system: the state the handlers work on, the timers set by the
    effects of the component, each with its deadline and with what its
    callback closed over, and, for the statement of the debounce property,
    the time of the last change of the transcript. *)
Record Sys := {
  core : Core;
  initTimer : option (nat * bool);
  debounceTimer : option (nat * Comp.GeminiClosure);
  speakTimer : option (nat * (jsstring * TTS.SpeakClosure));
  clearTimer : option nat;
  transcriptChangedAt : nat
}.

(** An effect whose dependencies changed runs again: its cleanup clears
    the timer of the previous run, and its body sets a new one when its
    condition holds.  Otherwise the timer is left as it is. *)
Definition rearm {A} (changed ready : bool) (fresh : A) (old : option A)
  : option A :=
  if changed then (if ready then Some fresh else None) else old.

(** The effect that starts the initialization has the function
    [initTTS] among its dependencies, which is a new function in every
    render: the effect runs after every render. *)
Definition initEffect (c : Core) : option (nat * bool) :=
  if TTS.isInitialized (tts c) || TTS.isLoading (tts c) then None
  else Some (now c + 1000, TTS.isInitialized (tts c)).

(** A handler has run on the state of [old] and left [c]: React renders
    the component and runs the effects, in the order of the source: the
    initialization effect, the debounce effect, the auto-speak effect, the
    clear-response effect, and the effect on [isGenerating], which is the
    only one to write (refs) when it runs.  The initialization effect runs
    after every render; here it runs when the state of the component or of
    the hook has changed.  A render that something else causes (the debug
    messages, which are state of the component too) is the event
    [Rerender], which can happen at any time and sets the timer of the
    initialization anew. *)
Definition commit (old : Sys) (c : Core) : Sys :=
  let c0 := core old in
  {| core :=
       if bool_decide (Comp.isGenerating (comp c0) = Comp.isGenerating (comp c))
       then c else resetSpoken c;
     initTimer :=
       if bool_decide (comp c0 = comp c /\ tts c0 = tts c)
       then initTimer old else initEffect c;
     debounceTimer :=
       rearm (negb (bool_decide (debounceDeps c0 = debounceDeps c)))
             (debounceReady c) (now c + 2000, geminiClosure c)
             (debounceTimer old);
     speakTimer :=
       rearm (negb (bool_decide (autoSpeakDeps c0 = autoSpeakDeps c)))
             (autoSpeakReady c)
             (now c + 300,
              (Comp.generatedResponse (comp c), TTS.closure (tts c)))
             (speakTimer old);
     clearTimer :=
       rearm (negb (bool_decide (clearDeps c0 = clearDeps c)))
             (clearReady c) (now c + 1000) (clearTimer old);
     transcriptChangedAt :=
       if bool_decide (Comp.transcription (comp c0)
                       = Comp.transcription (comp c))
       then transcriptChangedAt old else now c |}.

(** The page is loaded: the first render and its effects.  [supported]
    says whether the browser has speech recognition, [key] whether the API
    key is configured, [y] is the speech engine of the browser if it has
    one.  Nothing in the repository assigns a property [isTTSLocked] of
    [window]: it is undefined. *)
Definition mount (supported key : bool) (y : option SpeechSynthesis) : Sys :=
  {| core :=
       {| comp :=
            if supported then Comp.setIsSupported true Comp.initial
            else Comp.setError
                   (js "Web Speech API is not supported in this browser")
                   Comp.initial;
          refs := Comp.setRecognitionRef supported Comp.initialRefs;
          tts := TTS.initial;
          ttsRefs := TTS.initialRefs;
          window := {| speechSynthesis := y; window_isTTSLocked := None |};
          worker := Worker.initial;
          toWorker := [];
          fromWorker := [];
          speakOps := [];
          initTimeouts := [];
          voicesListeners := 0;
          audios := 0;
          now := 0;
          apiKey := key;
          geminiRequests := [];
          pendingFetches := 0 |};
     initTimer := Some (1000, false);
     debounceTimer := None;
     speakTimer := None;
     clearTimer := None;
     transcriptChangedAt := 0 |}.

(* ===================================================================== *)
(** ** Events and steps *)
(* ===================================================================== *)

(** What can happen: time passes, the user clicks, the recognition engine
    reports, a timer fires, the reasoning client answers, the worker or
    the hook handles a message, the speech engine or a timer of
    [speakWithBrowser] moves a call on. *)
Inductive Event :=
| Tick (d : nat)
| Rerender
| ClickStartRecording (thrown : option jsstring)
| ClickStopRecording
| ClickClear
| ClickStopSpeaking
| RecognitionStart
| RecognitionResult (ev : SpeechRecognitionEvent)
| RecognitionError (code message : jsstring)
| RecognitionEnd
| InitTimerFires
| DebounceTimerFires
| AutoSpeakTimerFires
| ClearTimerFires
| InitTimeoutFires (i : nat)
| GeminiSettles (r : jsstring + jsstring)
| WorkerRuns (probe : Worker.ModelCheck)
| HookReceives
| OpUtter (i : nat) (thrown : option jsstring)
| OpOnStart (i : nat)
| OpStartTimeout (i : nat)
| OpPrimerTimer (i : nat)
| OpPrimerEnd (i : nat)
| OpFinalTimeout (i : nat)
| OpUtteranceEnd (i : nat)
| AudioEnded
| AudioError
| AudioPlayRejected (message : jsstring)
| VoicesChanged (vs : list jsstring).

(** The engine has new voices; the listeners added by the [READY] branch
    run. *)
Definition voicesChanged (vs : list jsstring) (c : Core) : option Core :=
  match speechSynthesis (window c) with
  | Some _ =>
      let c := upd_synth (fun y => {| speaking := speaking y;
                                      pending := pending y;
                                      paused := paused y; voices := vs |}) c in
      Some (match voicesListeners c with
            | O => c
            | S _ => onVoicesChanged c
            end)
  | None => None
  end.

(** The handler of an event that is not a timer of an effect.  The clicks
    are handled in whatever state they come: the guards of the handlers
    decide. *)
Definition handle (e : Event) (c : Core) : option Core :=
  match e with
  | ClickStartRecording thrown => Some (startRecording thrown c)
  | ClickStopRecording => Some (stopRecording c)
  | ClickClear => Some (clearTranscription c)
  | ClickStopSpeaking => Some (stop c)
  | RecognitionStart => Some (onstart c)
  | RecognitionResult ev => Some (onresult ev c)
  | RecognitionError code message => Some (onerror code message c)
  | RecognitionEnd => Some (onend c)
  | InitTimeoutFires i => initTimeoutFires i c
  | GeminiSettles r => geminiSettles r c
  | WorkerRuns probe => workerRuns probe c
  | HookReceives => hookReceives c
  | OpUtter i thrown => opUtter i thrown c
  | OpOnStart i => opOnStart i c
  | OpStartTimeout i => opStartTimeout i c
  | OpPrimerTimer i => opPrimerTimer i c
  | OpPrimerEnd i => opPrimerEnd i c
  | OpFinalTimeout i => opFinalTimeout i c
  | OpUtteranceEnd i => opUtteranceEnd i c
  | AudioEnded => audioEnded c
  | AudioError => audioError c
  | AudioPlayRejected message => audioPlayRejected message c
  | VoicesChanged vs => voicesChanged vs c
  | Tick _ | Rerender | InitTimerFires | DebounceTimerFires
  | AutoSpeakTimerFires | ClearTimerFires => None
  end.

Definition set_core (c : Core) (s : Sys) : Sys :=
  {| core := c; initTimer := initTimer s; debounceTimer := debounceTimer s;
     speakTimer := speakTimer s; clearTimer := clearTimer s;
     transcriptChangedAt := transcriptChangedAt s |}.
Definition set_initTimer (t : option (nat * bool)) (s : Sys) : Sys :=
  {| core := core s; initTimer := t; debounceTimer := debounceTimer s;
     speakTimer := speakTimer s; clearTimer := clearTimer s;
     transcriptChangedAt := transcriptChangedAt s |}.
Definition set_debounceTimer (t : option (nat * Comp.GeminiClosure))
    (s : Sys) : Sys :=
  {| core := core s; initTimer := initTimer s; debounceTimer := t;
     speakTimer := speakTimer s; clearTimer := clearTimer s;
     transcriptChangedAt := transcriptChangedAt s |}.
Definition set_speakTimer
    (t : option (nat * (jsstring * TTS.SpeakClosure))) (s : Sys) : Sys :=
  {| core := core s; initTimer := initTimer s;
     debounceTimer := debounceTimer s; speakTimer := t;
     clearTimer := clearTimer s;
     transcriptChangedAt := transcriptChangedAt s |}.
Definition set_clearTimer (t : option nat) (s : Sys) : Sys :=
  {| core := core s; initTimer := initTimer s;
     debounceTimer := debounceTimer s; speakTimer := speakTimer s;
     clearTimer := t; transcriptChangedAt := transcriptChangedAt s |}.

(** The voice the component initializes the hook with. *)
Definition lessac : jsstring := js "en_US-lessac-medium".

(** One step of the system.  A timer fires no earlier than its deadline;
    it is gone when its callback runs.  After a handler, the component is
    rendered and its effects run ([commit]). *)
Definition step (e : Event) (s : Sys) : option Sys :=
  match e with
  | Tick d => Some (set_core (upd_now (fun n => n + d) (core s)) s)
  | Rerender => Some (set_initTimer (initEffect (core s)) s)
  | InitTimerFires =>
      '(dl, k) ← initTimer s;
      if dl <=? now (core s)
      then Some (commit (set_initTimer None s)
                   (initialize k (Some lessac) (core s)))
      else None
  | DebounceTimerFires =>
      '(dl, k) ← debounceTimer s;
      if dl <=? now (core s)
      then Some (commit (set_debounceTimer None s)
                   (sendToGemini k (core s)))
      else None
  | AutoSpeakTimerFires =>
      '(dl, (response, k)) ← speakTimer s;
      if dl <=? now (core s)
      then Some (commit (set_speakTimer None s)
                   (autoSpeakBody response k (core s)))
      else None
  | ClearTimerFires =>
      dl ← clearTimer s;
      if dl <=? now (core s)
      then Some (commit (set_clearTimer None s) (clearBody (core s)))
      else None
  | _ => commit s <$> handle e (core s)
  end.

(** The states the system can be in: those a sequence of steps leads to
    from a page load. *)
Inductive reachable : Sys -> Prop :=
| reachable_mount supported key y : reachable (mount supported key y)
| reachable_step s e s' :
    reachable s -> step e s = Some s' -> reachable s'.

(** Running a list of events in order. *)
Fixpoint run (es : list Event) (s : Sys) : option Sys :=
  match es with
  | [] => Some s
  | e :: es' => s' ← step e s; run es' s'
  end.

(** The steps once more, as a relation: one constructor for each kind of
    step of [step]. *)
Inductive Step (s : Sys) : Event -> Sys -> Prop :=
| Step_tick d :
    Step s (Tick d) (set_core (upd_now (fun n => n + d) (core s)) s)
| Step_rerender :
    Step s Rerender (set_initTimer (initEffect (core s)) s)
| Step_init dl k :
    initTimer s = Some (dl, k) -> dl <= now (core s) ->
    Step s InitTimerFires
         (commit (set_initTimer None s) (initialize k (Some lessac) (core s)))
| Step_debounce dl k :
    debounceTimer s = Some (dl, k) -> dl <= now (core s) ->
    Step s DebounceTimerFires
         (commit (set_debounceTimer None s) (sendToGemini k (core s)))
| Step_speak dl r k :
    speakTimer s = Some (dl, (r, k)) -> dl <= now (core s) ->
    Step s AutoSpeakTimerFires
         (commit (set_speakTimer None s) (autoSpeakBody r k (core s)))
| Step_clear dl :
    clearTimer s = Some dl -> dl <= now (core s) ->
    Step s ClearTimerFires
         (commit (set_clearTimer None s) (clearBody (core s)))
| Step_handle e c' :
    handle e (core s) = Some c' -> Step s e (commit s c').

(* ===================================================================== *)
(** ** Notions used in the statements *)
(* ===================================================================== *)

(** The transcripts of the final results an event delivers, in order, and
    those of its results that are not final. *)
Definition finalSegments (ev : SpeechRecognitionEvent) : list jsstring :=
  map transcript
      (List.filter isFinal (drop (resultIndex ev) (results ev))).

Definition interimSegments (ev : SpeechRecognitionEvent) : list jsstring :=
  map transcript
      (List.filter (fun r => negb (isFinal r))
                   (drop (resultIndex ev) (results ev))).

(** A segment followed by one space. *)
Definition withSeparator (seg : jsstring) : jsstring := seg ++ js " ".

(** The recognition handlers applied to a sequence of result events. *)
Definition onresults (evs : list SpeechRecognitionEvent) (c : Core) : Core :=
  foldl (fun c ev => onresult ev c) c evs.

(** Whether a call of [sendToGemini] gets as far as [fetch]. *)
Definition reachesFetch (k : Comp.GeminiClosure) (c : Core) : bool :=
  apiKey c && Comp.g_ttsInitialized k && truthy (Comp.g_transcription k).

(** [isGenerating] is [true] exactly while a request to the reasoning
    client is in flight, and there is at most one. *)
Definition genOK (c : Core) : Prop :=
  pendingFetches c = if Comp.isGenerating (comp c) then 1 else 0.

(** Nothing is speaking and nothing is pending: the hook does not think it
    is speaking, and the engine neither speaks nor has an utterance
    queued. *)
Definition nothingSpeaking (c : Core) : Prop :=
  TTS.isSpeaking (tts c) = false
  /\ forall y, speechSynthesis (window c) = Some y ->
               speakingOrPending y = false.

(** What [stop] does in such a state. *)
Definition stopWhenIdle (c : Core) : Core :=
  upd_tts (TTS.setError None)
    (upd_tts (TTS.setIsSpeaking false)
       (upd_ttsRefs (TTS.setSpeechSynthRef false) c)).

(** What holds in every state the system can be in. *)
Record Inv (s : Sys) : Prop := {
  inv_attempts : Comp.autoSpeakAttempts (refs (core s)) <= 3;
  inv_window : window_isTTSLocked (window (core s)) = None;
  inv_flag : Comp.ttsActuallyStarted (refs (core s)) = false;
  inv_clock : transcriptChangedAt s <= now (core s);
  inv_gen : genOK (core s);
  inv_debounce : forall dl k,
    debounceTimer s = Some (dl, k) ->
    k = geminiClosure (core s) /\ debounceReady (core s) = true
    /\ transcriptChangedAt s + 2000 <= dl;
  inv_speak : forall dl r k,
    speakTimer s = Some (dl, (r, k)) ->
    k = TTS.closure (tts (core s))
    /\ r = Comp.generatedResponse (comp (core s));
  inv_init : forall dl k, initTimer s = Some (dl, k) -> k = false;
  inv_clear : clearTimer s = None
}.

(* --------------------------------------------------------------------- *)
(** *** A conversation, event by event *)
(* --------------------------------------------------------------------- *)

(** The state after the events [es], or [s] itself if one of them cannot
    happen. *)
Definition after (es : list Event) (s : Sys) : Sys := default s (run es s).

Definition idleSynth : SpeechSynthesis :=
  {| speaking := false; pending := false; paused := false;
     voices := [js "Google US English"] |}.

Definition interimResult (t : string) : SpeechRecognitionEvent :=
  {| resultIndex := 0;
     results := [{| transcript := js t; isFinal := false |}] |}.

Definition finalResult (t : string) : SpeechRecognitionEvent :=
  {| resultIndex := 0;
     results := [{| transcript := js t; isFinal := true |}] |}.

(** The page loads in a browser with speech synthesis; after a second the
    component initializes the hook, the worker answers [READY] and
    [VOICES]. *)
Definition startup : list Event :=
  [Tick 1000; InitTimerFires; WorkerRuns Worker.ModelMissing;
   HookReceives; HookReceives].

(** The user starts recording and says something; two seconds pass. *)
Definition listening : list Event :=
  [ClickStartRecording None; RecognitionStart;
   RecognitionResult (interimResult "Hel");
   RecognitionResult (interimResult "Hello");
   RecognitionResult (finalResult "Hello there");
   Tick 2000].

(** The debounce timer fires, the stream ends, the reasoning client
    answers, and the delay before auto-speak passes. *)
Definition answering : list Event :=
  [DebounceTimerFires; RecognitionEnd; GeminiSettles (inl (js "Hi"));
   Tick 300].

(** Auto-speak fires, but the utterance never starts: [startTimeout]
    fires, the primer is tried, the final timeout fires. *)
Definition speechNeverStarts : list Event :=
  [AutoSpeakTimerFires; OpUtter 0 None; Tick 1000; OpStartTimeout 0;
   OpPrimerTimer 0; OpPrimerEnd 0; Tick 3000; OpFinalTimeout 0].

Definition pageLoaded : Sys := mount true true (Some idleSynth).
Definition sListened : Sys := after (startup ++ listening) pageLoaded.
Definition sAnswered : Sys := after answering sListened.
Definition sSpeechFailed : Sys := after speechNeverStarts sAnswered.

(** The page is loaded, the component calls [initialize], and the worker
    does not answer within two seconds. *)
Definition workerSilent : list Event := [Tick 1000; InitTimerFires; Tick 2000].
Definition sInitPending : Sys := after workerSilent pageLoaded.

(** The same conversation in a browser without speech synthesis: the
    promise of [speakWithBrowser] is rejected at once. *)
Definition pageLoadedMute : Sys := mount true true None.
Definition sMuteFailed : Sys :=
  after (startup ++ listening ++ answering ++ [AutoSpeakTimerFires])
        pageLoadedMute.

(** Auto-speak fires and the response is spoken aloud, to its end:
    [utterance.onstart] runs, then the engine falls silent. *)
Definition speechHeard : list Event :=
  [AutoSpeakTimerFires; OpUtter 0 None; OpOnStart 0; OpUtteranceEnd 0].

(** Then the hook is told to stop, and five seconds pass. *)
Definition stoppedAndWaited : list Event := [ClickStopSpeaking; Tick 5000].

Definition sHeard : Sys := after speechHeard sAnswered.
Definition sStopped : Sys := after stoppedAndWaited sHeard.

(** A state at the limit of the circuit breaker: the answered
    conversation with three attempts counted and the lock held. *)
Definition cAtLimit : Core :=
  upd_refs (Comp.setIsTTSLocked true)
    (upd_refs (Comp.setAutoSpeakAttempts 3) (core sAnswered)).

(** The answered conversation a moment earlier: the state the firing of
    the debounce timer leads to. *)
Definition sGenerating : Sys := after [DebounceTimerFires] sListened.

(* --------------------------------------------------------------------- *)
(** *** Messages for a worker that is ready *)
(* --------------------------------------------------------------------- *)

Definition readyWorker : Worker.State :=
  {| Worker.isReady := true; Worker.availableVoices := [Worker.browserVoice];
     Worker.useFallback := true |}.

Definition speakHello : Request :=
  {| type := SPEAK; text := Some (js "  hello "); voiceId := None |}.

Definition speakBlank : Request :=
  {| type := SPEAK; text := Some (js "   "); voiceId := None |}.

(* ===================================================================== *)
(** ** A session of the worker *)
(* ===================================================================== *)

(** The worker handles the messages posted to it one after the other,
    each to its end before the next one arrives and with the outcome of its
    own model check; its replies are collected in order.  That is every
    session without an [INIT], the one branch that awaits; [workerTurns]
    below has the sessions in which messages arrive while an [INIT] waits
    for its request. *)
Fixpoint workerSession (ms : list (Worker.ModelCheck * Request))
    (w : Worker.State) : Worker.State * list TTSMessage :=
  match ms with
  | [] => (w, [])
  | (probe, r) :: ms' =>
      let '(w1, out1) := Worker.onmessage probe r w in
      let '(w2, out2) := workerSession ms' w1 in
      (w2, out1 ++ out2)
  end.

Definition isINIT (m : Worker.ModelCheck * Request) : bool :=
  match type (snd m) with INIT => true | _ => false end.

(** What the worker answers to a message while it is not ready. *)
Definition replyBeforeInit (m : Worker.ModelCheck * Request)
  : list TTSMessage :=
  match type (snd m) with
  | INIT => [READY (Some Worker.browserVoice) true;
             VOICES [Worker.browserVoice] true]
  | SPEAK => [ERROR (js "Worker not ready for SPEAK")]
  | GET_VOICES => [VOICES [] false]
  | STOP => [STOP_REQUEST true]
  | CHANGE_VOICE => []
  end.

(** The number of replies a message gets, whatever the state. *)
Definition replyCount (m : Worker.ModelCheck * Request) : nat :=
  match type (snd m) with
  | INIT => 2
  | SPEAK | GET_VOICES | STOP => 1
  | CHANGE_VOICE => 0
  end.

(** White space only. *)
Definition blank (s : jsstring) : bool := forallb isWhiteSpace s.

(* --------------------------------------------------------------------- *)
(** *** The worker and the event loop

    [self.onmessage] is an [async] function.  A message other than [INIT]
    is handled to its end at once: no branch but [INIT] awaits.  The
    handler of an [INIT] runs up to [await fetch(...)] and stops there,
    having changed nothing; the rest of it runs when the request is
    settled, on the state the worker has then.  Messages that arrive in
    between are handled first. *)
(* --------------------------------------------------------------------- *)

Inductive WorkerEvent :=
| Posted (r : Request)
| FetchSettled (i : nat) (probe : Worker.ModelCheck).

(** The variables of the worker, and the [INIT] messages whose handler
    waits for its request, oldest first. *)
Record Async := {
  vars : Worker.State;
  waiting : list Request
}.

Definition asyncInitial : Async :=
  {| vars := Worker.initial; waiting := [] |}.

(** One turn of the event loop of the worker, with the messages it posts.
    [FetchSettled i probe]: the request of the [i]-th waiting handler is
    settled, with outcome [probe].  (In a branch other than [INIT] the
    model check plays no part.) *)
Definition workerTurn (e : WorkerEvent) (a : Async)
  : option (Async * list TTSMessage) :=
  match e with
  | Posted r =>
      match type r with
      | INIT => Some ({| vars := vars a; waiting := waiting a ++ [r] |}, [])
      | _ =>
          let '(w, out) := Worker.onmessage Worker.ModelMissing r (vars a) in
          Some ({| vars := w; waiting := waiting a |}, out)
      end
  | FetchSettled i probe =>
      r ← waiting a !! i;
      let '(w, out) := Worker.onmessage probe r (vars a) in
      Some ({| vars := w; waiting := delete i (waiting a) |}, out)
  end.

(** Turns in order, with all the messages posted. *)
Fixpoint workerTurns (es : list WorkerEvent) (a : Async)
  : option (Async * list TTSMessage) :=
  match es with
  | [] => Some (a, [])
  | e :: es' =>
      '(a1, out1) ← workerTurn e a;
      '(a2, out2) ← workerTurns es' a1;
      Some (a2, out1 ++ out2)
  end.

Definition isSettled (e : WorkerEvent) : bool :=
  match e with FetchSettled _ _ => true | Posted _ => false end.

Definition isPostedINIT (e : WorkerEvent) : bool :=
  match e with
  | Posted r => match type r with INIT => true | _ => false end
  | FetchSettled _ _ => false
  end.

(** The number of messages the worker posts in a turn, whatever its
    state. *)
Definition turnReplies (e : WorkerEvent) : nat :=
  match e with
  | Posted r =>
      match type r with
      | SPEAK | GET_VOICES | STOP => 1
      | INIT | CHANGE_VOICE => 0
      end
  | FetchSettled _ _ => 2
  end.

(** Every handler waiting in [a] is the handler of an [INIT]. *)
Definition waitingINIT (a : Async) : Prop :=
  Forall (fun r => type r = INIT) (waiting a).

(** A [SPEAK] arrives while the [INIT] before it still waits for its
    request. *)
Definition speakDuringInit : list WorkerEvent :=
  [Posted {| type := INIT; text := None; voiceId := Some lessac |};
   Posted speakHello;
   FetchSettled 0 Worker.ModelMissing].

(** The turns of a session in which the request of every [INIT] is settled
    before the next message arrives. *)
Definition oneByOne (ms : list (Worker.ModelCheck * Request))
  : list WorkerEvent :=
  flat_map (fun m => if isINIT m then [Posted (snd m); FetchSettled 0 (fst m)]
                     else [Posted (snd m)]) ms.

(* ===================================================================== *)
(** ** The voice functions of the hook *)
(* ===================================================================== *)

(** [voices.includes(v)] on an array of strings. *)
Definition arrayIncludes (v : jsstring) (l : list jsstring) : bool :=
  existsb (fun x => bool_decide (x = v)) l.

(** [getVoices()] *)
Definition getVoices (c : Core) : Core :=
  if TTS.useFallback (tts c) then
    upd_tts (TTS.setAvailableVoices (getBrowserVoices c)) c
  else
    postMessage {| type := GET_VOICES; text := None; voiceId := None |} c.

(** [changeVoice(voiceId)].  The message it posts carries the voice in a
    field [newVoiceId], which the worker does not read. *)
Definition changeVoice (v : jsstring) (c : Core) : Core :=
  if negb (arrayIncludes v (TTS.availableVoices (tts c))) then
    upd_tts (TTS.setError (Some (js "Voice " ++ v ++ js " not available"))) c
  else
    let c := upd_tts (TTS.setCurrentVoiceId (Some v))
               (upd_tts (TTS.setError None) c) in
    if negb (TTS.useFallback (tts c)) then
      postMessage {| type := CHANGE_VOICE; text := None; voiceId := None |}
                  (upd_tts (TTS.setIsInitialized false) c)
    else c.

(** Time passes: [d] milliseconds. *)
Definition tick (d : nat) (c : Core) : Core := upd_now (fun n => n + d) c.

Definition earlyMessages : list (Worker.ModelCheck * Request) :=
  [(Worker.ModelMissing, speakHello);
   (Worker.ModelMissing,
    {| type := GET_VOICES; text := None; voiceId := None |});
   (Worker.ModelMissing, {| type := STOP; text := None; voiceId := None |})].

(** The prefix an error message gets in the error slot of the hook. *)
Definition errorPrefix (o : Origin) : jsstring :=
  match o with
  | FromSpeak => js "TTS error: "
  | FromSpeakRequest => js "Browser TTS error: "
  end.

Definition interruptedMessage : jsstring :=
  js "speech was interrupted by the user".

Definition speakingClosure : TTS.SpeakClosure :=
  {| TTS.c_isInitialized := true; TTS.c_useFallback := true;
     TTS.c_isSpeaking := true |}.

Definition idleClosure : TTS.SpeakClosure :=
  {| TTS.c_isInitialized := true; TTS.c_useFallback := true;
     TTS.c_isSpeaking := false |}.

Definition sQueued : Sys :=
  after [AutoSpeakTimerFires; OpUtter 0 None] sAnswered.

(** A hook in worker mode that knows the voice 'lessac'. *)
Definition cWorkerMode : Core :=
  upd_tts (TTS.setAvailableVoices [lessac])
    (upd_tts (TTS.setIsInitialized true) (core pageLoaded)).

Definition silentSynth : SpeechSynthesis :=
  {| speaking := false; pending := false; paused := false; voices := [] |}.

Definition cNoVoicesYet : Core := core (mount true true (Some silentSynth)).

(** The startup, for any outcome [probe] of the model check. *)
Definition startupWith (probe : Worker.ModelCheck) : list Event :=
  [Tick 1000; InitTimerFires; WorkerRuns probe; HookReceives; HookReceives].

(* ===================================================================== *)
(** ** More notions used in the statements *)
(* ===================================================================== *)

(** More of what holds in every state the system can be in: auto-speak
    has been attempted at most once since the last generation began; an
    auto-speak timer is pending only while its condition holds; and while a
    generation is in flight there is no response and nothing is marked as
    spoken. *)
Record Inv2 (s : Sys) : Prop := {
  inv2_attempts : Comp.autoSpeakAttempts (refs (core s)) <= 1;
  inv2_fresh :
    Comp.hasSpokenResponse (refs (core s)) = false ->
    Comp.autoSpeakAttempts (refs (core s)) = 0;
  inv2_speak : speakTimer s <> None -> autoSpeakReady (core s) = true;
  inv2_generating :
    Comp.isGenerating (comp (core s)) = true ->
    Comp.generatedResponse (comp (core s)) = []
    /\ Comp.hasSpokenResponse (refs (core s)) = false
}.

(** While the lock of the component is held, the response is marked as
    spoken, and the debounce effect has nothing to send: a response is
    shown, or the transcript is blank. *)
Definition lockInv (c : Core) : Prop :=
  Comp.isTTSLocked (refs c) = true ->
  Comp.hasSpokenResponse (refs c) = true
  /\ truthy (Comp.generatedResponse (comp c))
     || negb (nonBlank (Comp.transcription (comp c))) = true.

(** The state of the reasoning loop when no request has ever been sent and
    none can be: the API key is missing, no request is logged or pending,
    nothing is being generated and there is no response. *)
Definition neverAsked (c : Core) : Prop :=
  apiKey c = false /\ geminiRequests c = [] /\ pendingFetches c = 0
  /\ Comp.isGenerating (comp c) = false
  /\ Comp.generatedResponse (comp c) = [].

(** The message of a reply that brings no text. *)
Definition failureMessage (r : jsstring + jsstring) : jsstring :=
  match r with
  | inl _ => js "No generated text received from Gemini"
  | inr msg => msg
  end.

(** A reply that brings no text: a failure, or an empty text. *)
Definition bringsNoText (r : jsstring + jsstring) : Prop :=
  match r with
  | inl t => t = []
  | inr _ => True
  end.

(** The events by which the recognition engine reports that the stream is
    over: [onend] and [onerror]. *)
Definition endsStream (e : Event) : bool :=
  match e with
  | RecognitionEnd | RecognitionError _ _ => true
  | _ => false
  end.

(* ===================================================================== *)
(** * Properties *)
(* ===================================================================== *)

(** Case analysis over the handlers: unfold them, split on every test they
    make, and close each case by computation. *)
Ltac unfold_handlers :=
  unfold startRecording, stopRecording, clearTranscription, stop, onstart,
    onresult, onerror, onend, initTimeoutFires, initTimeoutBody, geminiSettles,
    workerRuns, hookReceives, hook_onmessage, opUtter, opOnStart,
    opStartTimeout, opPrimerTimer, opPrimerEnd, opFinalTimeout,
    opUtteranceEnd, audioEnded, audioError, audioPlayRejected, voicesChanged,
    onVoicesChanged, sendToGemini, speakWithBrowser, onRejected, onResolved,
    releaseLockViaWindow, cancelSpeech, putOp, upd_synth, postMessage,
    autoSpeakBody, speak, clearBody, resetSpoken, initialize,
    Worker.onmessage, Worker.init_try, Worker.init_catch in *.

Ltac crush :=
  repeat (first
    [ done
    | congruence
    | lia
    | progress simplify_eq
    | progress simpl in *
    | match goal with
      | H : context [mbind _ ?o] |- _ => destruct o eqn:?
      end
    | case_match ]).

Ltac by_cases_on_handler e H :=
  destruct e; simpl in H; try discriminate H; unfold_handlers; crush.

Lemma handle_attempts e c c' :
  handle e c = Some c' ->
  Comp.autoSpeakAttempts (refs c') = Comp.autoSpeakAttempts (refs c).
Proof. intros H. by_cases_on_handler e H. Qed.

Lemma handle_now e c c' : handle e c = Some c' -> now c' = now c.
Proof. intros H. by_cases_on_handler e H. Qed.

Lemma handle_requests e c c' :
  handle e c = Some c' -> geminiRequests c' = geminiRequests c.
Proof. intros H. by_cases_on_handler e H. Qed.

Lemma handle_window_lock e c c' :
  handle e c = Some c' ->
  window_isTTSLocked (window c) = None ->
  window_isTTSLocked (window c') = None.
Proof. intros H. by_cases_on_handler e H. Qed.

Lemma handle_started_flag e c c' :
  handle e c = Some c' ->
  Comp.ttsActuallyStarted (refs c') = Comp.ttsActuallyStarted (refs c).
Proof. intros H. by_cases_on_handler e H. Qed.


Lemma handle_genOK e c c' : handle e c = Some c' -> genOK c -> genOK c'.
Proof. unfold genOK. intros H G. by_cases_on_handler e H. Qed.

Lemma handle_fallback e c c' :
  handle e c = Some c' ->
  (TTS.useFallback (tts c) = true -> TTS.useFallback (tts c') = true)
  /\ (Worker.useFallback (worker c) = true -> Worker.useFallback (worker c') = true).
Proof. intros H. split; intros G; by_cases_on_handler e H. Qed.


Lemma nonBlank_truthy s : nonBlank s = true -> truthy s = true.
Proof. destruct s; [discriminate | reflexivity]. Qed.


Lemma resetSpoken_comp c : comp (resetSpoken c) = comp c.
Proof. unfold resetSpoken; by case_match. Qed.
Lemma resetSpoken_tts c : tts (resetSpoken c) = tts c.
Proof. unfold resetSpoken; by case_match. Qed.
Lemma resetSpoken_now c : now (resetSpoken c) = now c.
Proof. unfold resetSpoken; by case_match. Qed.
Lemma resetSpoken_window c : window (resetSpoken c) = window c.
Proof. unfold resetSpoken; by case_match. Qed.
Lemma resetSpoken_pending c : pendingFetches (resetSpoken c) = pendingFetches c.
Proof. unfold resetSpoken; by case_match. Qed.
Lemma resetSpoken_requests c : geminiRequests (resetSpoken c) = geminiRequests c.
Proof. unfold resetSpoken; by case_match. Qed.
Lemma resetSpoken_toWorker c : toWorker (resetSpoken c) = toWorker c.
Proof. unfold resetSpoken; by case_match. Qed.
Lemma resetSpoken_worker c : worker (resetSpoken c) = worker c.
Proof. unfold resetSpoken; by case_match. Qed.
Lemma resetSpoken_attempts c :
  Comp.autoSpeakAttempts (refs (resetSpoken c)) <= Comp.autoSpeakAttempts (refs c).
Proof. unfold resetSpoken; case_match; simpl; lia. Qed.
Lemma resetSpoken_flag c :
  Comp.ttsActuallyStarted (refs (resetSpoken c)) = Comp.ttsActuallyStarted (refs c).
Proof. unfold resetSpoken; by case_match. Qed.

Lemma commit_core old c :
  core (commit old c) = c \/ core (commit old c) = resetSpoken c.
Proof. unfold commit; simpl. case_bool_decide; auto. Qed.

Lemma commit_comp old c : comp (core (commit old c)) = comp c.
Proof. destruct (commit_core old c) as [->| ->]; auto using resetSpoken_comp. Qed.
Lemma commit_tts old c : tts (core (commit old c)) = tts c.
Proof. destruct (commit_core old c) as [->| ->]; auto using resetSpoken_tts. Qed.
Lemma commit_now old c : now (core (commit old c)) = now c.
Proof. destruct (commit_core old c) as [->| ->]; auto using resetSpoken_now. Qed.
Lemma commit_window old c : window (core (commit old c)) = window c.
Proof. destruct (commit_core old c) as [->| ->]; auto using resetSpoken_window. Qed.
Lemma commit_pending old c : pendingFetches (core (commit old c)) = pendingFetches c.
Proof. destruct (commit_core old c) as [->| ->]; auto using resetSpoken_pending. Qed.
Lemma commit_requests old c : geminiRequests (core (commit old c)) = geminiRequests c.
Proof. destruct (commit_core old c) as [->| ->]; auto using resetSpoken_requests. Qed.
Lemma commit_toWorker old c : toWorker (core (commit old c)) = toWorker c.
Proof. destruct (commit_core old c) as [->| ->]; auto using resetSpoken_toWorker. Qed.
Lemma commit_worker old c : worker (core (commit old c)) = worker c.
Proof. destruct (commit_core old c) as [->| ->]; auto using resetSpoken_worker. Qed.
Lemma commit_attempts old c :
  Comp.autoSpeakAttempts (refs (core (commit old c))) <= Comp.autoSpeakAttempts (refs c).
Proof.
  destruct (commit_core old c) as [->| ->]; auto using resetSpoken_attempts.
Qed.
Lemma commit_flag old c :
  Comp.ttsActuallyStarted (refs (core (commit old c))) = Comp.ttsActuallyStarted (refs c).
Proof. destruct (commit_core old c) as [->| ->]; auto using resetSpoken_flag. Qed.

Lemma geminiClosure_commit old c :
  geminiClosure (core (commit old c)) = geminiClosure c.
Proof. unfold geminiClosure. by rewrite commit_comp, commit_tts. Qed.

Lemma debounceReady_commit old c :
  debounceReady (core (commit old c)) = debounceReady c.
Proof. unfold debounceReady. by rewrite commit_comp. Qed.

Lemma debounceReady_deps c0 c :
  debounceDeps c0 = debounceDeps c -> debounceReady c0 = debounceReady c.
Proof. unfold debounceDeps, debounceReady. intros [= -> -> -> -> _]. reflexivity. Qed.

Lemma commit_inv old c :
  Inv old ->
  now c = now (core old) ->
  Comp.autoSpeakAttempts (refs c) <= 3 ->
  window_isTTSLocked (window c) = None ->
  Comp.ttsActuallyStarted (refs c) = false ->
  genOK c ->
  Inv (commit old c).
Proof.
  intros [Ia Iw If Ic Ig Id Is Ii Il] Hn Ha Hw Hf Hg. constructor.
  - pose proof (commit_attempts old c). lia.
  - by rewrite commit_window.
  - by rewrite commit_flag.
  - rewrite commit_now. simpl. case_bool_decide; lia.
  - unfold genOK. by rewrite commit_pending, commit_comp.
  - intros dl k. rewrite geminiClosure_commit, debounceReady_commit.
    simpl. unfold rearm. case_bool_decide as Hd; simpl.
    + intros Ht. destruct (Id _ _ Ht) as (-> & Hr & Hle).
      rewrite <- (debounceReady_deps _ _ Hd). 
      unfold debounceDeps in Hd. injection Hd as Ht' _ _ _ Hk.
      rewrite Ht'. rewrite bool_decide_true by done.
      repeat split; auto. unfold geminiClosure. congruence.
    + case_match; [|discriminate]. intros [= <- <-]. repeat split; auto.
      case_bool_decide; lia.
  - intros dl r k. rewrite commit_tts, commit_comp. simpl. unfold rearm.
    case_bool_decide as Hd; simpl.
    + intros Ht. destruct (Is _ _ _ Ht) as (-> & ->).
      unfold autoSpeakDeps in Hd. split; congruence.
    + case_match; [|discriminate]. by intros [= <- <- <-].
  - intros dl k. simpl. case_bool_decide; [apply Ii|].
    unfold initEffect. case_match eqn:E; [discriminate|].
    intros [= <- <-]. by apply orb_false_iff in E as [-> _].
  - simpl. unfold rearm. case_bool_decide; simpl; [done|].
    unfold clearReady. rewrite Hf. by rewrite andb_false_r.
Qed.

Lemma Inv_mount supported key y : Inv (mount supported key y).
Proof.
  constructor; simpl; try done; try lia.
  - unfold genOK. by destruct supported.
  - by intros dl k [= <- <-].
Qed.

Lemma Inv_drop_initTimer s : Inv s -> Inv (set_initTimer None s).
Proof. intros []; constructor; simpl; auto; discriminate. Qed.
Lemma Inv_drop_debounceTimer s : Inv s -> Inv (set_debounceTimer None s).
Proof. intros []; constructor; simpl; auto; discriminate. Qed.
Lemma Inv_drop_speakTimer s : Inv s -> Inv (set_speakTimer None s).
Proof. intros []; constructor; simpl; auto; discriminate. Qed.

Lemma initialize_frame k v c :
  let c' := initialize k v c in
  now c' = now c
  /\ refs c' = refs c
  /\ window c' = window c
  /\ comp c' = comp c
  /\ pendingFetches c' = pendingFetches c
  /\ geminiRequests c' = geminiRequests c.
Proof. unfold initialize. destruct k; simpl; auto 10. Qed.

Lemma sendToGemini_frame k c :
  let c' := sendToGemini k c in
  now c' = now c /\ refs c' = refs c /\ window c' = window c
  /\ tts c' = tts c /\ toWorker c' = toWorker c /\ worker c' = worker c.
Proof. unfold sendToGemini. repeat case_match; simpl; auto 10. Qed.


Lemma sendToGemini_requests k c :
  geminiRequests (sendToGemini k c)
  = if reachesFetch k c
    then geminiRequests c ++ [trim (Comp.g_transcription k)]
    else geminiRequests c.
Proof.
  unfold sendToGemini, reachesFetch.
  destruct (apiKey c), (Comp.g_ttsInitialized k),
    (truthy (Comp.g_transcription k)); reflexivity.
Qed.

Lemma sendToGemini_generating k c :
  reachesFetch k c = true ->
  Comp.isGenerating (comp (sendToGemini k c)) = true
  /\ pendingFetches (sendToGemini k c) = S (pendingFetches c).
Proof.
  unfold sendToGemini, reachesFetch.
  destruct (apiKey c), (Comp.g_ttsInitialized k),
    (truthy (Comp.g_transcription k)); try discriminate. auto.
Qed.

Lemma sendToGemini_genOK c :
  debounceReady c = true -> genOK c -> genOK (sendToGemini (geminiClosure c) c).
Proof.
  unfold debounceReady, genOK, sendToGemini. simpl.
  intros H G.
  apply andb_true_iff in H as [H _]. apply andb_true_iff in H as [H Hg].
  apply andb_true_iff in H as [_ Hn]. apply nonBlank_truthy in Hn.
  apply negb_true_iff in Hg. rewrite Hg in G. rewrite Hn.
  crush.
Qed.

Lemma autoSpeakBody_frame r k c :
  let c' := autoSpeakBody r k c in
  now c' = now c /\ comp c' = comp c
  /\ pendingFetches c' = pendingFetches c
  /\ geminiRequests c' = geminiRequests c
  /\ (Comp.ttsActuallyStarted (refs c) = false ->
      Comp.ttsActuallyStarted (refs c') = false)
  /\ (Comp.autoSpeakAttempts (refs c) <= 3 -> Comp.autoSpeakAttempts (refs c') <= 3)
  /\ (window_isTTSLocked (window c) = None -> window_isTTSLocked (window c') = None).
Proof.
  unfold autoSpeakBody, speak, speakWithBrowser, onRejected,
    releaseLockViaWindow, cancelSpeech, postMessage, upd_synth.
  destruct (3 <=? Comp.autoSpeakAttempts (refs c)) eqn:E; simpl.
  - repeat split; auto.
  - apply Nat.leb_gt in E.
    repeat (case_match; simpl); repeat split; auto; try lia; congruence.
Qed.


Lemma step_Step e s s' : step e s = Some s' -> Step s e s'.
Proof.
  intros H.
  destruct e; unfold step in H;
    try (destruct (handle _ (core s)) as [c'|] eqn:E; simpl in H;
         [injection H as <-; by apply Step_handle | discriminate]).
  - injection H as <-. constructor.
  - injection H as <-. constructor.
  - destruct (initTimer s) as [[dl k]|] eqn:E; simpl in H; [|discriminate].
    destruct (dl <=? now (core s)) eqn:L; [|discriminate].
    injection H as <-. apply Nat.leb_le in L. by econstructor.
  - destruct (debounceTimer s) as [[dl k]|] eqn:E; simpl in H; [|discriminate].
    destruct (dl <=? now (core s)) eqn:L; [|discriminate].
    injection H as <-. apply Nat.leb_le in L. by econstructor.
  - destruct (speakTimer s) as [[dl [r k]]|] eqn:E; simpl in H; [|discriminate].
    destruct (dl <=? now (core s)) eqn:L; [|discriminate].
    injection H as <-. apply Nat.leb_le in L. by econstructor.
  - destruct (clearTimer s) as [dl|] eqn:E; simpl in H; [|discriminate].
    destruct (dl <=? now (core s)) eqn:L; [|discriminate].
    injection H as <-. apply Nat.leb_le in L. by econstructor.
Qed.

Lemma Inv_Step s e s' : Inv s -> Step s e s' -> Inv s'.
Proof.
  intros I H. destruct H.
  - destruct I. constructor; simpl; auto. lia.
  - destruct I. constructor; simpl; auto.
    unfold initEffect. intros dl k. case_match eqn:E; [discriminate|].
    intros [= <- <-]. by apply orb_false_iff in E as [-> _].
  - destruct (initialize_frame k (Some lessac) (core s))
      as (Hn & Hr & Hw & Hc & Hp & _).
    apply commit_inv; [by apply Inv_drop_initTimer|..]; destruct I.
    + done.
    + by rewrite Hr.
    + by rewrite Hw.
    + by rewrite Hr.
    + unfold genOK. by rewrite Hp, Hc.
  - destruct (sendToGemini_frame k (core s)) as (Hn & Hr & Hw & _).
    destruct (inv_debounce _ I _ _ H) as (-> & Hd & _).
    apply commit_inv; [by apply Inv_drop_debounceTimer|..].
    + done.
    + rewrite Hr. apply I.
    + rewrite Hw. apply I.
    + rewrite Hr. apply I.
    + apply sendToGemini_genOK; [done | apply I].
  - destruct (autoSpeakBody_frame r k (core s))
      as (Hn & Hc & Hp & _ & Hf & Ha & Hw).
    apply commit_inv; [by apply Inv_drop_speakTimer|..]; destruct I; auto.
    unfold genOK. by rewrite Hp, Hc.
  - destruct I. congruence.
  - apply commit_inv; [done|..].
    + by apply handle_now in H.
    + apply handle_attempts in H. rewrite H. apply I.
    + apply handle_window_lock in H; [done | apply I].
    + apply handle_started_flag in H. rewrite H. apply I.
    + eapply handle_genOK; [done | apply I].
Qed.

Lemma reachable_Inv s : reachable s -> Inv s.
Proof.
  induction 1 as [| s e s' _ IH H].
  - apply Inv_mount.
  - eauto using Inv_Step, step_Step.
Qed.


Lemma trim_nil : trim [] = [].
Proof. reflexivity. Qed.

Lemma trim_nonempty_truthy t : trim t <> [] -> truthy t = true.
Proof. destruct t; [intros H; contradiction H; reflexivity | reflexivity]. Qed.

Lemma truthy_false s : truthy s = false <-> s = [].
Proof. destruct s; simpl; split; congruence. Qed.

Lemma truthy_true s : truthy s = true <-> s <> [].
Proof. destruct s; simpl; split; congruence. Qed.

Lemma noText_spec t :
  Worker.noText t = true <-> t = None \/ exists s, t = Some s /\ trim s = [].
Proof.
  destruct t as [s|]; simpl.
  - rewrite orb_true_iff, !negb_true_iff, !truthy_false. split.
    + intros [->| H]; right; eexists; split; eauto.
    + intros [?|(s' & [= <-] & H)]; [done | by right].
  - split; auto.
Qed.

Lemma worker_never_audio probe ev w :
  forallb (fun m => negb (isAUDIO m)) (snd (Worker.onmessage probe ev w)) = true.
Proof.
  unfold Worker.onmessage, Worker.init_try, Worker.init_catch.
  destruct (type ev), probe; simpl; repeat case_match; reflexivity.
Qed.

Lemma scanResults_spec rs f i :
  scanResults rs f i
  = (f ++ concat (map withSeparator (map transcript (List.filter isFinal rs))),
     i ++ concat (map transcript (List.filter (fun r => negb (isFinal r)) rs))).
Proof.
  revert f i. induction rs as [|r rs IH]; intros f i; simpl.
  - by rewrite !app_nil_r.
  - destruct (isFinal r) eqn:E; rewrite IH; simpl. all: unfold withSeparator; rewrite <- ?app_assoc; reflexivity.
Qed.

Lemma sendToGemini_mount_comp c :
  Comp.transcription (comp (sendToGemini mountClosure c)) = Comp.transcription (comp c)
  /\ Comp.interimTranscript (comp (sendToGemini mountClosure c)) = Comp.interimTranscript (comp c).
Proof. unfold sendToGemini. simpl. destruct (apiKey c); simpl; auto. Qed.

Lemma onresult_transcription ev c :
  Comp.transcription (comp (onresult ev c))
  = Comp.transcription (comp c) ++ concat (map withSeparator (finalSegments ev)).
Proof.
  unfold onresult, splitResults, finalSegments. rewrite scanResults_spec. simpl.
  set (fin := concat _).
  destruct (truthy fin) eqn:E; simpl.
  - destruct (sendToGemini_mount_comp (upd_refs (Comp.setIsTTSLocked false)
            (upd_comp (fun s => Comp.setTranscription (Comp.transcription s ++ fin) s) c))) as [-> _].
    reflexivity.
  - apply truthy_false in E. rewrite E. by rewrite app_nil_r.
Qed.

Lemma onresult_interim ev c :
  Comp.interimTranscript (comp (onresult ev c)) = concat (interimSegments ev).
Proof.
  unfold onresult, splitResults, interimSegments. rewrite scanResults_spec. reflexivity.
Qed.


Lemma stop_twice c : stop (stop c) = stop c.
Proof.
  destruct c as [cm rf t tr [y l] wk tw fw ops it vl au nw ak gr pf].
  destruct tr as [r1 r2 r3], t.
  unfold stop; simpl.
  destruct y as [[sp pe pa vs]|]; simpl; [destruct sp, pe; simpl|]; destruct r1; reflexivity.
Qed.

Lemma stop_idle c : nothingSpeaking c -> stop c = stopWhenIdle c.
Proof.
  intros [H1 H2].
  destruct c as [cm rf t tr [y l] wk tw fw ops it vl au nw ak gr pf].
  destruct tr as [r1 r2 r3], t. simpl in *.
  unfold stop, stopWhenIdle; simpl.
  destruct y as [y|]; simpl; [rewrite (H2 y eq_refl)|]; destruct r1; reflexivity.
Qed.

(* ---------- runs ---------- *)

Lemma run_app es1 es2 s :
  run (es1 ++ es2) s = run es1 s ≫= run es2.
Proof.
  revert s. induction es1 as [|e es1 IH]; intros s; simpl; [done|].
  destruct (step e s); simpl; auto.
Qed.

Lemma reachable_run es s s' : reachable s -> run es s = Some s' -> reachable s'.
Proof.
  revert s. induction es as [|e es IH]; intros s Hs; simpl.
  - by intros [= <-].
  - destruct (step e s) as [s1|] eqn:E; simpl; [|discriminate].
    apply IH. by eapply reachable_step.
Qed.

Lemma run_listened : run (startup ++ listening) pageLoaded = Some sListened.
Proof. vm_compute. reflexivity. Qed.
Lemma run_answered : run answering sListened = Some sAnswered.
Proof. vm_compute. reflexivity. Qed.
Lemma run_speechFailed : run speechNeverStarts sAnswered = Some sSpeechFailed.
Proof. vm_compute. reflexivity. Qed.
Lemma run_muteFailed :
  run (startup ++ listening ++ answering ++ [AutoSpeakTimerFires])
      pageLoadedMute = Some sMuteFailed.
Proof. vm_compute. reflexivity. Qed.

Lemma reachable_listened : reachable sListened.
Proof.
  apply (reachable_run (startup ++ listening) pageLoaded);
    [constructor | exact run_listened].
Qed.
Lemma reachable_answered : reachable sAnswered.
Proof. exact (reachable_run answering _ _ reachable_listened run_answered). Qed.
Lemma reachable_speechFailed : reachable sSpeechFailed.
Proof. exact (reachable_run speechNeverStarts _ _ reachable_answered run_speechFailed). Qed.
Lemma reachable_muteFailed : reachable sMuteFailed.
Proof.
  apply (reachable_run (startup ++ listening ++ answering ++ [AutoSpeakTimerFires])
           pageLoadedMute); [constructor | exact run_muteFailed].
Qed.


(* ---------- C9, C10 ---------- *)

(** C9. A [SPEAK] message the worker accepts (the worker is ready, the text
    is not empty once trimmed) is answered by exactly one message, a
    [SPEAK_REQUEST] with the trimmed text and [fallbackToMainThread] set,
    and the state of the worker is unchanged; and no message whatever makes
    the worker post an [AUDIO] buffer. *)
Theorem worker_delegates_speech probe ev w t :
  type ev = SPEAK -> Worker.isReady w = true -> text ev = Some t ->
  trim t <> [] ->
  Worker.onmessage probe ev w
  = (w, [SPEAK_REQUEST (trim t) (Worker.voiceOrDefault (voiceId ev)) true])
  /\ (forall probe' ev' w',
        forallb (fun m => negb (isAUDIO m))
                (snd (Worker.onmessage probe' ev' w')) = true).
Proof.
  intros Hty Hr Ht Hne. split; [|apply worker_never_audio].
  unfold Worker.onmessage, Worker.noText. rewrite Hty, Hr, Ht. simpl.
  rewrite (trim_nonempty_truthy _ Hne).
  apply truthy_true in Hne. rewrite Hne. reflexivity.
Qed.

Lemma worker_delegates_speech_witness :
  type speakHello = SPEAK /\ Worker.isReady readyWorker = true
  /\ text speakHello = Some (js "  hello ")
  /\ trim (js "  hello ") <> []
  /\ Worker.onmessage Worker.ModelMissing speakHello readyWorker
     = (readyWorker, [SPEAK_REQUEST (js "hello") Worker.browserVoice true]).
Proof.
  assert (Hne : trim (js "  hello ") <> []) by (vm_compute; discriminate).
  do 3 (split; [reflexivity|]). split; [exact Hne|].
  exact (proj1 (worker_delegates_speech Worker.ModelMissing speakHello
                  readyWorker (js "  hello ") eq_refl eq_refl eq_refl Hne)).
Defined.

(** C10. A [SPEAK] message whose text is missing, or empty once trimmed,
    reaching a worker that is ready, is answered by exactly one message,
    the [ERROR] 'No text provided': no [SPEAK_REQUEST] is posted and the
    state of the worker is unchanged. *)
Theorem worker_rejects_blank_text probe ev w :
  type ev = SPEAK -> Worker.isReady w = true ->
  (text ev = None \/ exists t, text ev = Some t /\ trim t = []) ->
  Worker.onmessage probe ev w = (w, [ERROR (js "No text provided")]).
Proof.
  intros Hty Hr Ht. apply noText_spec in Ht.
  unfold Worker.onmessage. rewrite Hty, Hr.
  destruct (text ev); [rewrite Ht|]; reflexivity.
Qed.

Lemma worker_rejects_blank_text_witness :
  type speakBlank = SPEAK /\ Worker.isReady readyWorker = true
  /\ (text speakBlank = None
      \/ exists t, text speakBlank = Some t /\ trim t = [])
  /\ Worker.onmessage Worker.ModelFound speakBlank readyWorker
     = (readyWorker, [ERROR (js "No text provided")]).
Proof.
  assert (H : text speakBlank = None
              \/ exists t, text speakBlank = Some t /\ trim t = []).
  { right. exists (js "   "). split; reflexivity. }
  do 2 (split; [reflexivity|]). split; [exact H|].
  exact (worker_rejects_blank_text Worker.ModelFound speakBlank readyWorker
           eq_refl eq_refl H).
Defined.

(* ---------- C3 ---------- *)

Lemma onend_comp c :
  Comp.interimTranscript (comp (onend c)) = []
  /\ Comp.transcription (comp (onend c)) = Comp.transcription (comp c).
Proof. split; reflexivity. Qed.

Lemma onresults_transcription evs c :
  Comp.transcription (comp (onresults evs c))
  = Comp.transcription (comp c)
    ++ concat (map withSeparator (flat_map finalSegments evs)).
Proof.
  unfold onresults. revert c.
  induction evs as [|ev evs IH]; intros c; simpl.
  - by rewrite app_nil_r.
  - rewrite IH, onresult_transcription.
    rewrite map_app, concat_app. by rewrite <- app_assoc.
Qed.

(** C3. Over any sequence of result events, the transcript grows by the
    final segments, in the order they arrive, each followed by one space;
    every result event sets the interim text to the segments of that event
    that are not final, whatever the interim text was; and the end of the
    stream empties the interim text and leaves the transcript. *)
Theorem transcript_accumulates_final_segments :
  (forall evs c,
      Comp.transcription (comp (onresults evs c))
      = Comp.transcription (comp c)
        ++ concat (map withSeparator (flat_map finalSegments evs)))
  /\ (forall ev c,
        Comp.interimTranscript (comp (onresult ev c))
        = concat (interimSegments ev))
  /\ (forall c,
        Comp.interimTranscript (comp (onend c)) = []
        /\ Comp.transcription (comp (onend c)) = Comp.transcription (comp c)).
Proof.
  split; [exact onresults_transcription|].
  split; [exact onresult_interim | exact onend_comp].
Qed.

(** The scenario of the specification: interim "Hel", interim "Hello",
    final "Hello there", end of stream. *)
Example hello_there :
  let c := onend (onresults [interimResult "Hel"; interimResult "Hello";
                             finalResult "Hello there"]
                            (core pageLoaded)) in
  Comp.transcription (comp c) = js "Hello there "
  /\ Comp.interimTranscript (comp c) = [].
Proof. split; vm_compute; reflexivity. Qed.

(* ---------- C8 ---------- *)

Lemma map_dequeued_twice ops :
  map dequeued (map dequeued ops) = map dequeued ops.
Proof. induction ops as [|op ops IH]; simpl; [done|]. by rewrite IH. Qed.

Lemma stop_request_idempotent fb c :
  hook_onmessage (STOP_REQUEST fb) (hook_onmessage (STOP_REQUEST fb) c)
  = hook_onmessage (STOP_REQUEST fb) c.
Proof.
  destruct c as [cm rf t tr [y l] wk tw fw ops it vl au nw ak gr pf].
  destruct y as [y|]; [|reflexivity]. destruct fb; [|reflexivity].
  unfold hook_onmessage, cancelSpeech.
  pose proof map_dequeued_twice as Hm. revert Hm.
  generalize (map dequeued). intros m Hm.
  vm_compute. rewrite Hm. reflexivity.
Qed.

(** C8, at a state of the running system where the claim fails: nothing is
    speaking or pending, and [stop] changes the state (it clears the error
    of the hook). *)
Lemma stop_changes_idle_state :
  reachable sMuteFailed
  /\ nothingSpeaking (core sMuteFailed)
  /\ stop (core sMuteFailed) <> core sMuteFailed.
Proof.
  split; [exact reachable_muteFailed|]. split.
  - split; [vm_compute; reflexivity|].
    intros y H. vm_compute in H. discriminate H.
  - intros H. apply (f_equal (fun c => TTS.error (tts c))) in H.
    vm_compute in H. discriminate H.
Qed.

(** C8, amended.  [stop] is idempotent, and so is the [STOP_REQUEST] branch
    of the message handler; [stop] is a total function (it raises nothing);
    when nothing is speaking or pending it cancels nothing and changes
    nothing but three cells: the error of the hook is cleared, [isSpeaking]
    is set to [false] (which it was), and [speechSynthRef] is set to
    [null].  When moreover there is no error and no stored utterance, the
    state is unchanged. *)
Theorem stop_idempotent c :
  stop (stop c) = stop c
  /\ (forall fb,
        hook_onmessage (STOP_REQUEST fb) (hook_onmessage (STOP_REQUEST fb) c)
        = hook_onmessage (STOP_REQUEST fb) c)
  /\ (nothingSpeaking c ->
      stop c = stopWhenIdle c
      /\ (TTS.error (tts c) = None ->
          TTS.speechSynthRef (ttsRefs c) = false -> stop c = c)).
Proof.
  split; [apply stop_twice|]. split; [intros; apply stop_request_idempotent|].
  intros Hi. split; [by apply stop_idle|].
  intros He Hr. rewrite (stop_idle _ Hi). destruct Hi as [Hs _].
  destruct c as [cm rf t tr w wk tw fw ops it vl au nw ak gr pf].
  destruct t, tr. simpl in *. subst. reflexivity.
Qed.

Lemma stop_idempotent_witness :
  nothingSpeaking (core sMuteFailed)
  /\ stop (core sMuteFailed) = stopWhenIdle (core sMuteFailed)
  /\ stop (stop (core sMuteFailed)) = stop (core sMuteFailed).
Proof.
  assert (Hi : nothingSpeaking (core sMuteFailed)).
  { split; [vm_compute; reflexivity|].
    intros y H. vm_compute in H. discriminate H. }
  split; [exact Hi|]. split.
  - exact (proj1 (proj2 (proj2 (stop_idempotent (core sMuteFailed))) Hi)).
  - exact (proj1 (stop_idempotent (core sMuteFailed))).
Defined.

(* ---------- more frame lemmas ---------- *)

Lemma handle_toWorker e c c' :
  handle e c = Some c' ->
  toWorker c' = toWorker c \/ exists r0, toWorker c = r0 :: toWorker c'.
Proof. intros H. by_cases_on_handler e H; eauto. Qed.

Lemma step_fallback s e s' :
  Step s e s' ->
  (TTS.useFallback (tts (core s)) = true ->
   TTS.useFallback (tts (core s')) = true)
  /\ (Worker.useFallback (worker (core s)) = true ->
      Worker.useFallback (worker (core s')) = true).
Proof.
  intros H. destruct H; rewrite ?commit_tts, ?commit_worker; simpl; auto.
  - unfold initialize. destruct k; simpl; auto.
  - destruct (sendToGemini_frame k (core s)) as (_ & _ & _ & -> & _ & ->).
    auto.
  - unfold autoSpeakBody, speak, speakWithBrowser, onRejected,
      releaseLockViaWindow, cancelSpeech, postMessage, upd_synth.
    split; intros G; repeat (case_match; simpl); auto.
  - exact (handle_fallback _ _ _ H).
Qed.

Lemma speak_in_fallback k t c :
  TTS.c_useFallback k = true -> toWorker (speak k t c) = toWorker c.
Proof.
  intros H. unfold speak, speakWithBrowser, onRejected,
    releaseLockViaWindow, cancelSpeech, postMessage, upd_synth.
  rewrite H. repeat (case_match; simpl); auto.
Qed.

Lemma autoSpeakBody_in_fallback r k c :
  TTS.c_useFallback k = true -> toWorker (autoSpeakBody r k c) = toWorker c.
Proof.
  intros H. unfold autoSpeakBody.
  repeat (case_match; simpl); auto.
  by rewrite speak_in_fallback.
Qed.

Lemma step_no_new_SPEAK s e s' :
  Inv s -> Step s e s' ->
  TTS.useFallback (tts (core s)) = true ->
  forall r, r ∈ toWorker (core s') -> isSPEAK r = true -> r ∈ toWorker (core s).
Proof.
  intros I H F r. destruct H; rewrite ?commit_toWorker; simpl; auto.
  - unfold initialize. destruct k; simpl; auto.
    unfold postMessage; simpl. intros [Hr| Hr]%elem_of_app; [done|].
    apply list_elem_of_singleton in Hr as ->. discriminate.
  - destruct (sendToGemini_frame k (core s)) as (_ & _ & _ & _ & -> & _).
    auto.
  - destruct (inv_speak _ I _ _ _ H) as (-> & _).
    rewrite autoSpeakBody_in_fallback; auto.
  - apply handle_toWorker in H as [-> | [r0 ->]]; [auto|].
    intros Hr _. by right.
Qed.

(* ---------- generation ---------- *)

Lemma step_requests s e s' :
  Step s e s' ->
  geminiRequests (core s') = geminiRequests (core s)
  \/ exists dl k, e = DebounceTimerFires /\ debounceTimer s = Some (dl, k)
       /\ dl <= now (core s) /\ reachesFetch k (core s) = true
       /\ s' = commit (set_debounceTimer None s) (sendToGemini k (core s)).
Proof.
  intros H. destruct H; rewrite ?commit_requests; simpl; auto.
  - left. apply initialize_frame.
  - rewrite sendToGemini_requests.
    destruct (reachesFetch k (core s)) eqn:E; [right|by left].
    exists dl, k. auto.
  - left. apply autoSpeakBody_frame.
  - left. by eapply handle_requests.
Qed.

Lemma debounceReady_parts c :
  debounceReady c = true ->
  Comp.isRecording (comp c) = true
  /\ nonBlank (Comp.transcription (comp c)) = true
  /\ Comp.isGenerating (comp c) = false
  /\ Comp.generatedResponse (comp c) = [].
Proof.
  unfold debounceReady. rewrite !andb_true_iff, !negb_true_iff, truthy_false.
  tauto.
Qed.

Lemma generation_step s e s' :
  Inv s -> Step s e s' ->
  geminiRequests (core s') <> geminiRequests (core s) ->
  e = DebounceTimerFires
  /\ debounceReady (core s) = true
  /\ transcriptChangedAt s + 2000 <= now (core s)
  /\ reachesFetch (geminiClosure (core s)) (core s) = true
  /\ s' = commit (set_debounceTimer None s)
                 (sendToGemini (geminiClosure (core s)) (core s)).
Proof.
  intros I H Hne.
  destruct (step_requests _ _ _ H) as [Heq | (dl & k & -> & Ht & Hdl & Hf & ->)];
    [contradiction|].
  destruct (inv_debounce _ I _ _ Ht) as (-> & Hr & Hle).
  repeat split; auto. lia.
Qed.

Lemma generation_resets_attempts s :
  debounceReady (core s) = true ->
  reachesFetch (geminiClosure (core s)) (core s) = true ->
  Comp.autoSpeakAttempts
    (refs (core (commit (set_debounceTimer None s)
                   (sendToGemini (geminiClosure (core s)) (core s))))) = 0.
Proof.
  intros Hr Hf.
  destruct (debounceReady_parts _ Hr) as (_ & _ & Hg & _).
  destruct (sendToGemini_generating _ _ Hf) as [Hg' _].
  unfold commit; simpl. rewrite Hg, Hg'.
  rewrite bool_decide_false by discriminate.
  unfold resetSpoken. rewrite Hg'. reflexivity.
Qed.

(* ---------- C7 ---------- *)

Lemma startRecording_comp thrown c :
  Comp.transcription (comp (startRecording thrown c))
  = Comp.transcription (comp c)
  /\ Comp.interimTranscript (comp (startRecording thrown c))
     = Comp.interimTranscript (comp c)
  /\ Comp.generatedResponse (comp (startRecording thrown c))
     = Comp.generatedResponse (comp c).
Proof. unfold startRecording. repeat case_match; simpl; auto. Qed.

(** The copy of the component in [eslint.config.mjs] does what C7 says:
    from a state that is not recording, its [startRecording] empties the
    transcript and the interim text and leaves the response. *)
Lemma variant_startRecording_clears thrown c :
  Comp.recognitionRef (refs c) = true -> Comp.isRecording (comp c) = false ->
  let c' := Variant.startRecording thrown c in
  Comp.transcription (comp c') = []
  /\ Comp.interimTranscript (comp c') = []
  /\ Comp.generatedResponse (comp c') = Comp.generatedResponse (comp c).
Proof.
  intros Hr Hi. unfold Variant.startRecording. rewrite Hr, Hi.
  destruct thrown; simpl; auto.
Qed.

(** C7, on the code of [WebSpeechRecognition.tsx]: after a turn (not
    recording, transcript "Hello there ", response "Hi" pending and not
    yet spoken), a click on Start Recording leaves the transcript of the
    previous turn in place; the pending response is left too. *)
Theorem startRecording_keeps_previous_transcript :
  reachable sAnswered
  /\ Comp.isRecording (comp (core sAnswered)) = false
  /\ Comp.transcription (comp (core sAnswered)) = js "Hello there "
  /\ Comp.generatedResponse (comp (core sAnswered)) = js "Hi"
  /\ Comp.hasSpokenResponse (refs (core sAnswered)) = false
  /\ exists s',
       step (ClickStartRecording None) sAnswered = Some s'
       /\ Comp.transcription (comp (core s')) = js "Hello there "
       /\ Comp.generatedResponse (comp (core s')) = js "Hi".
Proof.
  split; [exact reachable_answered|].
  do 4 (split; [vm_compute; reflexivity|]).
  eexists. split; [vm_compute; reflexivity|].
  split; vm_compute; reflexivity.
Qed.

(* ---------- C2 ---------- *)

Lemma reachable_window_lock s :
  reachable s -> window_isTTSLocked (window (core s)) = None.
Proof. intros H. apply reachable_Inv in H. apply H. Qed.

(** In every state of the running system the release written in [useTTS]
    writes nothing. *)
Lemma release_does_nothing s :
  reachable s -> releaseLockViaWindow (core s) = core s.
Proof.
  intros H. unfold releaseLockViaWindow.
  by rewrite (reachable_window_lock _ H).
Qed.

(** Had the component stored its ref in [window.isTTSLocked], the release
    would free the lock. *)
Lemma release_through_window c :
  window_isTTSLocked (window c) = Some ComponentRef ->
  Comp.isTTSLocked (refs (releaseLockViaWindow c)) = false.
Proof. intros H. unfold releaseLockViaWindow. by rewrite H. Qed.

(** C2, on the code: auto-speak takes the lock and calls [speak]; the
    utterance never starts, the final timeout of [speakWithBrowser] ends
    the call (its promise is resolved, [isSpeaking] is [false] again, the
    [finally] of [speak] has run), and the lock is still held. *)
Theorem lock_held_after_speech_failure :
  reachable sAnswered
  /\ Comp.isTTSLocked (refs (core sAnswered)) = false
  /\ run speechNeverStarts sAnswered = Some sSpeechFailed
  /\ (settled <$> speakOps (core sSpeechFailed)) = [true]
  /\ (phase <$> speakOps (core sSpeechFailed)) = [Finished]
  /\ TTS.isSpeaking (tts (core sSpeechFailed)) = false
  /\ Comp.isTTSLocked (refs (core sSpeechFailed)) = true.
Proof.
  split; [exact reachable_answered|].
  split; [vm_compute; reflexivity|].
  split; [exact run_speechFailed|].
  repeat split; vm_compute; reflexivity.
Qed.

(** The same when the promise of [speakWithBrowser] is rejected (a browser
    without speech synthesis): the error is reported, the lock is still
    held. *)
Lemma lock_held_after_speech_error :
  reachable sMuteFailed
  /\ TTS.error (tts (core sMuteFailed))
     = Some (js "TTS error: Speech synthesis not supported")
  /\ TTS.isSpeaking (tts (core sMuteFailed)) = false
  /\ Comp.isTTSLocked (refs (core sMuteFailed)) = true.
Proof.
  split; [exact reachable_muteFailed|]. repeat split; vm_compute; reflexivity.
Qed.

(* ---------- C6 ---------- *)

Lemma reachable_flag_never_set s :
  reachable s ->
  Comp.ttsActuallyStarted (refs (core s)) = false /\ clearTimer s = None.
Proof. intros H. apply reachable_Inv in H. split; apply H. Qed.

Lemma clear_step s s' :
  step ClearTimerFires s = Some s' ->
  exists dl, clearTimer s = Some dl /\ dl <= now (core s)
    /\ Comp.generatedResponse (comp (core s')) = []
    /\ Comp.hasSpokenResponse (refs (core s')) = false
    /\ Comp.ttsActuallyStarted (refs (core s')) = false.
Proof.
  intros H. apply step_Step in H. inversion H as [| | | | |dl Ht Hdl|e c' Hh];
    subst; [|discriminate Hh].
  exists dl. rewrite commit_comp, commit_flag. repeat split; auto.
  unfold commit; simpl. case_bool_decide; [reflexivity | congruence].
Qed.

(** What the clear-response effect does when [isSpeaking] goes from [true]
    to [false]: it sets a timer, due one second later, exactly when the
    response is not blank and both refs [hasSpokenResponse] and
    [ttsActuallyStarted] of the component are set. *)
Lemma clear_effect_arms_timer (old : Sys) (c : Core) :
  TTS.isSpeaking (tts (core old)) = true ->
  TTS.isSpeaking (tts c) = false ->
  clearTimer (commit old c)
  = (if clearReady c then Some (now c + 1000) else None).
Proof.
  intros Hwas Hnow. unfold commit, rearm; simpl.
  rewrite bool_decide_false; [reflexivity|].
  unfold clearDeps. rewrite Hwas, Hnow. congruence.
Qed.

(** C6, on the code: the response 'Hi' is spoken aloud.  The utterance
    starts ([utterance.onstart] sets the flag [ttsActuallyStarted] of the
    hook, and [isSpeaking]) and is spoken to its end; the component has
    marked the response as spoken, but its own flag [ttsActuallyStarted],
    the one the clear-response effect reads, is still unset.  The hook is
    stopped: [isSpeaking] is [false] again, and the effect sets no timer.
    Five seconds later the response is still there, and no timer is left
    that could clear it. *)
Theorem response_kept_after_speech_began :
  reachable sAnswered
  /\ Comp.generatedResponse (comp (core sAnswered)) = js "Hi"
  /\ run speechHeard sAnswered = Some sHeard
  /\ (hasStarted <$> speakOps (core sHeard)) = [true]
  /\ TTS.ttsActuallyStarted (ttsRefs (core sHeard)) = true
  /\ TTS.isSpeaking (tts (core sHeard)) = true
  /\ Comp.hasSpokenResponse (refs (core sHeard)) = true
  /\ Comp.ttsActuallyStarted (refs (core sHeard)) = false
  /\ run stoppedAndWaited sHeard = Some sStopped
  /\ TTS.isSpeaking (tts (core sStopped)) = false
  /\ now (core sStopped) = now (core sHeard) + 5000
  /\ Comp.generatedResponse (comp (core sStopped)) = js "Hi"
  /\ clearTimer sStopped = None
  /\ step ClearTimerFires sStopped = None.
Proof.
  split; [exact reachable_answered|].
  do 12 (split; [vm_compute; reflexivity|]). vm_compute. reflexivity.
Qed.

(* ---------- C1 ---------- *)

Lemma breaker_trips response k c :
  3 <= Comp.autoSpeakAttempts (refs c) ->
  autoSpeakBody response k c
  = upd_refs (Comp.setIsTTSLocked false)
      (upd_refs (Comp.setHasSpokenResponse true) c).
Proof.
  intros H. unfold autoSpeakBody.
  apply Nat.leb_le in H. by rewrite H.
Qed.

(** C1. In every state the system can be in the attempt counter of
    auto-speak is at most 3.  When the counter has reached 3 the body of
    the auto-speak timer only marks the response as spoken and frees the
    lock: [speak] is not called (no call of [speakWithBrowser] is made,
    nothing is posted to the worker), the state of the component and that
    of the hook, hence both error slots, are unchanged, and so is the
    counter.  And a step that sends a request to the reasoning client
    leaves the counter at 0. *)
Theorem autoSpeak_attempts_bounded s :
  reachable s ->
  Comp.autoSpeakAttempts (refs (core s)) <= 3
  /\ (forall response k c,
        3 <= Comp.autoSpeakAttempts (refs c) ->
        let c' := autoSpeakBody response k c in
        Comp.hasSpokenResponse (refs c') = true
        /\ Comp.isTTSLocked (refs c') = false
        /\ Comp.autoSpeakAttempts (refs c') = Comp.autoSpeakAttempts (refs c)
        /\ comp c' = comp c /\ tts c' = tts c
        /\ speakOps c' = speakOps c /\ toWorker c' = toWorker c)
  /\ (forall e s',
        step e s = Some s' ->
        geminiRequests (core s') <> geminiRequests (core s) ->
        Comp.autoSpeakAttempts (refs (core s')) = 0).
Proof.
  intros Hs. pose proof (reachable_Inv _ Hs) as I.
  split; [apply I|]. split.
  - intros response k c H c'. unfold c'. rewrite (breaker_trips _ _ _ H).
    repeat split; reflexivity.
  - intros e s' Hst Hne. apply step_Step in Hst.
    destruct (generation_step _ _ _ I Hst Hne) as (_ & Hr & _ & Hf & ->).
    by apply generation_resets_attempts.
Qed.

Lemma autoSpeak_attempts_bounded_witness :
  reachable sListened
  /\ Comp.autoSpeakAttempts (refs (core sListened)) <= 3
  /\ 3 <= Comp.autoSpeakAttempts (refs cAtLimit)
  /\ Comp.isTTSLocked (refs (autoSpeakBody (js "Hi")
                               (TTS.closure (tts cAtLimit)) cAtLimit)) = false
  /\ step DebounceTimerFires sListened = Some sGenerating
  /\ geminiRequests (core sGenerating) <> geminiRequests (core sListened)
  /\ Comp.autoSpeakAttempts (refs (core sGenerating)) = 0.
Proof.
  assert (H3 : 3 <= Comp.autoSpeakAttempts (refs cAtLimit))
    by (apply Nat.leb_le; vm_compute; reflexivity).
  assert (Hst : step DebounceTimerFires sListened = Some sGenerating)
    by (vm_compute; reflexivity).
  assert (Hne : geminiRequests (core sGenerating)
                <> geminiRequests (core sListened))
    by (intros X; vm_compute in X; discriminate X).
  destruct (autoSpeak_attempts_bounded sListened reachable_listened)
    as (A & B & C).
  split; [exact reachable_listened|]. split; [exact A|].
  split; [exact H3|]. split; [|split; [exact Hst|split; [exact Hne|]]].
  - exact (proj1 (proj2 (B (js "Hi") (TTS.closure (tts cAtLimit)) cAtLimit H3))).
  - exact (C DebounceTimerFires sGenerating Hst Hne).
Defined.

(* ---------- C4 ---------- *)

Lemma transcriptChangedAt_Step s e s' :
  Step s e s' ->
  transcriptChangedAt s'
  = if bool_decide (Comp.transcription (comp (core s))
                    = Comp.transcription (comp (core s')))
    then transcriptChangedAt s else now (core s').
Proof.
  intros H. destruct H; rewrite ?commit_comp, ?commit_now;
    try reflexivity; simpl; by rewrite bool_decide_true.
Qed.

(** C4. A step of a running system that sends a request to the reasoning
    client is the firing of the debounce timer, and at that moment: the
    transcript is not blank; it has not changed for 2000 ms
    ([transcriptChangedAt] is the time of the step that last changed it,
    as the last part says); no generation is in flight ([isGenerating] is
    [false] and no request is pending); and no response is pending.  The
    request carries the trimmed transcript, and [isGenerating] is [true]
    afterwards. *)
Theorem generation_only_after_debounce s e s' :
  reachable s -> step e s = Some s' ->
  geminiRequests (core s') <> geminiRequests (core s) ->
  e = DebounceTimerFires
  /\ nonBlank (Comp.transcription (comp (core s))) = true
  /\ transcriptChangedAt s + 2000 <= now (core s)
  /\ Comp.isGenerating (comp (core s)) = false
  /\ pendingFetches (core s) = 0
  /\ Comp.generatedResponse (comp (core s)) = []
  /\ geminiRequests (core s')
     = geminiRequests (core s) ++ [trim (Comp.transcription (comp (core s)))]
  /\ Comp.isGenerating (comp (core s')) = true
  /\ (forall s0 e0 s1, step e0 s0 = Some s1 ->
        transcriptChangedAt s1
        = if bool_decide (Comp.transcription (comp (core s0))
                          = Comp.transcription (comp (core s1)))
          then transcriptChangedAt s0 else now (core s1)).
Proof.
  intros Hs Hst Hne. pose proof (reachable_Inv _ Hs) as I.
  apply step_Step in Hst.
  destruct (generation_step _ _ _ I Hst Hne) as (-> & Hr & Hle & Hf & ->).
  destruct (debounceReady_parts _ Hr) as (_ & Hn & Hg & Hp).
  destruct (sendToGemini_generating _ _ Hf) as [Hg' _].
  pose proof (inv_gen _ I) as G. unfold genOK in G. rewrite Hg in G.
  repeat split; auto.
  - rewrite commit_requests, sendToGemini_requests, Hf. reflexivity.
  - by rewrite commit_comp.
  - intros s0 e0 s1 H. apply transcriptChangedAt_Step with (e := e0).
    by apply step_Step.
Qed.

Lemma generation_only_after_debounce_witness :
  reachable sListened
  /\ step DebounceTimerFires sListened = Some sGenerating
  /\ geminiRequests (core sGenerating) <> geminiRequests (core sListened)
  /\ transcriptChangedAt sListened + 2000 <= now (core sListened)
  /\ geminiRequests (core sGenerating)
     = geminiRequests (core sListened)
       ++ [trim (Comp.transcription (comp (core sListened)))].
Proof.
  assert (Hst : step DebounceTimerFires sListened = Some sGenerating)
    by (vm_compute; reflexivity).
  assert (Hne : geminiRequests (core sGenerating)
                <> geminiRequests (core sListened))
    by (intros X; vm_compute in X; discriminate X).
  destruct (generation_only_after_debounce sListened DebounceTimerFires
              sGenerating reachable_listened Hst Hne)
    as (_ & _ & A & _ & _ & _ & B & _).
  split; [exact reachable_listened|]. split; [exact Hst|].
  split; [exact Hne|]. split; [exact A | exact B].
Defined.

(* ---------- C5 ---------- *)

Lemma worker_init probe v t w :
  let r := Worker.onmessage probe {| type := INIT; text := t; voiceId := v |} w in
  Worker.useFallback (fst r) = true
  /\ Worker.isReady (fst r) = true
  /\ List.filter isREADY (snd r) = [READY (Some Worker.browserVoice) true].
Proof. destruct probe; repeat split; reflexivity. Qed.

Lemma run_fallback es s s' :
  run es s = Some s' ->
  (TTS.useFallback (tts (core s)) = true ->
   TTS.useFallback (tts (core s')) = true)
  /\ (Worker.useFallback (worker (core s)) = true ->
      Worker.useFallback (worker (core s')) = true).
Proof.
  revert s. induction es as [|e es IH]; intros s; simpl.
  - intros [= <-]. auto.
  - destruct (step e s) as [s1|] eqn:E; simpl; [|discriminate].
    intros H. destruct (IH _ H) as [A B].
    destruct (step_fallback _ _ _ (step_Step _ _ _ E)) as [A1 B1]. auto.
Qed.

Lemma run_no_new_SPEAK es s s' :
  reachable s -> run es s = Some s' ->
  TTS.useFallback (tts (core s)) = true ->
  forall r, r ∈ toWorker (core s') -> isSPEAK r = true -> r ∈ toWorker (core s).
Proof.
  revert s. induction es as [|e es IH]; intros s Hs; simpl.
  - intros [= <-]. auto.
  - destruct (step e s) as [s1|] eqn:E; simpl; [|discriminate].
    intros H F r Hr Hsp.
    pose proof (step_Step _ _ _ E) as St.
    apply (step_no_new_SPEAK s e s1); auto using reachable_Inv.
    apply (IH s1); auto.
    + by eapply reachable_step.
    + by apply (step_fallback _ _ _ St).
Qed.

Lemma lookup_snoc {A} (l : list A) x : (l ++ [x]) !! length l = Some x.
Proof. rewrite lookup_app_r by lia. by rewrite Nat.sub_diag. Qed.

Lemma delete_snoc {A} (l : list A) x : delete (length l) (l ++ [x]) = l.
Proof.
  induction l as [|a l IH]; simpl; [done|]. by rewrite IH.
Qed.

Lemma initTimeoutFires_fallback i c c' :
  initTimeoutFires i c = Some c' ->
  TTS.useFallback (tts c') = true
  /\ TTS.isInitialized (tts c') = true
  /\ TTS.isLoading (tts c') = false.
Proof.
  unfold initTimeoutFires. destruct (initTimeouts c !! i) as [dl|]; simpl;
    [|discriminate].
  destruct (dl <=? now c); [|discriminate]. by intros [= <-].
Qed.

Lemma initialize_timeout_fires v c d :
  2000 <= d ->
  exists c',
    initTimeoutFires (length (initTimeouts c))
      (upd_now (fun n => n + d) (initialize false v c)) = Some c'
    /\ initTimeouts c' = initTimeouts c.
Proof.
  intros Hd. unfold initTimeoutFires, initialize, postMessage. simpl.
  rewrite lookup_snoc. simpl.
  assert (L : (now c + 2000 <=? now c + d) = true) by (apply Nat.leb_le; lia).
  rewrite L. eexists. split; [reflexivity|]. simpl. apply delete_snoc.
Qed.

Lemma step_InitTimeoutFires i s s' :
  step (InitTimeoutFires i) s = Some s' ->
  exists c', initTimeoutFires i (core s) = Some c' /\ s' = commit s c'.
Proof.
  intros H. apply step_Step in H.
  inversion H as [| | | | | |e c' Hh]; subst. eauto.
Qed.

Lemma speak_uses_fallback t c :
  speak {| TTS.c_isInitialized := true; TTS.c_useFallback := true;
           TTS.c_isSpeaking := false |} t c
  = speakWithBrowser FromSpeak t
      (upd_tts (TTS.setIsSpeaking true) (upd_tts (TTS.setError None) c)).
Proof. reflexivity. Qed.

(** C5. Initialization in the worker always fails over: whatever the model
    check says, an [INIT] message leaves the worker ready in fallback mode
    and makes it post exactly one [READY], with the fallback flag set.  The
    hook switches to fallback on such a [READY], and when a timeout of
    [initialize] fires: the timeout [initialize] sets can fire once 2000 ms
    have passed, and whenever one fires, in the hook alone or as a step of
    the running system, the hook is left initialized and in fallback mode.
    From then on, through any sequence of steps of the running system,
    [useFallback] stays [true] in the hook (and in the worker), and no
    [SPEAK] message is posted to the worker: an accepted [speak] goes to
    [speakWithBrowser]. *)
Theorem fallback_is_permanent s :
  reachable s ->
  (forall probe v t w,
      let r := Worker.onmessage probe
                 {| type := INIT; text := t; voiceId := v |} w in
      Worker.useFallback (fst r) = true
      /\ Worker.isReady (fst r) = true
      /\ List.filter isREADY (snd r) = [READY (Some Worker.browserVoice) true])
  /\ (forall v c,
        TTS.useFallback (tts (hook_onmessage (READY v true) c)) = true
        /\ TTS.isInitialized (tts (hook_onmessage (READY v true) c)) = true)
  /\ (forall c,
        TTS.useFallback (tts (initTimeoutBody c)) = true
        /\ TTS.isInitialized (tts (initTimeoutBody c)) = true)
  /\ (forall i c c',
        initTimeoutFires i c = Some c' ->
        TTS.useFallback (tts c') = true
        /\ TTS.isInitialized (tts c') = true
        /\ TTS.isLoading (tts c') = false)
  /\ (forall v c d,
        2000 <= d ->
        exists c',
          initTimeoutFires (length (initTimeouts c))
            (upd_now (fun n => n + d) (initialize false v c)) = Some c'
          /\ TTS.useFallback (tts c') = true)
  /\ (forall i s',
        step (InitTimeoutFires i) s = Some s' ->
        TTS.useFallback (tts (core s')) = true
        /\ TTS.isInitialized (tts (core s')) = true)
  /\ (forall es s',
        run es s = Some s' ->
        (TTS.useFallback (tts (core s)) = true ->
         TTS.useFallback (tts (core s')) = true)
        /\ (Worker.useFallback (worker (core s)) = true ->
            Worker.useFallback (worker (core s')) = true))
  /\ (forall es s',
        run es s = Some s' ->
        TTS.useFallback (tts (core s)) = true ->
        forall r, r ∈ toWorker (core s') -> isSPEAK r = true ->
                  r ∈ toWorker (core s))
  /\ (forall t c,
        speak {| TTS.c_isInitialized := true; TTS.c_useFallback := true;
                 TTS.c_isSpeaking := false |} t c
        = speakWithBrowser FromSpeak t
            (upd_tts (TTS.setIsSpeaking true)
               (upd_tts (TTS.setError None) c))).
Proof.
  intros Hs.
  split; [exact worker_init|]. split; [|split; [|split; [|split; [|split]]]].
  - intros v c. unfold hook_onmessage. simpl.
    repeat (case_match; simpl); auto.
  - intros c. split; reflexivity.
  - exact initTimeoutFires_fallback.
  - intros v c d Hd.
    destruct (initialize_timeout_fires v c d Hd) as (c' & E & F).
    exists c'. split; [exact E|].
    exact (proj1 (initTimeoutFires_fallback _ _ _ E)).
  - intros i s' H. destruct (step_InitTimeoutFires _ _ _ H) as (c' & E & ->).
    rewrite commit_tts.
    destruct (initTimeoutFires_fallback _ _ _ E) as (A & B & _). by split.
  - split; [intros es s'; apply run_fallback|].
    split; [intros es s'; by apply run_no_new_SPEAK|].
    exact speak_uses_fallback.
Qed.

Lemma fallback_is_permanent_witness :
  reachable sAnswered
  /\ run speechNeverStarts sAnswered = Some sSpeechFailed
  /\ TTS.useFallback (tts (core sAnswered)) = true
  /\ TTS.useFallback (tts (core sSpeechFailed)) = true
  /\ reachable sInitPending
  /\ TTS.useFallback (tts (core sInitPending)) = false
  /\ exists s',
       step (InitTimeoutFires 0) sInitPending = Some s'
       /\ TTS.useFallback (tts (core s')) = true.
Proof.
  assert (F : TTS.useFallback (tts (core sAnswered)) = true)
    by (vm_compute; reflexivity).
  destruct (fallback_is_permanent sAnswered reachable_answered)
    as (_ & _ & _ & _ & _ & _ & A & _).
  split; [exact reachable_answered|]. split; [exact run_speechFailed|].
  split; [exact F|].
  split; [exact (proj1 (A speechNeverStarts sSpeechFailed run_speechFailed) F)|].
  assert (R : reachable sInitPending).
  { apply (reachable_run workerSilent pageLoaded);
      [constructor | vm_compute; reflexivity]. }
  assert (H : step (InitTimeoutFires 0) sInitPending
              = Some (after [InitTimeoutFires 0] sInitPending))
    by (vm_compute; reflexivity).
  split; [exact R|]. split; [vm_compute; reflexivity|].
  eexists. split; [exact H|].
  destruct (fallback_is_permanent sInitPending R)
    as (_ & _ & _ & _ & _ & B & _).
  exact (proj1 (B 0 _ H)).
Defined.

(* ===================================================================== *)
(** * Further properties of the worker, the hook and the component *)
(* ===================================================================== *)

(* ---------- white space ---------- *)

Lemma trimStart_split s :
  exists p, s = p ++ trimStart s /\ blank p = true.
Proof.
  induction s as [|c s (p & Hs & Hp)]; simpl.
  - by exists [].
  - destruct (isWhiteSpace c) eqn:E.
    + exists (c :: p). simpl. rewrite E, Hp. split; [by rewrite <- Hs | done].
    + by exists [].
Qed.

Lemma trimStart_head s c r :
  trimStart s = c :: r -> isWhiteSpace c = false.
Proof.
  induction s as [|d s IH]; simpl; [discriminate|].
  destruct (isWhiteSpace d) eqn:E; [exact IH|]. by intros [= <- _].
Qed.

Lemma trimStart_blank s : trimStart s = [] <-> blank s = true.
Proof.
  induction s as [|c s IH]; simpl; [done|].
  destruct (isWhiteSpace c); simpl; [exact IH|]. split; discriminate.
Qed.

Lemma trimStart_fixed s :
  (forall c r, s = c :: r -> isWhiteSpace c = false) -> trimStart s = s.
Proof.
  destruct s as [|c r]; [done|]. intros H. simpl.
  by rewrite (H c r eq_refl).
Qed.

Lemma blank_app p q : blank (p ++ q) = blank p && blank q.
Proof. apply forallb_app. Qed.

Lemma blank_rev p : blank (rev p) = blank p.
Proof.
  induction p as [|c p IH]; [done|]. simpl.
  rewrite blank_app, IH. simpl. rewrite andb_true_r. apply andb_comm.
Qed.

(** [trim] removes a blank prefix and a blank suffix, and what is left
    neither begins nor ends with white space. *)
Lemma trim_split s :
  exists p q, s = p ++ trim s ++ q /\ blank p = true /\ blank q = true.
Proof.
  destruct (trimStart_split s) as (p & Hs & Hp).
  destruct (trimStart_split (rev (trimStart s))) as (q & Hr & Hq).
  exists p, (rev q). unfold trim, trimEnd.
  split; [|by rewrite blank_rev].
  rewrite <- rev_app_distr, <- Hr, rev_involutive. exact Hs.
Qed.

Lemma trim_first s c r : trim s = c :: r -> isWhiteSpace c = false.
Proof.
  unfold trim, trimEnd. intros H.
  destruct (trimStart_split (rev (trimStart s))) as (q & Hr & _).
  apply (f_equal (@rev N)) in Hr. rewrite rev_involutive, rev_app_distr in Hr.
  rewrite H in Hr. simpl in Hr. by apply trimStart_head in Hr.
Qed.

Lemma trim_last s c r : trim s = r ++ [c] -> isWhiteSpace c = false.
Proof.
  unfold trim, trimEnd. intros H.
  apply (f_equal (@rev N)) in H. rewrite rev_involutive, rev_app_distr in H.
  simpl in H. by apply trimStart_head in H.
Qed.

Lemma trim_blank s : trim s = [] <-> blank s = true.
Proof.
  split.
  - intros H. destruct (trim_split s) as (p & q & Hs & Hp & Hq).
    rewrite H in Hs. rewrite Hs. simpl. by rewrite blank_app, Hp, Hq.
  - intros H. unfold trim, trimEnd.
    apply trimStart_blank in H. by rewrite H.
Qed.

Lemma trim_idempotent s : trim (trim s) = trim s.
Proof.
  unfold trim at 1. rewrite trimStart_fixed by apply trim_first.
  unfold trimEnd. rewrite trimStart_fixed; [apply rev_involutive|].
  intros c r H. apply (f_equal (@rev N)) in H.
  rewrite rev_involutive in H. simpl in H. by apply trim_last in H.
Qed.

(* ---------- the worker, message by message ---------- *)

(** X1. A worker that is ready answers a [SPEAK] message by its text: the
    error 'No text provided' exactly when the text is white space only,
    and otherwise a [SPEAK_REQUEST] whose text is the given one without a
    blank prefix and a blank suffix, and neither begins nor ends with white
    space. *)
Theorem worker_answers_speak_by_text probe ev w t :
  type ev = SPEAK -> Worker.isReady w = true -> text ev = Some t ->
  Worker.onmessage probe ev w
  = (w, [if blank t then ERROR (js "No text provided")
         else SPEAK_REQUEST (trim t) (Worker.voiceOrDefault (voiceId ev)) true])
  /\ (exists p q, t = p ++ trim t ++ q /\ blank p = true /\ blank q = true)
  /\ (forall c r, trim t = c :: r -> isWhiteSpace c = false)
  /\ (forall c r, trim t = r ++ [c] -> isWhiteSpace c = false).
Proof.
  intros Hty Hr Ht.
  split; [|split; [apply trim_split | split; [apply trim_first | apply trim_last]]].
  unfold Worker.onmessage, Worker.noText. rewrite Hty, Hr, Ht. simpl.
  destruct (blank t) eqn:B.
  - apply trim_blank in B. rewrite B. simpl. by rewrite orb_true_r.
  - assert (Hn : trim t <> []) by (rewrite trim_blank; congruence).
    rewrite (trim_nonempty_truthy _ Hn).
    apply truthy_true in Hn. by rewrite Hn.
Qed.

Lemma worker_answers_speak_by_text_witness :
  type speakHello = SPEAK /\ Worker.isReady readyWorker = true
  /\ text speakHello = Some (js "  hello ")
  /\ Worker.onmessage Worker.ModelFound speakHello readyWorker
     = (readyWorker,
        [if blank (js "  hello ") then ERROR (js "No text provided")
         else SPEAK_REQUEST (trim (js "  hello "))
                (Worker.voiceOrDefault (voiceId speakHello)) true]).
Proof.
  do 3 (split; [reflexivity|]).
  exact (proj1 (worker_answers_speak_by_text Worker.ModelFound speakHello
                  readyWorker (js "  hello ") eq_refl eq_refl eq_refl)).
Defined.

Lemma workerSession_cons probe r ms w :
  workerSession ((probe, r) :: ms) w
  = (fst (workerSession ms (fst (Worker.onmessage probe r w))),
     snd (Worker.onmessage probe r w)
     ++ snd (workerSession ms (fst (Worker.onmessage probe r w)))).
Proof.
  simpl. destruct (Worker.onmessage probe r w) as [w1 out1]. simpl.
  by destruct (workerSession ms w1).
Qed.

Lemma onmessage_state probe r w :
  fst (Worker.onmessage probe r w)
  = match type r with INIT => readyWorker | _ => w end.
Proof.
  unfold Worker.onmessage.
  destruct (type r), probe; simpl; repeat case_match; reflexivity.
Qed.

Lemma onmessage_replies probe r w :
  let out := snd (Worker.onmessage probe r w) in
  length out = replyCount (probe, r)
  /\ forallb (fun m => negb (isAUDIO m)) out = true
  /\ List.filter isREADY out
     = if isINIT (probe, r) then [READY (Some Worker.browserVoice) true]
       else [].
Proof.
  unfold Worker.onmessage, replyCount, isINIT. simpl.
  destruct (type r), probe; simpl; repeat case_match; auto.
Qed.

Lemma workerTurn_waitingINIT e a a' out :
  workerTurn e a = Some (a', out) -> waitingINIT a -> waitingINIT a'.
Proof.
  unfold waitingINIT. intros H W. destruct e as [r|i probe]; simpl in H.
  - destruct (type r) eqn:T.
    { injection H as <- _. simpl. apply Forall_app. split; [exact W|].
      by constructor. }
    all: destruct (Worker.onmessage _ r (vars a)); injection H as <- _;
      exact W.
  - destruct (waiting a !! i) as [r|]; simpl in H; [|discriminate].
    destruct (Worker.onmessage probe r (vars a)).
    injection H as <- _. simpl. by apply Forall_delete.
Qed.

Lemma workerTurn_spec e a a' out :
  waitingINIT a -> workerTurn e a = Some (a', out) ->
  vars a' = (if isSettled e then readyWorker else vars a)
  /\ length (waiting a') + (if isSettled e then 1 else 0)
     = length (waiting a) + (if isPostedINIT e then 1 else 0)
  /\ length out = turnReplies e
  /\ forallb (fun m => negb (isAUDIO m)) out = true
  /\ List.filter isREADY out
     = (if isSettled e then [READY (Some Worker.browserVoice) true] else []).
Proof.
  intros W H. destruct e as [r|i probe]; simpl in H.
  - pose proof (onmessage_state Worker.ModelMissing r (vars a)) as S.
    pose proof (onmessage_replies Worker.ModelMissing r (vars a)) as (L & A & R).
    unfold replyCount, isINIT in L, R. simpl in L, R. simpl.
    destruct (type r) eqn:T.
    { injection H as <- <-. simpl. rewrite length_app. simpl.
      repeat split; auto with lia. }
    all: destruct (Worker.onmessage _ r (vars a)) as [w o];
      injection H as <- <-; simpl in *; repeat split; auto with lia.
  - destruct (waiting a !! i) as [r|] eqn:Hl; simpl in H; [|discriminate].
    assert (T : type r = INIT).
    { unfold waitingINIT in W. rewrite Forall_lookup in W. by eapply W. }
    pose proof (onmessage_state probe r (vars a)) as S.
    pose proof (onmessage_replies probe r (vars a)) as (L & A & R).
    unfold replyCount, isINIT in L, R. simpl in L, R. rewrite T in S, L, R.
    destruct (Worker.onmessage probe r (vars a)) as [w o].
    injection H as <- <-. simpl in *.
    pose proof (length_delete (waiting a) i (mk_is_Some _ _ Hl)) as D.
    assert (0 < length (waiting a)) by (apply lookup_lt_Some in Hl; lia).
    repeat split; auto with lia.
Qed.

(** X2. The variables of the worker change only when the request of an
    [INIT] is settled.  Through any turns of its event loop, messages
    arriving while handlers of [INIT] wait included, the worker ends ready,
    in fallback mode, with the one voice 'browser-speech-synthesis' if the
    request of some [INIT] was settled, and with the variables it began
    with if none was; and every [INIT] that arrived is either settled or
    still waiting. *)
Theorem worker_state_changes_when_init_settles es a a' out :
  waitingINIT a ->
  workerTurns es a = Some (a', out) ->
  vars a' = (if existsb isSettled es then readyWorker else vars a)
  /\ length (waiting a') + length (List.filter isSettled es)
     = length (waiting a) + length (List.filter isPostedINIT es)
  /\ waitingINIT a'.
Proof.
  revert a a' out. induction es as [|e es IH]; intros a a' out W H.
  - injection H as <- _. simpl. split; [done|]. split; [lia | done].
  - simpl in H.
    destruct (workerTurn e a) as [[a1 out1]|] eqn:E; simpl in H;
      [|discriminate].
    destruct (workerTurns es a1) as [[a2 out2]|] eqn:E2; simpl in H;
      [|discriminate].
    injection H as <- _.
    pose proof (workerTurn_waitingINIT _ _ _ _ E W) as W1.
    destruct (workerTurn_spec _ _ _ _ W E) as (S1 & L1 & _).
    destruct (IH _ _ _ W1 E2) as (S2 & L2 & W2).
    split; [|split; [|exact W2]].
    + rewrite S2, S1. simpl. by destruct (isSettled e), (existsb isSettled es).
    + simpl. destruct (isSettled e), (isPostedINIT e); simpl; lia.
Qed.

Lemma worker_state_changes_when_init_settles_witness :
  waitingINIT asyncInitial
  /\ exists a' out,
       workerTurns speakDuringInit asyncInitial = Some (a', out)
       /\ vars a' = readyWorker.
Proof.
  assert (W : waitingINIT asyncInitial) by constructor.
  assert (H : workerTurns speakDuringInit asyncInitial
              = Some ({| vars := readyWorker; waiting := [] |},
                      [ERROR (js "Worker not ready for SPEAK");
                       READY (Some Worker.browserVoice) true;
                       VOICES [Worker.browserVoice] true]))
    by (vm_compute; reflexivity).
  split; [exact W|]. eexists. eexists. split; [exact H|].
  exact (proj1 (worker_state_changes_when_init_settles _ _ _ _ W H)).
Defined.

(** X3. The replies of the worker, through any turns of its event loop.  A
    [SPEAK], a [GET_VOICES] and a [STOP] get one reply each, at once; an
    [INIT] gets none when it arrives and two when its request is settled;
    any other message gets none.  No reply is an [AUDIO] buffer, and the
    [READY] replies are one for each settled [INIT], each with the fallback
    flag set.  So a [SPEAK] that arrives while the first [INIT] waits is
    refused: the worker is not ready yet. *)
Theorem worker_replies_in_any_order es a a' out :
  waitingINIT a ->
  workerTurns es a = Some (a', out) ->
  length out = list_sum (map turnReplies es)
  /\ forallb (fun m => negb (isAUDIO m)) out = true
  /\ List.filter isREADY out
     = repeat (READY (Some Worker.browserVoice) true)
              (length (List.filter isSettled es))
  /\ (forall r es', es = Posted r :: es' -> type r = SPEAK ->
      Worker.isReady (vars a) = false ->
      exists out', out = ERROR (js "Worker not ready for SPEAK") :: out').
Proof.
  revert a a' out. induction es as [|e es IH]; intros a a' out W H.
  - injection H as _ <-. by repeat split.
  - simpl in H.
    destruct (workerTurn e a) as [[a1 out1]|] eqn:E; simpl in H;
      [|discriminate].
    destruct (workerTurns es a1) as [[a2 out2]|] eqn:E2; simpl in H;
      [|discriminate].
    injection H as _ <-.
    pose proof (workerTurn_waitingINIT _ _ _ _ E W) as W1.
    destruct (workerTurn_spec _ _ _ _ W E) as (_ & _ & L1 & A1 & R1).
    destruct (IH _ _ _ W1 E2) as (L2 & A2 & R2 & _).
    rewrite length_app, forallb_app, List.filter_app, L1, L2, A1, A2, R1, R2.
    split; [done|]. split; [done|]. split.
    + simpl. by destruct (isSettled e).
    + intros r es' [= -> ->] T N. simpl in E. rewrite T in E.
      unfold Worker.onmessage in E. rewrite T, N in E. simpl in E.
      injection E as _ <-. by eexists.
Qed.

Lemma worker_replies_in_any_order_witness :
  waitingINIT asyncInitial
  /\ exists a' out,
       workerTurns speakDuringInit asyncInitial = Some (a', out)
       /\ out = [ERROR (js "Worker not ready for SPEAK");
                 READY (Some Worker.browserVoice) true;
                 VOICES [Worker.browserVoice] true]
       /\ length out = list_sum (map turnReplies speakDuringInit).
Proof.
  assert (W : waitingINIT asyncInitial) by constructor.
  assert (H : workerTurns speakDuringInit asyncInitial
              = Some ({| vars := readyWorker; waiting := [] |},
                      [ERROR (js "Worker not ready for SPEAK");
                       READY (Some Worker.browserVoice) true;
                       VOICES [Worker.browserVoice] true]))
    by (vm_compute; reflexivity).
  split; [exact W|]. eexists. eexists. split; [exact H|].
  split; [reflexivity|].
  exact (proj1 (worker_replies_in_any_order _ _ _ _ W H)).
Defined.

Lemma workerTurns_app es1 es2 a a1 out1 :
  workerTurns es1 a = Some (a1, out1) ->
  workerTurns (es1 ++ es2) a
  = '(a2, out2) ← workerTurns es2 a1; Some (a2, out1 ++ out2).
Proof.
  revert a a1 out1. induction es1 as [|e es1 IH]; intros a a1 out1 H.
  - injection H as <- <-. simpl. destruct (workerTurns es2 a) as [[a2 out2]|];
      reflexivity.
  - simpl in H. simpl.
    destruct (workerTurn e a) as [[b o]|]; simpl in *; [|discriminate].
    destruct (workerTurns es1 b) as [[b2 o2]|] eqn:E; simpl in H;
      [|discriminate].
    injection H as <- <-. rewrite (IH _ _ _ E).
    destruct (workerTurns es2 b2) as [[a2 out2]|]; simpl; [|reflexivity].
    by rewrite app_assoc.
Qed.

(** [workerSession] is the special case of [workerTurns] in which no
    message arrives while a handler waits. *)
Lemma workerSession_oneByOne ms w :
  workerTurns (oneByOne ms) {| vars := w; waiting := [] |}
  = Some ({| vars := fst (workerSession ms w); waiting := [] |},
          snd (workerSession ms w)).
Proof.
  revert w. induction ms as [|[probe r] ms IH]; intros w; [reflexivity|].
  rewrite workerSession_cons. cbn [fst snd].
  change (oneByOne ((probe, r) :: ms))
    with ((if isINIT (probe, r) then [Posted r; FetchSettled 0 probe]
           else [Posted r]) ++ oneByOne ms).
  assert (E : workerTurns (if isINIT (probe, r)
                           then [Posted r; FetchSettled 0 probe]
                           else [Posted r]) {| vars := w; waiting := [] |}
              = Some ({| vars := fst (Worker.onmessage probe r w);
                         waiting := [] |},
                      snd (Worker.onmessage probe r w))).
  { assert (P : type r <> INIT ->
                Worker.onmessage Worker.ModelMissing r w
                = Worker.onmessage probe r w).
    { unfold Worker.onmessage. by destruct (type r). }
    unfold isINIT. simpl.
    destruct (Worker.onmessage probe r w) as [w1 o1] eqn:E.
    destruct (type r) eqn:T; simpl; rewrite T; simpl;
      rewrite ?P, ?E by congruence; simpl; by rewrite ?app_nil_r. }
  rewrite (workerTurns_app _ _ _ _ _ E), IH. reflexivity.
Qed.

(** X4. A worker that has had no [INIT] refuses every [SPEAK] with the
    error 'Worker not ready for SPEAK', whatever the text, reports no voice
    (and no fallback) to [GET_VOICES], and still relays every [STOP]. *)
Theorem worker_before_init ms :
  existsb isINIT ms = false ->
  workerSession ms Worker.initial
  = (Worker.initial, flat_map replyBeforeInit ms).
Proof.
  induction ms as [|[probe r] ms IH]; [done|].
  intros H. simpl in H. apply orb_false_iff in H as [H1 H2].
  rewrite workerSession_cons. unfold isINIT in H1. simpl in H1.
  assert (E : Worker.onmessage probe r Worker.initial
              = (Worker.initial, replyBeforeInit (probe, r))).
  { unfold Worker.onmessage, replyBeforeInit. simpl.
    destruct (type r); try discriminate; reflexivity. }
  rewrite E. simpl. by rewrite (IH H2).
Qed.

Lemma worker_before_init_witness :
  existsb isINIT earlyMessages = false
  /\ workerSession earlyMessages Worker.initial
     = (Worker.initial, flat_map replyBeforeInit earlyMessages).
Proof.
  split; [reflexivity|]. exact (worker_before_init earlyMessages eq_refl).
Defined.

(* ---------- the hook ---------- *)

Lemma startsWith_spec p s : startsWith p s = true <-> exists r, s = p ++ r.
Proof.
  revert s. induction p as [|a p IH]; intros s; simpl.
  - split; eauto.
  - destruct s as [|b s]; [split; [discriminate | by intros [r H]]|].
    rewrite andb_true_iff, N.eqb_eq, IH. split.
    + intros (-> & r & ->). eauto.
    + intros (r & [= -> ->]). eauto.
Qed.

Lemma includes_spec n h :
  includes n h = true <-> exists a b, h = a ++ n ++ b.
Proof.
  split.
  - induction h as [|c h IH]; simpl; rewrite orb_true_iff.
    + intros [H|H]; [|discriminate].
      apply startsWith_spec in H as [r ->]. by exists [], r.
    + intros [H|H].
      * apply startsWith_spec in H as [r ->]. by exists [], r.
      * destruct (IH H) as (a & b & ->). by exists (c :: a), b.
  - intros (a & b & ->). induction a as [|c a IH]; simpl.
    + assert (H : startsWith n (n ++ b) = true) by (apply startsWith_spec; eauto).
      destruct (n ++ b); simpl in *; by rewrite H.
    + simpl in IH. rewrite IH. apply orb_true_r.
Qed.

Lemma releaseLockViaWindow_tts c : tts (releaseLockViaWindow c) = tts c.
Proof. unfold releaseLockViaWindow. by repeat case_match. Qed.

(** X5. When the promise of [speakWithBrowser] is rejected, an error whose
    message contains 'interrupted' or 'canceled' leaves the error slot of
    the hook as it was; any other message is stored, with its prefix.  A
    call made by [speak] also sets [isSpeaking] to [false]; one made for a
    [SPEAK_REQUEST] leaves it. *)
Theorem interruptions_are_not_reported o msg c :
  let c' := onRejected o msg c in
  ((exists a b, msg = a ++ js "interrupted" ++ b)
   \/ (exists a b, msg = a ++ js "canceled" ++ b) ->
   TTS.error (tts c') = TTS.error (tts c))
  /\ (~ (exists a b, msg = a ++ js "interrupted" ++ b) ->
      ~ (exists a b, msg = a ++ js "canceled" ++ b) ->
      TTS.error (tts c') = Some (errorPrefix o ++ msg))
  /\ TTS.isSpeaking (tts c')
     = match o with
       | FromSpeak => false
       | FromSpeakRequest => TTS.isSpeaking (tts c)
       end.
Proof.
  assert (E : notInterruption msg = false <->
              (exists a b, msg = a ++ js "interrupted" ++ b)
              \/ (exists a b, msg = a ++ js "canceled" ++ b)).
  { unfold notInterruption.
    rewrite andb_false_iff, !negb_false_iff, !includes_spec. tauto. }
  unfold onRejected. cbv zeta.
  destruct (notInterruption msg) eqn:N.
  - split; [intros H; apply E in H; discriminate|].
    destruct o; rewrite ?releaseLockViaWindow_tts; simpl; auto.
  - split; [|split].
    + intros _. by destruct o; rewrite ?releaseLockViaWindow_tts.
    + intros H1 H2. destruct (proj1 E eq_refl); contradiction.
    + by destruct o; rewrite ?releaseLockViaWindow_tts.
Qed.

Lemma interruptions_are_not_reported_witness :
  ((exists a b, interruptedMessage = a ++ js "interrupted" ++ b)
   \/ (exists a b, interruptedMessage = a ++ js "canceled" ++ b))
  /\ TTS.error (tts (onRejected FromSpeak interruptedMessage (core sAnswered)))
     = TTS.error (tts (core sAnswered)).
Proof.
  assert (H : (exists a b, interruptedMessage = a ++ js "interrupted" ++ b)
              \/ (exists a b, interruptedMessage = a ++ js "canceled" ++ b)).
  { left. exists (js "speech was "), (js " by the user"). reflexivity. }
  split; [exact H|].
  exact (proj1 (interruptions_are_not_reported FromSpeak interruptedMessage
                  (core sAnswered)) H).
Defined.

(** X6. A call of [speak] starts at most one synthesis: it adds one call
    of [speakWithBrowser], or posts one message to the worker, or neither,
    never both; and it does neither when the callback saw [isSpeaking]
    set or the hook not initialized. *)
Theorem speak_starts_at_most_one k t c :
  let c' := speak k t c in
  let started := length (speakOps c') - length (speakOps c) in
  let posted := length (toWorker c') - length (toWorker c) in
  length (speakOps c) <= length (speakOps c')
  /\ length (toWorker c) <= length (toWorker c')
  /\ started + posted <= 1
  /\ (TTS.c_isSpeaking k = true \/ TTS.c_isInitialized k = false ->
      started + posted = 0 /\ comp c' = comp c /\ refs c' = refs c
      /\ TTS.isSpeaking (tts c') = TTS.isSpeaking (tts c)).
Proof.
  unfold speak, speakWithBrowser, onRejected, releaseLockViaWindow,
    cancelSpeech, postMessage, upd_synth.
  destruct (TTS.c_isSpeaking k), (TTS.c_isInitialized k); cbv zeta; simpl;
    try (repeat split; intros; (lia || (try tauto))).
  all: repeat (case_match; simpl); rewrite ?length_app, ?length_map; simpl;
    repeat split; try lia; intros [H|H]; discriminate.
Qed.

Lemma speak_starts_at_most_one_witness :
  (TTS.c_isSpeaking speakingClosure = true
   \/ TTS.c_isInitialized speakingClosure = false)
  /\ comp (speak speakingClosure (js "Hi") (core sAnswered))
     = comp (core sAnswered).
Proof.
  split; [left; reflexivity|].
  destruct (speak_starts_at_most_one speakingClosure (js "Hi") (core sAnswered))
    as (_ & _ & _ & H).
  exact (proj1 (proj2 (H (or_introl eq_refl)))).
Defined.

(** X7. In a browser without speech synthesis, a [speak] the hook accepts
    in fallback mode fails at once: the error slot reads 'TTS error: Speech
    synthesis not supported', [isSpeaking] is [false] again, no call of
    [speakWithBrowser] is in flight, and nothing is posted to the
    worker. *)
Theorem speak_without_speech_synthesis k t c :
  speechSynthesis (window c) = None ->
  TTS.c_isSpeaking k = false -> TTS.c_isInitialized k = true ->
  TTS.c_useFallback k = true ->
  let c' := speak k t c in
  TTS.error (tts c') = Some (js "TTS error: Speech synthesis not supported")
  /\ TTS.isSpeaking (tts c') = false
  /\ speakOps c' = speakOps c /\ toWorker c' = toWorker c
  /\ comp c' = comp c.
Proof.
  intros Hw Hs Hi Hf. unfold speak, speakWithBrowser. rewrite Hs, Hi, Hf.
  cbv zeta. simpl. rewrite Hw.
  unfold onRejected, releaseLockViaWindow.
  replace (notInterruption (js "Speech synthesis not supported")) with true
    by (vm_compute; reflexivity).
  repeat (case_match; simpl); auto.
Qed.

Lemma speak_without_speech_synthesis_witness :
  speechSynthesis (window (core pageLoadedMute)) = None
  /\ TTS.c_isSpeaking idleClosure = false
  /\ TTS.c_isInitialized idleClosure = true
  /\ TTS.c_useFallback idleClosure = true
  /\ TTS.error (tts (speak idleClosure (js "Hi") (core pageLoadedMute)))
     = Some (js "TTS error: Speech synthesis not supported").
Proof.
  do 4 (split; [reflexivity|]).
  exact (proj1 (speak_without_speech_synthesis idleClosure (js "Hi")
                  (core pageLoadedMute) eq_refl eq_refl eq_refl eq_refl)).
Defined.

(** X8. [initialize] does nothing when the hook is initialized.  Otherwise
    it posts one [INIT] with the voice, sets [isLoading], clears the error
    and sets a timeout: the timeout cannot fire before 2000 ms have passed,
    and when it fires it puts the hook in fallback mode, initialized and no
    longer loading, and is gone. *)
Theorem initialize_then_timeout v c d :
  let c1 := initialize false v c in
  let i := length (initTimeouts c) in
  initialize true v c = c
  /\ toWorker c1 = toWorker c ++ [{| type := INIT; text := None; voiceId := v |}]
  /\ TTS.isLoading (tts c1) = true /\ TTS.error (tts c1) = None
  /\ (d < 2000 -> initTimeoutFires i (tick d c1) = None)
  /\ (2000 <= d ->
      exists c', initTimeoutFires i (tick d c1) = Some c'
        /\ TTS.useFallback (tts c') = true
        /\ TTS.isInitialized (tts c') = true
        /\ TTS.isLoading (tts c') = false
        /\ initTimeouts c' = initTimeouts c
        /\ comp c' = comp c /\ refs c' = refs c).
Proof.
  cbv zeta. do 4 (split; [reflexivity|]).
  unfold initTimeoutFires, initialize, tick, postMessage. simpl.
  rewrite lookup_snoc. simpl. split; intros H.
  - by rewrite (proj2 (Nat.leb_gt _ _)) by lia.
  - rewrite (proj2 (Nat.leb_le _ _)) by lia.
    eexists. split; [reflexivity|]. simpl. rewrite delete_snoc. auto 10.
Qed.

Lemma initialize_then_timeout_witness :
  1999 < 2000 /\ 2000 <= 2000
  /\ initTimeoutFires (length (initTimeouts (core pageLoaded)))
       (tick 1999 (initialize false (Some lessac) (core pageLoaded))) = None
  /\ exists c',
       initTimeoutFires (length (initTimeouts (core pageLoaded)))
         (tick 2000 (initialize false (Some lessac) (core pageLoaded)))
       = Some c'
       /\ TTS.useFallback (tts c') = true.
Proof.
  assert (H1 : 1999 < 2000) by lia. assert (H2 : 2000 <= 2000) by lia.
  split; [exact H1|]. split; [exact H2|]. split.
  - exact (proj1 (proj2 (proj2 (proj2 (proj2
             (initialize_then_timeout (Some lessac) (core pageLoaded) 1999)))))
             H1).
  - destruct (proj2 (proj2 (proj2 (proj2 (proj2
               (initialize_then_timeout (Some lessac) (core pageLoaded) 2000)))))
               H2) as (c' & E & F & _).
    exists c'. split; [exact E | exact F].
Defined.

Lemma lookup_putOp i op op' c :
  speakOps c !! i = Some op -> speakOps (putOp i op' c) !! i = Some op'.
Proof.
  intros H. unfold putOp. simpl.
  apply list_lookup_insert_eq. by eapply lookup_lt_Some.
Qed.

(** X9. Once the utterance of a call has started, the timeouts of the call
    do no harm.  [utterance.onstart] sets [isSpeaking] and the two refs of
    the hook; if [startTimeout] was still armed it is cleared, so that
    neither it nor the final timeout can fire.  And whenever a timeout of a
    call whose utterance has started does fire, the state of the hook and
    of the component is unchanged and no promise is settled by it. *)
Theorem started_utterance_outlives_timeouts i op c :
  speakOps c !! i = Some op ->
  (forall c1, opOnStart i c = Some c1 ->
     TTS.isSpeaking (tts c1) = true
     /\ TTS.ttsActuallyStarted (ttsRefs c1) = true
     /\ refs c1 = refs c
     /\ (phase op = Queued ->
         opStartTimeout i c1 = None /\ opFinalTimeout i c1 = None))
  /\ (hasStarted op = true ->
      forall c', opStartTimeout i c = Some c' \/ opFinalTimeout i c = Some c' ->
        tts c' = tts c /\ comp c' = comp c /\ refs c' = refs c
        /\ window c' = window c
        /\ (settled <$> speakOps c') = (settled <$> speakOps c)).
Proof.
  intros Hop. split.
  - intros c1. unfold opOnStart. rewrite Hop. simpl.
    destruct (inQueue op && negb (hasStarted op)); [|discriminate].
    intros [= <-]. do 3 (split; [reflexivity|]). intros Hq.
    unfold opStartTimeout, opFinalTimeout.
    match goal with
    | |- context [speakOps ?x !! i] =>
        assert (E : speakOps x !! i
                    = Some (setOp true (hasEnded op) Finished (primer op)
                              (inQueue op) (settled op) op))
    end.
    { simpl. rewrite Hq. apply list_lookup_insert_eq.
      by eapply lookup_lt_Some. }
    rewrite E. simpl. auto.
  - intros Hs c'.
    assert (K : forall st ph, (settled <$> <[i:=setOp st (hasEnded op) ph
                             (primer op) (inQueue op) (settled op) op]>
                             (speakOps c)) = (settled <$> speakOps c)).
    { intros st ph. rewrite list_fmap_insert. simpl.
      apply list_insert_id. rewrite list_lookup_fmap, Hop. reflexivity. }
    unfold opStartTimeout, opFinalTimeout. rewrite Hop. simpl. rewrite Hs. simpl.
    intros [H|H]; destruct (phase op); try discriminate;
      injection H as <-; unfold putOp; simpl; rewrite K; auto.
Qed.

Lemma started_utterance_outlives_timeouts_witness :
  exists op c1,
    speakOps (core sQueued) !! 0 = Some op
    /\ phase op = Queued
    /\ opOnStart 0 (core sQueued) = Some c1
    /\ opStartTimeout 0 c1 = None.
Proof.
  eexists. eexists.
  assert (H0 : speakOps (core sQueued) !! 0
               = Some (setOp false false Queued NoPrimer true false
                         (newSpeakOp FromSpeak (js "Hi"))))
    by (vm_compute; reflexivity).
  split; [exact H0|]. split; [reflexivity|].
  assert (H1 : opOnStart 0 (core sQueued)
               = Some (default (core sQueued) (opOnStart 0 (core sQueued))))
    by (vm_compute; reflexivity).
  split; [exact H1|].
  exact (proj1 (proj2 (proj2 (proj2
           (proj1 (started_utterance_outlives_timeouts 0 _ (core sQueued) H0)
                  _ H1))) eq_refl)).
Defined.

(** X10. [changeVoice] with a voice that is not in [availableVoices] only
    sets the error.  With an available voice in worker mode it marks the
    hook as not initialized and posts ['CHANGE_VOICE']; the worker has no
    branch for that message, so it posts nothing back and the hook stays
    not initialized.  In fallback mode only the voice and the error slot
    change. *)
Theorem changeVoice_in_worker_mode v c probe :
  (arrayIncludes v (TTS.availableVoices (tts c)) = false ->
   changeVoice v c
   = upd_tts (TTS.setError (Some (js "Voice " ++ v ++ js " not available"))) c)
  /\ (arrayIncludes v (TTS.availableVoices (tts c)) = true ->
      TTS.useFallback (tts c) = false -> toWorker c = [] ->
      exists c2, workerRuns probe (changeVoice v c) = Some c2
        /\ fromWorker c2 = fromWorker c /\ toWorker c2 = []
        /\ worker c2 = worker c
        /\ TTS.isInitialized (tts c2) = false
        /\ TTS.currentVoiceId (tts c2) = Some v
        /\ TTS.error (tts c2) = None)
  /\ (arrayIncludes v (TTS.availableVoices (tts c)) = true ->
      TTS.useFallback (tts c) = true ->
      changeVoice v c
      = upd_tts (TTS.setCurrentVoiceId (Some v))
          (upd_tts (TTS.setError None) c)).
Proof.
  unfold changeVoice. split; [|split].
  - by intros ->.
  - intros -> Hf Hq. cbv zeta. simpl. rewrite Hf. simpl.
    unfold workerRuns, postMessage. simpl. rewrite Hq. simpl.
    eexists. split; [reflexivity|]. simpl. rewrite app_nil_r. auto 10.
  - intros -> Hf. cbv zeta. simpl. by rewrite Hf.
Qed.

Lemma changeVoice_in_worker_mode_witness :
  arrayIncludes lessac (TTS.availableVoices (tts cWorkerMode)) = true
  /\ TTS.useFallback (tts cWorkerMode) = false
  /\ toWorker cWorkerMode = []
  /\ exists c2,
       workerRuns Worker.ModelMissing (changeVoice lessac cWorkerMode) = Some c2
       /\ fromWorker c2 = fromWorker cWorkerMode
       /\ TTS.isInitialized (tts c2) = false.
Proof.
  assert (H1 : arrayIncludes lessac (TTS.availableVoices (tts cWorkerMode))
               = true) by (vm_compute; reflexivity).
  split; [exact H1|]. do 2 (split; [reflexivity|]).
  destruct (proj1 (proj2 (changeVoice_in_worker_mode lessac cWorkerMode
                            Worker.ModelMissing)) H1 eq_refl eq_refl)
    as (c2 & A & B & _ & _ & D & _).
  exists c2. auto.
Defined.

(** X11. [getVoices], there and back.  In fallback mode it reads the
    voices of the browser, which may be none, and posts nothing.  In worker
    mode it posts [GET_VOICES]; once the worker has answered and the hook
    has handled the answer, [availableVoices] is the list of the worker,
    unless the worker is in fallback mode: then the hook leaves its list as
    it is. *)
Theorem getVoices_round_trip c probe :
  (TTS.useFallback (tts c) = true ->
   TTS.availableVoices (tts (getVoices c)) = getBrowserVoices c
   /\ toWorker (getVoices c) = toWorker c)
  /\ (TTS.useFallback (tts c) = false ->
      toWorker c = [] -> fromWorker c = [] ->
      exists c1 c2,
        workerRuns probe (getVoices c) = Some c1
        /\ hookReceives c1 = Some c2
        /\ toWorker c2 = [] /\ fromWorker c2 = []
        /\ TTS.availableVoices (tts c2)
           = if Worker.useFallback (worker c)
             then TTS.availableVoices (tts c)
             else Worker.availableVoices (worker c)).
Proof.
  unfold getVoices. split.
  - by intros ->.
  - intros -> Hq Hf. unfold workerRuns, postMessage. simpl.
    rewrite Hq. simpl. eexists. eexists.
    split; [reflexivity|]. unfold hookReceives. simpl. rewrite Hf. simpl.
    split; [reflexivity|].
    simpl. destruct (Worker.useFallback (worker c)); auto.
Qed.

Lemma getVoices_round_trip_witness :
  TTS.useFallback (tts cWorkerMode) = false
  /\ toWorker cWorkerMode = [] /\ fromWorker cWorkerMode = []
  /\ exists c1 c2,
       workerRuns Worker.ModelMissing (getVoices cWorkerMode) = Some c1
       /\ hookReceives c1 = Some c2
       /\ TTS.availableVoices (tts c2) = [].
Proof.
  do 3 (split; [reflexivity|]).
  destruct (proj2 (getVoices_round_trip cWorkerMode Worker.ModelMissing)
              eq_refl eq_refl eq_refl) as (c1 & c2 & A & B & _ & _ & C).
  exists c1, c2. split; [exact A|]. split; [exact B|].
  rewrite C. vm_compute. reflexivity.
Defined.

Lemma firstVoiceOrDefault_truthy vs : truthy (firstVoiceOrDefault vs) = true.
Proof.
  unfold firstVoiceOrDefault. destruct vs as [|v vs]; [reflexivity|].
  by destruct (truthy v) eqn:E.
Qed.

(** X12. The voices of the fallback.  On a [READY] with the fallback flag,
    if the browser already has voices the hook takes their names at once;
    if it has none yet the hook's list is left as it is (it may be empty)
    and a listener is added, and when the engine later announces its voices
    the hook takes them.  In both cases the current voice is the first
    name, or 'default' when there is none or the first name is empty: it
    is never the empty string. *)
Theorem fallback_voices_arrive y v c vs :
  speechSynthesis (window c) = Some y ->
  let c1 := hook_onmessage (READY v true) c in
  (voices y <> [] ->
   TTS.availableVoices (tts c1) = voices y
   /\ TTS.currentVoiceId (tts c1) = Some (firstVoiceOrDefault (voices y))
   /\ voicesListeners c1 = voicesListeners c)
  /\ (voices y = [] ->
      TTS.availableVoices (tts c1) = TTS.availableVoices (tts c)
      /\ voicesListeners c1 = S (voicesListeners c)
      /\ exists c2, voicesChanged vs c1 = Some c2
           /\ TTS.availableVoices (tts c2) = vs
           /\ TTS.currentVoiceId (tts c2) = Some (firstVoiceOrDefault vs))
  /\ truthy (firstVoiceOrDefault vs) = true.
Proof.
  intros Hy. cbv zeta. unfold hook_onmessage, getBrowserVoices. simpl.
  rewrite Hy. split; [|split; [|apply firstVoiceOrDefault_truthy]].
  - destruct (voices y) eqn:E; [done|]. intros _. simpl. auto.
  - intros ->. simpl. do 2 (split; [reflexivity|]).
    unfold voicesChanged, onVoicesChanged, getBrowserVoices, upd_synth.
    simpl. rewrite Hy. simpl. eexists. split; [reflexivity|]. simpl. auto.
Qed.

Lemma fallback_voices_arrive_witness :
  speechSynthesis (window cNoVoicesYet) = Some silentSynth
  /\ voices silentSynth = []
  /\ exists c2,
       voicesChanged [js "Google US English"]
         (hook_onmessage (READY None true) cNoVoicesYet) = Some c2
       /\ TTS.availableVoices (tts c2) = [js "Google US English"].
Proof.
  do 2 (split; [reflexivity|]).
  destruct (proj2 (proj1 (proj2 (fallback_voices_arrive silentSynth None
                      cNoVoicesYet [js "Google US English"] eq_refl)) eq_refl))
    as [_ (c2 & A & B & _)].
  exists c2. auto.
Defined.

(** In a browser without speech synthesis the [READY] branch ends by the
    [TypeError], the hook being initialized and in fallback mode all the
    same; no listener is added and the voices are left as they are. *)
Lemma ready_without_speech_synthesis v c :
  speechSynthesis (window c) = None ->
  let c' := hook_onmessage (READY v true) c in
  readyThrows (READY v true) c = true
  /\ TTS.isInitialized (tts c') = true
  /\ TTS.useFallback (tts c') = true
  /\ TTS.isLoading (tts c') = false
  /\ TTS.availableVoices (tts c') = TTS.availableVoices (tts c)
  /\ voicesListeners c' = voicesListeners c.
Proof.
  intros H. unfold readyThrows, hook_onmessage, getBrowserVoices. simpl.
  rewrite H. by repeat split.
Qed.

(** X13. In a browser with speech synthesis the initialization always ends
    in fallback mode.  Whether or not the browser has speech recognition
    or an API key, whatever its speech engine is doing and whatever voices
    it has, and whatever the model check of the worker says: one second
    after the page is loaded the component calls [initialize], the worker
    answers, and after its two replies (no handler ends by an exception)
    the hook is initialized, in fallback mode, not loading and with an
    empty error slot, the worker is ready, and both queues are empty.  When
    the timeout of [initialize] fires two seconds later, the state of the
    hook does not change. *)
Theorem initialization_ends_in_fallback supported key y probe :
  exists s0 s s',
    run [Tick 1000; InitTimerFires; WorkerRuns probe]
        (mount supported key (Some y)) = Some s0
    /\ Forall (fun m => readyThrows m (core s0) = false) (fromWorker (core s0))
    /\ run (startupWith probe) (mount supported key (Some y)) = Some s
    /\ TTS.isInitialized (tts (core s)) = true
    /\ TTS.useFallback (tts (core s)) = true
    /\ TTS.isLoading (tts (core s)) = false
    /\ TTS.error (tts (core s)) = None
    /\ Worker.isReady (worker (core s)) = true
    /\ toWorker (core s) = [] /\ fromWorker (core s) = []
    /\ run [Tick 2000; InitTimeoutFires 0] s = Some s'
    /\ tts (core s') = tts (core s)
    /\ initTimeouts (core s') = [].
Proof.
  destruct supported, key, probe, y as [sp pe pa [|v vs]];
    eexists; eexists; eexists; (split; [vm_compute; reflexivity|]);
    (split; [by repeat constructor|]);
    (split; [vm_compute; reflexivity|]);
    vm_compute; repeat split; reflexivity.
Qed.

(* ---------- the running system, once more ---------- *)

Lemma handle_hasSpoken e c c' :
  handle e c = Some c' ->
  Comp.hasSpokenResponse (refs c') = Comp.hasSpokenResponse (refs c).
Proof. intros H. by_cases_on_handler e H. Qed.

Lemma handle_generating e c c' :
  handle e c = Some c' ->
  Comp.isGenerating (comp c') = true ->
  Comp.isGenerating (comp c) = true
  /\ (Comp.generatedResponse (comp c) = [] ->
      Comp.generatedResponse (comp c') = []).
Proof. intros H G. by_cases_on_handler e H. Qed.

Lemma resetSpoken_fresh c :
  Comp.autoSpeakAttempts (refs c) <= 1 ->
  (Comp.hasSpokenResponse (refs c) = false ->
   Comp.autoSpeakAttempts (refs c) = 0) ->
  Comp.autoSpeakAttempts (refs (resetSpoken c)) <= 1
  /\ (Comp.hasSpokenResponse (refs (resetSpoken c)) = false ->
      Comp.autoSpeakAttempts (refs (resetSpoken c)) = 0).
Proof. unfold resetSpoken. case_match; simpl; auto. Qed.

Lemma autoSpeakReady_parts c :
  autoSpeakReady c = true ->
  truthy (Comp.generatedResponse (comp c)) = true
  /\ TTS.isInitialized (tts c) = true
  /\ TTS.isSpeaking (tts c) = false
  /\ nonBlank (Comp.generatedResponse (comp c)) = true
  /\ Comp.hasSpokenResponse (refs c) = false.
Proof.
  unfold autoSpeakReady. rewrite !andb_true_iff, !negb_true_iff. tauto.
Qed.

Lemma autoSpeakReady_resetSpoken c :
  autoSpeakReady c = true -> autoSpeakReady (resetSpoken c) = true.
Proof.
  intros H. unfold resetSpoken. case_match; [|done].
  revert H. unfold autoSpeakReady. simpl.
  rewrite !andb_true_iff, !negb_true_iff. tauto.
Qed.

Lemma commit_inv2 old c :
  Inv2 old ->
  Comp.autoSpeakAttempts (refs c) <= 1 ->
  (Comp.hasSpokenResponse (refs c) = false ->
   Comp.autoSpeakAttempts (refs c) = 0) ->
  (speakTimer old <> None -> Comp.hasSpokenResponse (refs c) = false) ->
  (Comp.isGenerating (comp c) = true ->
   Comp.generatedResponse (comp c) = []
   /\ (Comp.isGenerating (comp (core old)) = true ->
       Comp.hasSpokenResponse (refs c) = false)) ->
  Inv2 (commit old c).
Proof.
  intros [Ja Jf Js Jg] Ha Hf Ht Hg.
  destruct (resetSpoken_fresh c Ha Hf) as [Ra Rf].
  constructor.
  - destruct (commit_core old c) as [-> | ->]; auto.
  - destruct (commit_core old c) as [-> | ->]; auto.
  - assert (K : autoSpeakReady c = true -> autoSpeakReady (core (commit old c)) = true).
    { destruct (commit_core old c) as [-> | ->];
        auto using autoSpeakReady_resetSpoken. }
    simpl. unfold rearm. case_bool_decide as Hd; simpl.
    + intros Hn. apply K. specialize (Js Hn). specialize (Ht Hn).
      apply autoSpeakReady_parts in Js as (J1 & J2 & J3 & J4 & _).
      unfold autoSpeakDeps in Hd. injection Hd as E1 E2 E3 _.
      unfold autoSpeakReady. rewrite <- E1, <- E2, <- E3, J1, J2, J3, J4, Ht.
      reflexivity.
    + destruct (autoSpeakReady c); [auto | congruence].
  - rewrite commit_comp. intros G. destruct (Hg G) as [Hr Hh].
    split; [exact Hr|]. unfold commit; simpl.
    case_bool_decide as Hd.
    + apply Hh. congruence.
    + unfold resetSpoken. by rewrite G.
Qed.

Lemma Inv2_mount supported key y : Inv2 (mount supported key y).
Proof.
  constructor; simpl; try done; try lia.
  all: by destruct supported.
Qed.

Lemma sendToGemini_comp k c :
  reachesFetch k c = true
  /\ Comp.generatedResponse (comp (sendToGemini k c)) = []
  /\ Comp.isGenerating (comp (sendToGemini k c)) = true
  \/ reachesFetch k c = false
     /\ Comp.generatedResponse (comp (sendToGemini k c))
        = Comp.generatedResponse (comp c)
     /\ (Comp.isGenerating (comp (sendToGemini k c)) = true ->
         Comp.isGenerating (comp c) = true).
Proof.
  unfold sendToGemini, reachesFetch.
  destruct (apiKey c), (Comp.g_ttsInitialized k),
    (truthy (Comp.g_transcription k)); simpl; auto.
  right. repeat split; auto. discriminate.
Qed.

Lemma Inv2_drop_speakTimer s : Inv2 s -> Inv2 (set_speakTimer None s).
Proof. intros []; constructor; simpl; auto; congruence. Qed.

Lemma Inv2_same s s' :
  core s' = core s -> speakTimer s' = speakTimer s -> Inv2 s -> Inv2 s'.
Proof. intros Hc Ht []; constructor; rewrite ?Hc, ?Ht; auto. Qed.

Lemma Inv2_not_spoken s :
  Inv2 s -> speakTimer s <> None ->
  Comp.hasSpokenResponse (refs (core s)) = false.
Proof.
  intros J Hn. pose proof (inv2_speak _ J Hn) as R.
  by apply autoSpeakReady_parts in R as (_ & _ & _ & _ & R5).
Qed.

Lemma autoSpeakBody_fresh r k c :
  Comp.autoSpeakAttempts (refs c) = 0 ->
  let c' := autoSpeakBody r k c in
  Comp.autoSpeakAttempts (refs c') <= 1
  /\ (Comp.hasSpokenResponse (refs c') = false ->
      Comp.autoSpeakAttempts (refs c') = 0).
Proof.
  intros A0. unfold autoSpeakBody. rewrite A0. simpl.
  case_match; simpl; [split; [lia | auto]|].
  unfold speak, speakWithBrowser, onRejected, releaseLockViaWindow,
    cancelSpeech, postMessage, upd_synth.
  repeat (case_match; simpl); split; (lia || discriminate).
Qed.

Lemma Inv2_Step s e s' : Inv s -> Inv2 s -> Step s e s' -> Inv2 s'.
Proof.
  intros I J H. destruct H.
  - destruct J. constructor; simpl; auto.
  - by apply (Inv2_same s).
  - destruct (initialize_frame k (Some lessac) (core s))
      as (_ & Hr & _ & Hc & _).
    apply commit_inv2; rewrite ?Hr, ?Hc.
    + by apply (Inv2_same s).
    + apply J.
    + apply J.
    + apply (Inv2_not_spoken s J).
    + intros G. destruct (inv2_generating _ J G). auto.
  - destruct (sendToGemini_frame k (core s)) as (_ & Hr & _).
    apply commit_inv2; rewrite ?Hr.
    + by apply (Inv2_same s).
    + apply J.
    + apply J.
    + apply (Inv2_not_spoken s J).
    + intros G.
      destruct (sendToGemini_comp k (core s)) as [(_ & E & _) | (_ & E & F)].
      * split; [exact E|]. intros G0. by destruct (inv2_generating _ J G0).
      * rewrite E. destruct (inv2_generating _ J (F G)). auto.
  - assert (Hn : speakTimer s <> None) by congruence.
    pose proof (inv2_speak _ J Hn) as R.
    apply autoSpeakReady_parts in R as (R1 & _ & _ & _ & R5).
    pose proof (inv2_fresh _ J R5) as A0.
    assert (G0 : Comp.isGenerating (comp (core s)) = false).
    { destruct (Comp.isGenerating (comp (core s))) eqn:G; [|done].
      destruct (inv2_generating _ J G) as [E _]. rewrite E in R1. discriminate. }
    destruct (autoSpeakBody_frame r k (core s)) as (_ & Hc & _).
    destruct (autoSpeakBody_fresh r k (core s) A0) as [F1 F2].
    apply commit_inv2.
    + by apply Inv2_drop_speakTimer.
    + exact F1.
    + exact F2.
    + simpl. congruence.
    + rewrite Hc. congruence.
  - destruct I. congruence.
  - apply commit_inv2.
    + done.
    + rewrite (handle_attempts _ _ _ H). apply J.
    + rewrite (handle_attempts _ _ _ H), (handle_hasSpoken _ _ _ H). apply J.
    + rewrite (handle_hasSpoken _ _ _ H). apply (Inv2_not_spoken s J).
    + intros G. destruct (handle_generating _ _ _ H G) as [G0 E].
      destruct (inv2_generating _ J G0) as [E0 S0]. split; [auto|].
      intros _. by rewrite (handle_hasSpoken _ _ _ H).
Qed.

Lemma reachable_Inv2 s : reachable s -> Inv2 s.
Proof.
  induction 1 as [| s e s' Hs IH H].
  - apply Inv2_mount.
  - eauto using Inv2_Step, step_Step, reachable_Inv.
Qed.

Lemma step_AutoSpeak s s' :
  step AutoSpeakTimerFires s = Some s' ->
  exists dl r k, speakTimer s = Some (dl, (r, k)) /\ dl <= now (core s)
    /\ s' = commit (set_speakTimer None s) (autoSpeakBody r k (core s)).
Proof.
  intros H. apply step_Step in H.
  inversion H as [| | | |dl r k Ht Hdl| |e c' Hh]; subst; [eauto 6|discriminate Hh].
Qed.

Lemma handle_lock_free e c c' :
  handle e c = Some c' ->
  Comp.isTTSLocked (refs c) = false -> Comp.isTTSLocked (refs c') = false.
Proof. intros H L. by_cases_on_handler e H. Qed.

Lemma handle_lock_held e c c' :
  handle e c = Some c' ->
  pendingFetches c = 0 ->
  truthy (Comp.generatedResponse (comp c))
  || negb (nonBlank (Comp.transcription (comp c))) = true ->
  Comp.isTTSLocked (refs c') = true ->
  truthy (Comp.generatedResponse (comp c'))
  || negb (nonBlank (Comp.transcription (comp c'))) = true.
Proof. intros H P B L. by_cases_on_handler e H. Qed.

Lemma lockInv_commit old c :
  lockInv c ->
  (Comp.isGenerating (comp c) = true ->
   Comp.isGenerating (comp (core old)) = false ->
   Comp.isTTSLocked (refs c) = false) ->
  lockInv (core (commit old c)).
Proof.
  intros L G. unfold commit; simpl. case_bool_decide as E; [exact L|].
  unfold resetSpoken. destruct (Comp.isGenerating (comp c)) eqn:Gc; [|exact L].
  assert (F : Comp.isTTSLocked (refs c) = false).
  { apply G; [done|]. by destruct (Comp.isGenerating (comp (core old))). }
  unfold lockInv. simpl. congruence.
Qed.

Lemma lock_held_idle s :
  Inv s -> Inv2 s -> lockInv (core s) ->
  Comp.isTTSLocked (refs (core s)) = true ->
  Comp.isGenerating (comp (core s)) = false /\ pendingFetches (core s) = 0.
Proof.
  intros I J L Lk. destruct (L Lk) as [S _].
  assert (G : Comp.isGenerating (comp (core s)) = false).
  { destruct (Comp.isGenerating (comp (core s))) eqn:G; [|done].
    destruct (inv2_generating _ J G). congruence. }
  split; [exact G|]. pose proof (inv_gen _ I) as P. unfold genOK in P.
  by rewrite G in P.
Qed.

Lemma lockInv_Step s e s' :
  Inv s -> Inv2 s -> lockInv (core s) -> Step s e s' -> lockInv (core s').
Proof.
  intros I J L H. destruct H.
  - exact L.
  - exact L.
  - destruct (initialize_frame k (Some lessac) (core s))
      as (_ & Hr & _ & Hc & _).
    apply lockInv_commit.
    + unfold lockInv. rewrite Hr, Hc. exact L.
    + intros G G0. rewrite Hc in G. simpl in G0. congruence.
  - destruct (sendToGemini_frame k (core s)) as (_ & Hr & _).
    destruct (inv_debounce _ I _ _ H) as (_ & D & _).
    apply debounceReady_parts in D as (_ & D2 & _ & D4).
    assert (F : Comp.isTTSLocked (refs (core s)) = false).
    { destruct (Comp.isTTSLocked (refs (core s))) eqn:Lk; [|done].
      destruct (L Lk) as [_ B]. rewrite D4, D2 in B. discriminate. }
    apply lockInv_commit.
    + unfold lockInv. rewrite Hr. congruence.
    + rewrite Hr. auto.
  - assert (Hn : speakTimer s <> None) by congruence.
    pose proof (inv2_speak _ J Hn) as R.
    apply autoSpeakReady_parts in R as (R1 & _ & _ & _ & R5).
    destruct (autoSpeakBody_frame r k (core s)) as (_ & Hc & _).
    assert (G0 : Comp.isGenerating (comp (core s)) = false).
    { destruct (Comp.isGenerating (comp (core s))) eqn:G; [|done].
      destruct (inv2_generating _ J G) as [E _]. rewrite E in R1.
      discriminate. }
    apply lockInv_commit.
    + unfold lockInv. rewrite Hc, R1. simpl. intros _. split; [|done].
      unfold autoSpeakBody.
      destruct (3 <=? Comp.autoSpeakAttempts (refs (core s))); [done|].
      destruct (Comp.isTTSLocked (refs (core s))) eqn:Lk.
      * destruct (L Lk). congruence.
      * unfold speak, speakWithBrowser, onRejected, releaseLockViaWindow,
          cancelSpeech, postMessage, upd_synth.
        repeat (case_match; simpl); auto.
    + intros G G0'. rewrite Hc in G. congruence.
  - pose proof (inv_clear _ I). congruence.
  - apply lockInv_commit.
    + intros Lk'. rewrite (handle_hasSpoken _ _ _ H).
      destruct (Comp.isTTSLocked (refs (core s))) eqn:Lk.
      * destruct (L Lk) as [S B].
        destruct (lock_held_idle s I J L Lk) as [_ P].
        split; [exact S|]. exact (handle_lock_held _ _ _ H P B Lk').
      * rewrite (handle_lock_free _ _ _ H Lk) in Lk'. discriminate.
    + intros G G0. destruct (handle_generating _ _ _ H G). congruence.
Qed.

Lemma reachable_lockInv s : reachable s -> lockInv (core s).
Proof.
  induction 1 as [| s e s' Hs IH H].
  - unfold lockInv. simpl. discriminate.
  - eauto using lockInv_Step, step_Step, reachable_Inv, reachable_Inv2.
Qed.

(** X14. Auto-speak is attempted exactly once for a response.  In every
    state the system can be in the attempt counter is 0 or 1, and it is 0
    while the response is not marked as spoken; so the branch of the
    circuit breaker is never taken.  Whenever the auto-speak timer fires,
    the response is not yet marked as spoken, no attempt is counted and the
    lock is free, so the attempt is never skipped: the body takes the lock,
    counts the attempt, marks the response as spoken and calls [speak]
    with the response the timer was set for; no auto-speak timer is pending
    afterwards. *)
Theorem auto_speak_exactly_once s :
  reachable s ->
  Comp.autoSpeakAttempts (refs (core s)) <= 1
  /\ (Comp.hasSpokenResponse (refs (core s)) = false ->
      Comp.autoSpeakAttempts (refs (core s)) = 0)
  /\ (forall s', step AutoSpeakTimerFires s = Some s' ->
        Comp.hasSpokenResponse (refs (core s)) = false
        /\ Comp.autoSpeakAttempts (refs (core s)) = 0
        /\ Comp.isTTSLocked (refs (core s)) = false
        /\ core s'
           = speak (TTS.closure (tts (core s)))
               (Comp.generatedResponse (comp (core s)))
               (upd_refs (Comp.setHasSpokenResponse true)
                  (upd_refs (Comp.setTtsActuallyStarted false)
                     (upd_refs (Comp.setIsTTSLocked true)
                        (upd_refs
                           (fun r => Comp.setAutoSpeakAttempts
                                       (S (Comp.autoSpeakAttempts r)) r)
                           (core s)))))
        /\ Comp.autoSpeakAttempts (refs (core s')) = 1
        /\ Comp.hasSpokenResponse (refs (core s')) = true
        /\ Comp.isTTSLocked (refs (core s')) = true
        /\ speakTimer s' = None).
Proof.
  intros Hs. pose proof (reachable_Inv _ Hs) as I.
  pose proof (reachable_Inv2 _ Hs) as J.
  pose proof (reachable_lockInv _ Hs) as L.
  split; [apply J|]. split; [apply J|].
  intros s' Hst.
  assert (Hs' : reachable s') by (by eapply reachable_step).
  pose proof (reachable_Inv2 _ Hs') as J'.
  destruct (step_AutoSpeak _ _ Hst) as (dl & r & k & Ht & _ & ->).
  assert (Hn : speakTimer s <> None) by congruence.
  pose proof (Inv2_not_spoken _ J Hn) as S0.
  pose proof (inv2_fresh _ J S0) as A0.
  destruct (inv_speak _ I _ _ _ Ht) as [-> ->].
  assert (F : Comp.isTTSLocked (refs (core s)) = false).
  { destruct (Comp.isTTSLocked (refs (core s))) eqn:Lk; [|done].
    destruct (L Lk). congruence. }
  do 3 (split; [done|]).
  destruct (autoSpeakBody_frame (Comp.generatedResponse (comp (core s)))
              (TTS.closure (tts (core s))) (core s)) as (_ & Hc & _).
  set (body := autoSpeakBody _ _ _) in *.
  assert (Hcore : core (commit (set_speakTimer None s) body) = body).
  { unfold commit; simpl. rewrite Hc. by rewrite bool_decide_true. }
  assert (E : body
              = speak (TTS.closure (tts (core s)))
                  (Comp.generatedResponse (comp (core s)))
                  (upd_refs (Comp.setHasSpokenResponse true)
                     (upd_refs (Comp.setTtsActuallyStarted false)
                        (upd_refs (Comp.setIsTTSLocked true)
                           (upd_refs
                              (fun r => Comp.setAutoSpeakAttempts
                                          (S (Comp.autoSpeakAttempts r)) r)
                              (core s)))))).
  { unfold body, autoSpeakBody. rewrite A0, F. simpl. reflexivity. }
  rewrite Hcore. split; [exact E|].
  assert (R : Comp.autoSpeakAttempts (refs body) = 1
              /\ Comp.hasSpokenResponse (refs body) = true
              /\ Comp.isTTSLocked (refs body) = true).
  { rewrite E. pose proof (inv_window _ I) as W.
    unfold speak, speakWithBrowser, onRejected, releaseLockViaWindow,
      cancelSpeech, postMessage, upd_synth. simpl. rewrite ?W, ?A0.
    repeat (case_match; simpl; rewrite ?W, ?A0); auto. }
  destruct R as (R1 & R2 & R3). do 3 (split; [done|]).
  match goal with |- ?t = None => destruct t eqn:T; [|done] end.
  exfalso.
  assert (S1 := Inv2_not_spoken _ J' ltac:(rewrite T; discriminate)).
  rewrite Hcore in S1. congruence.
Qed.

Lemma auto_speak_exactly_once_witness :
  reachable sAnswered
  /\ exists s',
       step AutoSpeakTimerFires sAnswered = Some s'
       /\ Comp.autoSpeakAttempts (refs (core sAnswered)) = 0
       /\ Comp.autoSpeakAttempts (refs (core s')) = 1
       /\ speakTimer s' = None.
Proof.
  assert (H : step AutoSpeakTimerFires sAnswered
              = Some (after [AutoSpeakTimerFires] sAnswered))
    by (vm_compute; reflexivity).
  split; [exact reachable_answered|]. eexists. split; [exact H|].
  destruct (proj2 (proj2 (auto_speak_exactly_once sAnswered reachable_answered))
              _ H) as (_ & A & _ & _ & B & _ & _ & C).
  auto.
Defined.

Lemma step_GeminiSettles r s s' :
  step (GeminiSettles r) s = Some s' ->
  exists c', geminiSettles r (core s) = Some c' /\ s' = commit s c'.
Proof.
  intros H. apply step_Step in H.
  inversion H as [| | | | | |e c' Hh]; subst. eauto.
Qed.

Lemma settles_while_generating s r c' :
  Inv s -> Inv2 s -> geminiSettles r (core s) = Some c' ->
  pendingFetches (core s) = 1
  /\ Comp.isGenerating (comp (core s)) = true
  /\ Comp.generatedResponse (comp (core s)) = []
  /\ Comp.hasSpokenResponse (refs (core s)) = false.
Proof.
  intros I J H. pose proof (inv_gen _ I) as G. unfold genOK in G.
  unfold geminiSettles in H.
  destruct (pendingFetches (core s)) eqn:P; [discriminate|].
  destruct (Comp.isGenerating (comp (core s))) eqn:E; [|discriminate].
  destruct (inv2_generating _ J E). auto.
Qed.

(** X15. From generating to speaking.  When the reasoning client answers
    with a text that is not blank, and the hook is initialized and not
    speaking, the response is stored, the generation is over, the error of
    the component is left as it is, and the auto-speak timer is set for
    300 ms later, with that text and the current [speak]. *)
Theorem reply_arms_auto_speak s t s' :
  reachable s -> step (GeminiSettles (inl t)) s = Some s' ->
  nonBlank t = true ->
  TTS.isInitialized (tts (core s)) = true ->
  TTS.isSpeaking (tts (core s)) = false ->
  Comp.generatedResponse (comp (core s')) = t
  /\ Comp.isGenerating (comp (core s')) = false
  /\ pendingFetches (core s') = 0
  /\ Comp.error (comp (core s')) = Comp.error (comp (core s))
  /\ speakTimer s'
     = Some (now (core s) + 300, (t, TTS.closure (tts (core s)))).
Proof.
  intros Hs Hst Hb Hi Hsp.
  pose proof (reachable_Inv _ Hs) as I. pose proof (reachable_Inv2 _ Hs) as J.
  destruct (step_GeminiSettles _ _ _ Hst) as (c' & Hc & ->).
  destruct (settles_while_generating _ _ _ I J Hc) as (P & G & R & S0).
  pose proof (nonBlank_truthy _ Hb) as Ht.
  unfold geminiSettles in Hc. rewrite P, Ht in Hc. injection Hc as <-.
  rewrite commit_comp, commit_pending. simpl. rewrite P.
  do 4 (split; [reflexivity|]).
  unfold rearm, autoSpeakDeps, autoSpeakReady. simpl.
  rewrite R, Hi, Hsp, Ht, Hb, S0. simpl.
  rewrite bool_decide_false; [reflexivity|].
  intros [= E]. rewrite <- E in Ht. discriminate.
Qed.

Lemma reply_arms_auto_speak_witness :
  reachable sGenerating
  /\ nonBlank (js "Hi") = true
  /\ TTS.isInitialized (tts (core sGenerating)) = true
  /\ TTS.isSpeaking (tts (core sGenerating)) = false
  /\ exists s',
       step (GeminiSettles (inl (js "Hi"))) sGenerating = Some s'
       /\ Comp.generatedResponse (comp (core s')) = js "Hi".
Proof.
  assert (R : reachable sGenerating).
  { apply (reachable_step sListened DebounceTimerFires);
      [exact reachable_listened | vm_compute; reflexivity]. }
  assert (H1 : TTS.isInitialized (tts (core sGenerating)) = true)
    by (vm_compute; reflexivity).
  assert (H2 : TTS.isSpeaking (tts (core sGenerating)) = false)
    by (vm_compute; reflexivity).
  assert (H3 : step (GeminiSettles (inl (js "Hi"))) sGenerating
               = Some (after [GeminiSettles (inl (js "Hi"))] sGenerating))
    by (vm_compute; reflexivity).
  split; [exact R|]. split; [reflexivity|]. split; [exact H1|].
  split; [exact H2|]. eexists. split; [exact H3|].
  exact (proj1 (reply_arms_auto_speak sGenerating (js "Hi") _ R H3 eq_refl
                  H1 H2)).
Defined.

(** X16. When the reasoning client fails, or answers without a text, the
    failure is reported in the error slot of the component ('Failed to
    generate response: ...'), the generation is over, and the response
    stays empty: no auto-speak timer is set, so no speech is attempted. *)
Theorem failed_reply_is_reported s r s' :
  reachable s -> step (GeminiSettles r) s = Some s' ->
  bringsNoText r ->
  Comp.error (comp (core s'))
  = js "Failed to generate response: " ++ failureMessage r
  /\ Comp.generatedResponse (comp (core s')) = []
  /\ Comp.isGenerating (comp (core s')) = false
  /\ pendingFetches (core s') = 0
  /\ speakTimer s' = None
  /\ speakOps (core s') = speakOps (core s)
  /\ Comp.transcription (comp (core s')) = Comp.transcription (comp (core s)).
Proof.
  intros Hs Hst Hr.
  pose proof (reachable_Inv _ Hs) as I. pose proof (reachable_Inv2 _ Hs) as J.
  assert (J' : Inv2 s') by (apply reachable_Inv2; by eapply reachable_step).
  destruct (step_GeminiSettles _ _ _ Hst) as (c' & Hc & ->).
  destruct (settles_while_generating _ _ _ I J Hc) as (P & G & R & S0).
  assert (E : c' = upd_comp (Comp.setIsGenerating false)
                     (upd_comp (Comp.setError (js "Failed to generate response: "
                                               ++ failureMessage r))
                        (upd_pendingFetches pred (core s)))).
  { unfold geminiSettles in Hc. rewrite P in Hc.
    destruct r as [t|msg]; simpl in Hr; [subst t|]; by injection Hc as <-. }
  assert (T : speakTimer (commit s c') = None).
  { destruct (speakTimer (commit s c')) eqn:T; [|done].
    assert (Hn : speakTimer (commit s c') <> None) by congruence.
    pose proof (inv2_speak _ J' Hn) as A.
    apply autoSpeakReady_parts in A as (A & _).
    rewrite commit_comp, E in A. simpl in A. rewrite R in A. discriminate. }
  rewrite commit_comp, commit_pending. split; [by rewrite E|].
  split; [by rewrite E|]. split; [by rewrite E|].
  split; [rewrite E; simpl; by rewrite P|]. split; [exact T|].
  split; [|by rewrite E].
  destruct (commit_core s c') as [-> | ->]; rewrite E; [done|].
  unfold resetSpoken. simpl. reflexivity.
Qed.

Lemma failed_reply_is_reported_witness :
  reachable sGenerating
  /\ bringsNoText (inr (js "Gemini API error 500"))
  /\ exists s',
       step (GeminiSettles (inr (js "Gemini API error 500"))) sGenerating
       = Some s'
       /\ Comp.generatedResponse (comp (core s')) = [].
Proof.
  assert (R : reachable sGenerating).
  { apply (reachable_step sListened DebounceTimerFires);
      [exact reachable_listened | vm_compute; reflexivity]. }
  assert (H3 : step (GeminiSettles (inr (js "Gemini API error 500"))) sGenerating
               = Some (after [GeminiSettles (inr (js "Gemini API error 500"))]
                             sGenerating))
    by (vm_compute; reflexivity).
  split; [exact R|]. split; [exact I|]. eexists. split; [exact H3|].
  exact (proj1 (proj2 (failed_reply_is_reported sGenerating _ _ R H3 I))).
Defined.

(* --------------------------------------------------------------------- *)
(** *** Without an API key *)
(* --------------------------------------------------------------------- *)

Lemma handle_neverAsked e c c' :
  handle e c = Some c' -> neverAsked c -> neverAsked c'.
Proof.
  unfold neverAsked. intros H (K & Q & P & G & R).
  repeat split; by_cases_on_handler e H.
Qed.

Lemma neverAsked_commit old c :
  neverAsked c -> neverAsked (core (commit old c)).
Proof.
  unfold neverAsked. rewrite commit_comp, commit_pending, commit_requests.
  intros (K & H). split; [|exact H].
  destruct (commit_core old c) as [-> | ->]; [done|].
  unfold resetSpoken. by case_match.
Qed.

Lemma sendToGemini_without_key k c :
  apiKey c = false ->
  sendToGemini k c
  = upd_comp (Comp.setError (js "Gemini API key not configured")) c.
Proof. unfold sendToGemini. by intros ->. Qed.

Lemma neverAsked_Step s e s' :
  neverAsked (core s) -> Step s e s' -> neverAsked (core s').
Proof.
  intros N H. destruct H.
  - exact N.
  - exact N.
  - apply neverAsked_commit. destruct N as (K & Q & P & G & R).
    destruct (initialize_frame k (Some lessac) (core s))
      as (_ & _ & _ & Hc & Hp & Hq).
    unfold neverAsked. rewrite Hc, Hp, Hq. repeat split; auto.
    unfold initialize, postMessage. destruct k; simpl; repeat case_match; auto.
  - apply neverAsked_commit. destruct N as (K & Q & P & G & R).
    rewrite sendToGemini_without_key by done. by repeat split.
  - apply neverAsked_commit. destruct N as (K & Q & P & G & R).
    destruct (autoSpeakBody_frame r k (core s)) as (_ & Hc & Hp & Hq & _).
    unfold neverAsked. rewrite Hc, Hp, Hq. repeat split; auto.
    unfold autoSpeakBody, speak, speakWithBrowser, onRejected,
      releaseLockViaWindow, cancelSpeech, postMessage, upd_synth.
    repeat (case_match; simpl); auto.
  - apply neverAsked_commit. destruct N as (K & Q & P & G & R).
    by repeat split.
  - apply neverAsked_commit. by eapply handle_neverAsked.
Qed.

Lemma neverAsked_run es s s' :
  neverAsked (core s) -> run es s = Some s' -> neverAsked (core s').
Proof.
  revert s. induction es as [|e es IH]; intros s N; simpl.
  - by intros [= <-].
  - destruct (step e s) as [s1|] eqn:E; simpl; [|discriminate].
    apply IH. eapply neverAsked_Step; [exact N | by apply step_Step].
Qed.

(** X17. Without an API key nothing is ever sent to the reasoning client.
    Whatever happens after the page is loaded without a key, no request is
    sent or pending, nothing is being generated, there is no response, and
    no auto-speak timer is set.  When the debounce timer fires,
    [sendToGemini] only reports 'Gemini API key not configured'. *)
Theorem without_api_key_nothing_is_sent supported y es s :
  run es (mount supported false y) = Some s ->
  geminiRequests (core s) = []
  /\ pendingFetches (core s) = 0
  /\ Comp.isGenerating (comp (core s)) = false
  /\ Comp.generatedResponse (comp (core s)) = []
  /\ speakTimer s = None
  /\ (forall s', step DebounceTimerFires s = Some s' ->
        Comp.error (comp (core s')) = js "Gemini API key not configured"
        /\ geminiRequests (core s') = []).
Proof.
  intros H.
  assert (N : neverAsked (core s)).
  { eapply neverAsked_run; [|exact H]. unfold neverAsked. simpl.
    by destruct supported. }
  assert (J : Inv2 s).
  { apply reachable_Inv2. eapply reachable_run; [|exact H]. constructor. }
  destruct N as (K & Q & P & G & R). do 4 (split; [done|]). split.
  - destruct (speakTimer s) eqn:T; [|done]. exfalso.
    assert (A := inv2_speak _ J ltac:(rewrite T; discriminate)).
    apply autoSpeakReady_parts in A as (A & _). rewrite R in A. discriminate.
  - intros s' Hst. apply step_Step in Hst.
    inversion Hst as [| | |dl k Ht Hdl| | |e c' Hh]; subst;
      [|discriminate Hh].
    rewrite commit_comp, commit_requests, sendToGemini_without_key by done.
    by split.
Qed.

Lemma without_api_key_nothing_is_sent_witness :
  exists s,
    run (startup ++ listening) (mount true false (Some idleSynth)) = Some s
    /\ geminiRequests (core s) = []
    /\ exists s', step DebounceTimerFires s = Some s'.
Proof.
  assert (H : run (startup ++ listening) (mount true false (Some idleSynth))
              = Some (after (startup ++ listening)
                            (mount true false (Some idleSynth))))
    by (vm_compute; reflexivity).
  eexists. split; [exact H|]. split.
  - exact (proj1 (without_api_key_nothing_is_sent _ _ _ _ H)).
  - eexists. vm_compute. reflexivity.
Defined.

(* --------------------------------------------------------------------- *)
(** *** A browser without speech recognition *)
(* --------------------------------------------------------------------- *)

Lemma handle_recognition e c c' :
  handle e c = Some c' ->
  Comp.recognitionRef (refs c') = Comp.recognitionRef (refs c)
  /\ Comp.isSupported (comp c') = Comp.isSupported (comp c).
Proof. intros H. split; by_cases_on_handler e H. Qed.

Lemma commit_recognitionRef old c :
  Comp.recognitionRef (refs (core (commit old c)))
  = Comp.recognitionRef (refs c).
Proof.
  destruct (commit_core old c) as [-> | ->]; [done|].
  unfold resetSpoken. by case_match.
Qed.

Lemma recognition_Step s e s' :
  Step s e s' ->
  Comp.recognitionRef (refs (core s')) = Comp.recognitionRef (refs (core s))
  /\ Comp.isSupported (comp (core s')) = Comp.isSupported (comp (core s)).
Proof.
  intros H. destruct H; try rewrite commit_recognitionRef, commit_comp.
  - done.
  - done.
  - destruct (initialize_frame k (Some lessac) (core s))
      as (_ & -> & _ & -> & _). done.
  - destruct (sendToGemini_frame k (core s)) as (_ & -> & _). split; [done|].
    unfold sendToGemini. by repeat case_match.
  - destruct (autoSpeakBody_frame r k (core s)) as (_ & -> & _).
    split; [|done].
    unfold autoSpeakBody, speak, speakWithBrowser, onRejected,
      releaseLockViaWindow, cancelSpeech, postMessage, upd_synth.
    repeat (case_match; simpl); auto.
  - done.
  - exact (handle_recognition _ _ _ H).
Qed.

Lemma recognition_run es s s' :
  run es s = Some s' ->
  Comp.recognitionRef (refs (core s')) = Comp.recognitionRef (refs (core s))
  /\ Comp.isSupported (comp (core s')) = Comp.isSupported (comp (core s)).
Proof.
  revert s. induction es as [|e es IH]; intros s; simpl.
  - by intros [= <-].
  - destruct (step e s) as [s1|] eqn:E; simpl; [|discriminate].
    intros H. destruct (IH _ H) as [-> ->].
    by apply recognition_Step with e, step_Step.
Qed.

(** X18. Whether the browser has speech recognition is settled when the
    page is loaded: nothing that happens later changes [isSupported] or
    the recognition object.  In a browser without it the component says so
    in its error slot when it is loaded, and from then on a click on the
    start button changes nothing at all. *)
Theorem unsupported_browser_never_records supported key y es s :
  run es (mount supported key y) = Some s ->
  Comp.isSupported (comp (core s)) = supported
  /\ Comp.recognitionRef (refs (core s)) = supported
  /\ (supported = false ->
      Comp.error (comp (core (mount supported key y)))
      = js "Web Speech API is not supported in this browser"
      /\ forall thrown,
           startRecording thrown (core s) = core s
           /\ step (ClickStartRecording thrown) s = Some s).
Proof.
  intros H. destruct (recognition_run _ _ _ H) as [R S].
  assert (R' : Comp.recognitionRef (refs (core s)) = supported) by done.
  assert (S' : Comp.isSupported (comp (core s)) = supported)
    by (rewrite S; by destruct supported).
  do 2 (split; [done|]). intros ->. split; [done|]. intros thrown.
  assert (E : startRecording thrown (core s) = core s)
    by (unfold startRecording; by rewrite R').
  split; [exact E|].
  unfold step, handle. simpl. rewrite E. f_equal.
  destruct s as [c ti td ts tc ta]. unfold commit, rearm. simpl.
  by rewrite !bool_decide_true.
Qed.

Lemma unsupported_browser_never_records_witness :
  exists s,
    run (startup ++ listening) (mount false true (Some idleSynth)) = Some s
    /\ Comp.isSupported (comp (core s)) = false.
Proof.
  assert (H : run (startup ++ listening) (mount false true (Some idleSynth))
              = Some (after (startup ++ listening)
                            (mount false true (Some idleSynth))))
    by (vm_compute; reflexivity).
  eexists. split; [exact H|].
  exact (proj1 (unsupported_browser_never_records _ _ _ _ _ H)).
Defined.

(* --------------------------------------------------------------------- *)
(** *** The clear button *)
(* --------------------------------------------------------------------- *)

Lemma step_ClickClear s s' :
  step ClickClear s = Some s' -> s' = commit s (clearTranscription (core s)).
Proof.
  intros H. apply step_Step in H.
  inversion H as [| | | | | |e c' Hh]; subst. by injection Hh as <-.
Qed.

Lemma clearTranscription_parts c :
  let c' := clearTranscription c in
  Comp.transcription (comp c') = []
  /\ Comp.interimTranscript (comp c') = []
  /\ Comp.generatedResponse (comp c') = []
  /\ Comp.error (comp c') = []
  /\ Comp.isGenerating (comp c') = Comp.isGenerating (comp c)
  /\ Comp.isRecording (comp c') = Comp.isRecording (comp c)
  /\ TTS.isSpeaking (tts c') = false
  /\ TTS.error (tts c') = None
  /\ refs c' = refs c
  /\ pendingFetches c' = pendingFetches c
  /\ geminiRequests c' = geminiRequests c.
Proof.
  unfold clearTranscription, stop, cancelSpeech, postMessage, upd_synth.
  repeat (case_match; simpl); auto 12.
Qed.

(** X19. The clear button ends the turn.  After a click on it, at any
    moment, the transcript, the interim transcript, the response and the
    error of the component are empty, the hook is not speaking and has no
    error, and neither the debounce timer nor the auto-speak timer is
    pending: what was said before is never sent or spoken afterwards.  The
    refs of the component, a generation in progress and its request are
    left as they are. *)
Theorem clear_ends_the_turn s s' :
  reachable s -> step ClickClear s = Some s' ->
  Comp.transcription (comp (core s')) = []
  /\ Comp.interimTranscript (comp (core s')) = []
  /\ Comp.generatedResponse (comp (core s')) = []
  /\ Comp.error (comp (core s')) = []
  /\ TTS.isSpeaking (tts (core s')) = false
  /\ TTS.error (tts (core s')) = None
  /\ debounceTimer s' = None
  /\ speakTimer s' = None
  /\ refs (core s') = refs (core s)
  /\ Comp.isGenerating (comp (core s')) = Comp.isGenerating (comp (core s))
  /\ pendingFetches (core s') = pendingFetches (core s).
Proof.
  intros Hs Hst.
  assert (Hs' : reachable s') by (by eapply reachable_step).
  pose proof (reachable_Inv _ Hs') as I'.
  pose proof (reachable_Inv2 _ Hs') as J'.
  apply step_ClickClear in Hst.
  destruct (clearTranscription_parts (core s))
    as (T & N & R & E & G & _ & Sp & Er & Rf & P & _).
  assert (C : core s' = clearTranscription (core s)).
  { subst s'. unfold commit; simpl. by rewrite bool_decide_true. }
  rewrite C. do 6 (split; [done|]). split; [|split].
  - destruct (debounceTimer s') as [[dl k]|] eqn:D; [|done]. exfalso.
    destruct (inv_debounce _ I' _ _ D) as (_ & A & _).
    apply debounceReady_parts in A. rewrite C, T in A.
    destruct A as (_ & A & _). discriminate.
  - destruct (speakTimer s') eqn:D; [|done]. exfalso.
    assert (A := inv2_speak _ J' ltac:(rewrite D; discriminate)).
    apply autoSpeakReady_parts in A as (A & _). rewrite C, R in A.
    discriminate.
  - done.
Qed.

Lemma clear_ends_the_turn_witness :
  reachable sAnswered
  /\ exists s', step ClickClear sAnswered = Some s'
                /\ Comp.transcription (comp (core s')) = [].
Proof.
  assert (H : step ClickClear sAnswered = Some (after [ClickClear] sAnswered))
    by (vm_compute; reflexivity).
  split; [exact reachable_answered|]. eexists. split; [exact H|].
  exact (proj1 (clear_ends_the_turn _ _ reachable_answered H)).
Defined.

(* --------------------------------------------------------------------- *)
(** *** Result events and the debounce timer *)
(* --------------------------------------------------------------------- *)

Lemma step_RecognitionResult ev s s' :
  step (RecognitionResult ev) s = Some s' ->
  s' = commit s (onresult ev (core s)).
Proof.
  intros H. apply step_Step in H.
  inversion H as [| | | | | |e c' Hh]; subst. by injection Hh as <-.
Qed.

Lemma finalTranscript_nonempty l :
  l <> [] -> truthy (concat (map withSeparator l)) = true.
Proof.
  destruct l as [|x l]; [done|]. intros _. simpl. unfold withSeparator.
  destruct x; reflexivity.
Qed.

Lemma sendToGemini_mount c :
  let c' := sendToGemini mountClosure c in
  refs c' = refs c /\ tts c' = tts c /\ now c' = now c
  /\ geminiRequests c' = geminiRequests c
  /\ pendingFetches c' = pendingFetches c
  /\ Comp.transcription (comp c') = Comp.transcription (comp c)
  /\ Comp.isRecording (comp c') = Comp.isRecording (comp c)
  /\ Comp.isGenerating (comp c') = Comp.isGenerating (comp c)
  /\ Comp.generatedResponse (comp c') = Comp.generatedResponse (comp c)
  /\ Comp.error (comp c')
     = (if apiKey c then Comp.error (comp c)
        else js "Gemini API key not configured").
Proof. unfold sendToGemini. simpl. destruct (apiKey c); simpl; auto 12. Qed.

Lemma onresult_cases ev c :
  (finalSegments ev = [] ->
   onresult ev c
   = upd_comp (Comp.setInterimTranscript (concat (interimSegments ev))) c)
  /\ (finalSegments ev <> [] ->
      onresult ev c
      = upd_comp (Comp.setInterimTranscript (concat (interimSegments ev)))
          (sendToGemini mountClosure
             (upd_refs (Comp.setIsTTSLocked false)
                (upd_comp
                   (fun s => Comp.setTranscription
                      (Comp.transcription s
                       ++ concat (map withSeparator (finalSegments ev))) s)
                   c)))).
Proof.
  unfold onresult, splitResults. rewrite scanResults_spec. simpl.
  fold (finalSegments ev). fold (interimSegments ev). split; intros H.
  - by rewrite H.
  - by rewrite (finalTranscript_nonempty _ H).
Qed.

(** X20. Only final results postpone the request.  A result event never
    sends a request itself (the [sendToGemini] the handler calls is the one
    of the first render, which stops before [fetch]).  If the event brings
    final text, the transcript changes, the lock of the component is
    released, and the debounce timer is set anew: to two seconds from now
    if the component is recording and neither generating nor showing a
    response, and to nothing otherwise.  If it brings interim text only,
    the transcript, the refs, the debounce timer and the auto-speak timer
    are left as they are. *)
Theorem final_results_restart_debounce s ev s' :
  step (RecognitionResult ev) s = Some s' ->
  geminiRequests (core s') = geminiRequests (core s)
  /\ Comp.isGenerating (comp (core s')) = Comp.isGenerating (comp (core s))
  /\ Comp.interimTranscript (comp (core s')) = concat (interimSegments ev)
  /\ (finalSegments ev = [] ->
      Comp.transcription (comp (core s')) = Comp.transcription (comp (core s))
      /\ refs (core s') = refs (core s)
      /\ debounceTimer s' = debounceTimer s
      /\ speakTimer s' = speakTimer s
      /\ transcriptChangedAt s' = transcriptChangedAt s)
  /\ (finalSegments ev <> [] ->
      Comp.transcription (comp (core s'))
      = Comp.transcription (comp (core s))
        ++ concat (map withSeparator (finalSegments ev))
      /\ Comp.transcription (comp (core s'))
         <> Comp.transcription (comp (core s))
      /\ Comp.isTTSLocked (refs (core s')) = false
      /\ transcriptChangedAt s' = now (core s)
      /\ debounceTimer s'
         = if debounceReady (core s')
           then Some (now (core s) + 2000, geminiClosure (core s'))
           else None).
Proof.
  intros H. apply step_RecognitionResult in H. subst s'.
  destruct (onresult_cases ev (core s)) as [H0 H1].
  pose proof (onresult_transcription ev (core s)) as T.
  assert (G : Comp.isGenerating (comp (onresult ev (core s)))
              = Comp.isGenerating (comp (core s))).
  { destruct (finalSegments ev) eqn:E.
    - by rewrite H0.
    - rewrite H1 by done. simpl.
      match goal with |- context [sendToGemini mountClosure ?c] =>
        destruct (sendToGemini_mount c) as (_ & _ & _ & _ & _ & _ & _ & -> & _)
      end. reflexivity. }
  assert (C : core (commit s (onresult ev (core s))) = onresult ev (core s)).
  { unfold commit; simpl. rewrite bool_decide_true; [done | by rewrite G]. }
  rewrite C.
  split; [exact (handle_requests (RecognitionResult ev) _ _ eq_refl)|].
  split; [exact G|]. split; [apply onresult_interim|]. split.
  - intros E. rewrite H0 by done. simpl. do 2 (split; [done|]).
    unfold commit, rearm. simpl.
    rewrite !bool_decide_true; done.
  - intros E. split; [exact T|].
    assert (N : Comp.transcription (comp (onresult ev (core s)))
                <> Comp.transcription (comp (core s))).
    { rewrite T. intros A.
      rewrite <- (app_nil_r (Comp.transcription (comp (core s)))) in A at 2.
      apply app_inv_head in A.
      pose proof (finalTranscript_nonempty _ E) as B. rewrite A in B.
      discriminate. }
    split; [exact N|].
    assert (Nw : now (onresult ev (core s)) = now (core s))
      by exact (handle_now (RecognitionResult ev) _ _ eq_refl).
    split; [|split].
    + rewrite H1 by done. simpl.
      match goal with |- context [sendToGemini mountClosure ?c] =>
        destruct (sendToGemini_mount c) as (-> & _)
      end. reflexivity.
    + unfold commit; simpl. rewrite bool_decide_false; [done | congruence].
    + unfold commit, rearm; simpl.
      rewrite bool_decide_false, Nw; [done|].
      unfold debounceDeps. intros [= A _]. congruence.
Qed.

Lemma final_results_restart_debounce_witness :
  exists s',
    step (RecognitionResult (finalResult "and more")) sListened = Some s'
    /\ geminiRequests (core s') = geminiRequests (core sListened).
Proof.
  assert (H : step (RecognitionResult (finalResult "and more")) sListened
              = Some (after [RecognitionResult (finalResult "and more")]
                            sListened))
    by (vm_compute; reflexivity).
  eexists. split; [exact H|].
  exact (proj1 (final_results_restart_debounce _ _ _ H)).
Defined.

(** X21. The end of the stream puts the pending request off.  When the
    recognition engine reports the end of the stream or an error, the
    component stops recording and keeps the transcript and the response,
    nothing is sent by that event, and the debounce timer is cancelled: in
    the state the event leaves no debounce timer is pending and none can
    fire.  The text is not lost: when the engine next reports a start, the
    transcript is still the same and the debounce timer is set anew, two
    seconds ahead, if the transcript is not blank and no response is being
    generated or shown. *)
Theorem end_of_stream_cancels_debounce s e s' :
  reachable s -> endsStream e = true -> step e s = Some s' ->
  Comp.isRecording (comp (core s')) = false
  /\ Comp.transcription (comp (core s')) = Comp.transcription (comp (core s))
  /\ Comp.generatedResponse (comp (core s'))
     = Comp.generatedResponse (comp (core s))
  /\ geminiRequests (core s') = geminiRequests (core s)
  /\ debounceTimer s' = None
  /\ step DebounceTimerFires s' = None
  /\ (forall s2, step RecognitionStart s' = Some s2 ->
      Comp.isRecording (comp (core s2)) = true
      /\ Comp.transcription (comp (core s2))
         = Comp.transcription (comp (core s))
      /\ geminiRequests (core s2) = geminiRequests (core s)
      /\ debounceTimer s2
         = if nonBlank (Comp.transcription (comp (core s)))
              && negb (Comp.isGenerating (comp (core s)))
              && negb (truthy (Comp.generatedResponse (comp (core s))))
           then Some (now (core s') + 2000, geminiClosure (core s2))
           else None).
Proof.
  intros Hs He Hst.
  assert (I' : Inv s') by (apply reachable_Inv; by eapply reachable_step).
  assert (R : Comp.isRecording (comp (core s')) = false
              /\ Comp.transcription (comp (core s'))
                 = Comp.transcription (comp (core s))
              /\ Comp.generatedResponse (comp (core s'))
                 = Comp.generatedResponse (comp (core s))
              /\ Comp.isGenerating (comp (core s'))
                 = Comp.isGenerating (comp (core s))
              /\ geminiRequests (core s') = geminiRequests (core s)).
  { destruct e; try discriminate He; simpl in Hst; injection Hst as <-;
      rewrite commit_comp, commit_requests; by repeat split. }
  assert (D : debounceTimer s' = None).
  { destruct (debounceTimer s') as [[dl k]|] eqn:D; [|done]. exfalso.
    destruct (inv_debounce _ I' _ _ D) as (_ & A & _).
    apply debounceReady_parts in A as (A & _).
    destruct R as (R & _). congruence. }
  destruct R as (R1 & R2 & R3 & R4 & R5). do 4 (split; [done|]).
  split; [exact D|]. split; [simpl; by rewrite D|].
  intros s2 H2. simpl in H2. injection H2 as <-.
  assert (C : core (commit s' (onstart (core s'))) = onstart (core s')).
  { unfold commit; simpl. by rewrite bool_decide_true. }
  rewrite C. do 3 (split; [done|]).
  unfold commit, rearm; simpl.
  rewrite bool_decide_false.
  - simpl. unfold debounceReady. simpl. by rewrite R2, R3, R4.
  - unfold debounceDeps. simpl. rewrite R1. congruence.
Qed.

Lemma end_of_stream_cancels_debounce_witness :
  reachable sListened
  /\ endsStream RecognitionEnd = true
  /\ debounceTimer sListened <> None
  /\ exists s' s2,
       step RecognitionEnd sListened = Some s'
       /\ debounceTimer s' = None
       /\ step RecognitionStart s' = Some s2
       /\ debounceTimer s2 <> None.
Proof.
  assert (H : step RecognitionEnd sListened
              = Some (after [RecognitionEnd] sListened))
    by (vm_compute; reflexivity).
  assert (H2 : step RecognitionStart (after [RecognitionEnd] sListened)
               = Some (after [RecognitionEnd; RecognitionStart] sListened))
    by (vm_compute; reflexivity).
  pose proof (end_of_stream_cancels_debounce sListened RecognitionEnd _
                reachable_listened eq_refl H) as (_ & _ & _ & _ & D & _ & A).
  split; [exact reachable_listened|]. split; [reflexivity|].
  split; [vm_compute; discriminate|]. eexists. eexists.
  split; [exact H|]. split; [exact D|]. split; [exact H2|].
  destruct (A _ H2) as (_ & _ & _ & T). rewrite T. vm_compute. discriminate.
Defined.
